(** * Motion detection and viewport tracking: a shallow embedding

    The development follows [src/motion_detector.py],
    [src/viewport_tracker.py], the drawing loop of [src/visualizer.py] and
    the frame sampling of [src/frame_processor.py].  Python integers are [Z];
    Python floats are IEEE-754 binary64 values, taken from the specification
    of floating-point arithmetic of the standard library ([SpecFloat],
    precision 53, maximal exponent 1024); exceptions are an explicit error
    monad.  Rounding errors are bounded over the rationals. *)

From Stdlib Require Import QArith Qpower Lqa Qround Qabs.
From Stdlib Require Import Permutation.
From Stdlib Require Import ZArith List Bool Lia SpecFloat.
Import ListNotations.
Local Open Scope Z_scope.

(** ** Exceptions *)

Inductive exn : Type :=
| IndexError
| OverflowError
| ValueError
| ZeroDivisionError
| Cv2Error.

Inductive result (A : Type) : Type :=
| Ok (a : A)
| Raise (e : exn).
Arguments Ok {A} a.
Arguments Raise {A} e.

Definition bind {A B : Type} (r : result A) (k : A -> result B) : result B :=
  match r with
  | Ok a => k a
  | Raise e => Raise e
  end.

Notation "x <- c ;; k" := (bind c (fun x => k))
  (at level 61, c at next level, right associativity).
Notation "' p <- c ;; k" := (bind c (fun p => k))
  (at level 61, p pattern, c at next level, right associativity).

(** ** Python floats (binary64) *)

Abbreviation fexp64 := (fexp 53 1024).

Module PyFloat.

Abbreviation prec := 53.
Abbreviation emax := 1024.

Definition float : Type := spec_float.

Definition is_infinite (f : float) : bool :=
  match f with
  | S754_infinity _ => true
  | _ => false
  end.

(** [float(z)]: the nearest double, ties to even; [OverflowError] when the
    integer is too large. *)
Definition of_int (z : Z) : result float :=
  let f := binary_normalize prec emax z 0 false in
  if is_infinite f then Raise OverflowError else Ok f.

(** [int(f)]: truncation toward zero; [ValueError] on NaN and
    [OverflowError] on an infinity. *)
Definition to_int (f : float) : result Z :=
  match f with
  | S754_nan => Raise ValueError
  | S754_infinity _ => Raise OverflowError
  | S754_zero _ => Ok 0
  | S754_finite s m e => Ok (cond_Zopp s (Z.shiftl (Zpos m) e))
  end.

Definition add (x y : float) : float := SFadd prec emax x y.
Definition sub (x y : float) : float := SFsub prec emax x y.
Definition mul (x y : float) : float := SFmul prec emax x y.

(** [p / q] on two integers: the correctly rounded quotient. *)
Definition true_divide (p q : Z) : result float :=
  match q with
  | Z0 => Raise ZeroDivisionError
  | _ =>
    let s := xorb (p <? 0) (q <? 0) in
    match p with
    | Z0 => Ok (S754_zero s)
    | _ =>
      let f := SFdiv prec emax
                 (S754_finite (p <? 0) (Z.to_pos (Z.abs p)) 0)
                 (S754_finite (q <? 0) (Z.to_pos (Z.abs q)) 0) in
      if is_infinite f then Raise OverflowError else Ok f
    end
  end.

(** [round(f)]: the nearest integer, ties to even. *)
Definition round (f : float) : result Z :=
  match f with
  | S754_nan => Raise ValueError
  | S754_infinity _ => Raise OverflowError
  | S754_zero _ => Ok 0
  | S754_finite s m e =>
    if 0 <=? e then Ok (cond_Zopp s (Z.shiftl (Zpos m) e))
    else
      let d := Z.shiftl 1 (- e) in
      let q := Zpos m / d in
      let r := Zpos m mod d in
      Ok (cond_Zopp s
            match 2 * r ?= d with
            | Lt => q
            | Gt => q + 1
            | Eq => if Z.even q then q else q + 1
            end)
  end.

Definition zero : float := S754_zero false.
Definition one : float := S754_finite false 4503599627370496 (-52).

Definition leb (x y : float) : bool := SFleb x y.

Definition valid (f : float) : bool := valid_binary prec emax f.

(** The literal [0.3], the default smoothing factor. *)
Definition lit_0_3 : float := S754_finite false 5404319552844595 (-54).

(** [finite_below K f]: [f] is a well-formed finite double with
    [|f| < 2^K]. *)
Definition finite_below (K : Z) (f : float) : Prop :=
  match f with
  | S754_zero _ => True
  | S754_finite _ m e =>
    bounded prec emax m e = true /\ Zpos (digits2_pos m) + e <= K
  | _ => False
  end.

(** The exact value of a finite double. *)
Definition F2Q (f : spec_float) : Q :=
  match f with
  | S754_finite s m e => inject_Z (cond_Zopp s (Zpos m)) * 2 ^ e
  | _ => 0
  end.

(** [nonneg f]: [f] is a zero or a positive finite double. *)
Definition nonneg (f : spec_float) : Prop :=
  match f with
  | S754_zero _ => True
  | S754_finite false _ _ => True
  | _ => False
  end.

End PyFloat.

(** ** viewport_tracker.py *)

Module ViewportTracker.

(** Only the first two components of [frame.shape] are read. *)
Record Frame : Type := { height : Z; width : Z }.

Definition Box : Type := (Z * Z * Z * Z)%type.
Definition ROI : Type := (Z * Z * Z * Z)%type.
Definition Position : Type := (Z * Z)%type.

Definition box_area (b : Box) : Z :=
  let '(_, _, w, h) := b in w * h.

(** The accumulation loop of [calculate_region_of_interest]; the state is
    [(total_weight, weighted_x, weighted_y)]. *)
Definition accumulate (acc : Z * Z * Z) (b : Box) : Z * Z * Z :=
  let '(total_weight, weighted_x, weighted_y) := acc in
  let '(x, y, w, h) := b in
  let center_x := x + w / 2 in
  let center_y := y + h / 2 in
  let weight := w * h in
  (total_weight + weight, weighted_x + center_x * weight,
   weighted_y + center_y * weight).

(** [max(motion_boxes, key=area)]: the first box of maximal area. *)
Definition largest_box (b0 : Box) (bs : list Box) : Box :=
  fold_left (fun best b => if box_area best <? box_area b then b else best)
    bs b0.

Definition frame_center (shape : Frame) : ROI :=
  (width shape / 2, height shape / 2, 0, 0).

Definition calculate_region_of_interest
    (motion_boxes : list Box) (frame_shape : Frame) : result ROI :=
  match motion_boxes with
  | [] => Ok (frame_center frame_shape)
  | b0 :: bs =>
    let '(total_weight, weighted_x, weighted_y) :=
      fold_left accumulate motion_boxes (0, 0, 0) in
    if 0 <? total_weight then
      fx <- PyFloat.true_divide weighted_x total_weight ;;
      avg_x <- PyFloat.to_int fx ;;
      fy <- PyFloat.true_divide weighted_y total_weight ;;
      avg_y <- PyFloat.to_int fy ;;
      let '(_, _, lw, lh) := largest_box b0 bs in
      Ok (avg_x, avg_y, lw, lh)
    else Ok (frame_center frame_shape)
  end.

(** [int(prev * (1 - smoothing_factor) + roi * smoothing_factor)] *)
Definition smooth (smoothing_factor : PyFloat.float) (prev roi : Z)
  : result Z :=
  let c := PyFloat.sub PyFloat.one smoothing_factor in
  fprev <- PyFloat.of_int prev ;;
  froi <- PyFloat.of_int roi ;;
  PyFloat.to_int
    (PyFloat.add (PyFloat.mul fprev c) (PyFloat.mul froi smoothing_factor)).

(** [max(lo, min(hi, v))] *)
Definition clamp (lo hi v : Z) : Z := Z.max lo (Z.min hi v).

(** The body of the [for] loop at index [i], from the previous position. *)
Definition step (frames : list Frame) (width0 height0 vp_width vp_height : Z)
    (smoothing_factor : PyFloat.float)
    (i : nat) (motion_boxes : list Box) (prev : Position)
  : result Position :=
  let '(prev_x, prev_y) := prev in
  match nth_error frames i with
  | None => Raise IndexError
  | Some frame =>
    '(roi_x, roi_y, _, _) <-
       calculate_region_of_interest motion_boxes frame ;;
    '(smooth_x, smooth_y) <-
       match i with
       | O => Ok (roi_x, roi_y)
       | S _ =>
         sx <- smooth smoothing_factor prev_x roi_x ;;
         sy <- smooth smoothing_factor prev_y roi_y ;;
         Ok (sx, sy)
       end ;;
    let min_x := vp_width / 2 in
    let max_x := width0 - vp_width / 2 in
    let smooth_x := clamp min_x max_x smooth_x in
    let min_y := vp_height / 2 in
    let max_y := height0 - vp_height / 2 in
    let smooth_y := clamp min_y max_y smooth_y in
    Ok (smooth_x, smooth_y)
  end.

(** The [for i, motion_boxes in enumerate(motion_results)] loop. *)
Fixpoint loop (frames : list Frame) (width0 height0 vp_width vp_height : Z)
    (smoothing_factor : PyFloat.float)
    (i : nat) (motion_results : list (list Box)) (prev : Position)
  : result (list Position) :=
  match motion_results with
  | [] => Ok []
  | motion_boxes :: rest =>
    p <- step frames width0 height0 vp_width vp_height smoothing_factor
           i motion_boxes prev ;;
    ps <- loop frames width0 height0 vp_width vp_height smoothing_factor
            (S i) rest p ;;
    Ok (p :: ps)
  end.

Definition track_viewport (frames : list Frame)
    (motion_results : list (list Box)) (viewport_size : Z * Z)
    (smoothing_factor : PyFloat.float) : result (list Position) :=
  match frames with
  | [] => Ok []
  | frame0 :: _ =>
    let height0 := height frame0 in
    let width0 := width frame0 in
    let '(vp_width, vp_height) := viewport_size in
    loop frames width0 height0 vp_width vp_height smoothing_factor
      O motion_results (width0 / 2, height0 / 2)
  end.

(** *** Well-formed inputs

    Image sizes and rectangles of OpenCV are 32-bit integers; a box has a
    non-negative width and height; the smoothing factor is a double in
    [[0, 1]]. *)

Definition pixel_size (z : Z) : bool := (0 <=? z) && (z <? 2 ^ 31).
Definition pixel_coord (z : Z) : bool := (- 2 ^ 31 <=? z) && (z <? 2 ^ 31).

Definition valid_frame (f : Frame) : bool :=
  pixel_size (height f) && pixel_size (width f).

Definition valid_box (b : Box) : bool :=
  let '(x, y, w, h) := b in
  pixel_coord x && pixel_coord y && pixel_size w && pixel_size h.

Definition valid_viewport (viewport_size : Z * Z) : bool :=
  pixel_size (fst viewport_size) && pixel_size (snd viewport_size).

Definition valid_smoothing (smoothing_factor : PyFloat.float) : bool :=
  PyFloat.valid smoothing_factor
  && PyFloat.leb PyFloat.zero smoothing_factor
  && PyFloat.leb smoothing_factor PyFloat.one.

(** The recurrence in the words of the specification:
    [round(prev * (1 - alpha) + raw * alpha)]. *)
Definition spec_smooth (alpha : PyFloat.float) (prev raw : Z) : result Z :=
  fprev <- PyFloat.of_int prev ;;
  fraw <- PyFloat.of_int raw ;;
  PyFloat.round
    (PyFloat.add (PyFloat.mul fprev (PyFloat.sub PyFloat.one alpha))
                 (PyFloat.mul fraw alpha)).

(** [prev * (1 - smoothing_factor) + roi * smoothing_factor]: the double
    that [int] receives in [smooth]. *)
Definition smooth_value (smoothing_factor : PyFloat.float) (prev roi : Z)
  : result PyFloat.float :=
  let c := PyFloat.sub PyFloat.one smoothing_factor in
  fprev <- PyFloat.of_int prev ;;
  froi <- PyFloat.of_int roi ;;
  Ok (PyFloat.add (PyFloat.mul fprev c) (PyFloat.mul froi smoothing_factor)).

(** The same expression over the rationals. *)
Definition exact_smooth (alpha : Q) (prev roi : Z) : Q :=
  inject_Z prev * (1 - alpha) + inject_Z roi * alpha.

(** Truncation toward zero. *)
Definition truncate (q : Q) : Z :=
  if Qle_bool 0 q then Qfloor q else Qceiling q.

(** [v] is the truncation toward zero of the double
    [prev * (1 - smoothing_factor) + roi * smoothing_factor], and that double
    lies within [2^-12] of the exact value of the expression. *)
Definition truncated_smoothing (smoothing_factor : PyFloat.float)
    (prev roi v : Z) : bool :=
  match smooth_value smoothing_factor prev roi with
  | Ok f =>
    (v =? truncate (PyFloat.F2Q f))
    && Qle_bool
         (Qabs (PyFloat.F2Q f
                - exact_smooth (PyFloat.F2Q smoothing_factor) prev roi))
         (1 # 4096)
  | Raise _ => false
  end.

(** The range of the specification on one axis, with the exact halves:
    [vp / 2 <= x <= size - vp / 2]. *)
Definition spec_range (vp size x : Z) : bool :=
  Qle_bool (inject_Z vp / 2) (inject_Z x)
  && Qle_bool (inject_Z x) (inject_Z size - inject_Z vp / 2).

(** The accumulated sums stay within the weighted range of the centres. *)
Definition weighted_within (acc : Z * Z * Z) : Prop :=
  let '(total_weight, weighted_x, weighted_y) := acc in
  0 <= total_weight /\
  Z.abs weighted_x <= 2 ^ 32 * total_weight /\
  Z.abs weighted_y <= 2 ^ 32 * total_weight.

(** The position preceding index [k]: the seed for [k = 0]. *)
Definition previous (ps : list Position) (seed : Position) (k : nat)
  : Position :=
  match k with
  | O => seed
  | S k' => nth k' ps (0, 0)
  end.

(** [well_formed]: the inputs are in the pixel range of OpenCV and the
    smoothing factor is a double in [[0, 1]]. *)
Definition well_formed (frames : list Frame) (motion_results : list (list Box))
    (viewport_size : Z * Z) (smoothing_factor : PyFloat.float) : bool :=
  forallb valid_frame frames
  && forallb (forallb valid_box) motion_results
  && valid_viewport viewport_size
  && valid_smoothing smoothing_factor.

(** *** The step response *)

(** [approaches p B v]: from the position [p] the next position [v] moves
    toward the target [B] without passing it; at the target it stays or
    falls one pixel short. *)
Definition approaches (p B v : Z) : bool :=
  if p =? B then (B - 1 <=? v) && (v <=? B)
  else (Z.min p B <=? v) && (v <=? Z.max p B).

(** [between p B v]: [v] lies between [p] and [B]. *)
Definition between (p B v : Z) : bool :=
  (Z.min p B <=? v) && (v <=? Z.max p B).

(** Every position of [ps] approaches [B] from its predecessor, on both
    axes; [prev] precedes the first one. *)
Fixpoint approach_chain (B prev : Position) (ps : list Position) : bool :=
  match ps with
  | [] => true
  | p :: ps' =>
    approaches (fst prev) (fst B) (fst p)
    && approaches (snd prev) (snd B) (snd p)
    && approach_chain B p ps'
  end.

(** The centre of the region of interest is [c]. *)
Definition roi_center_is (motion_boxes : list Box) (frame : Frame)
    (c : Position) : bool :=
  match calculate_region_of_interest motion_boxes frame with
  | Ok (x, y, _, _) => (x =? fst c) && (y =? snd c)
  | Raise _ => false
  end.

(** The step-response scenario: sizes in the pixel range, the region of
    interest at the frame centre on the seed frame and at the reachable
    point [B] on every later frame. *)
Definition step_response (frames : list Frame)
    (motion_results : list (list Box)) (viewport_size : Z * Z) (B : Position)
  : bool :=
  match frames, motion_results with
  | frame0 :: frames', motion_boxes0 :: motion_results' =>
    valid_frame frame0 && valid_viewport viewport_size
    && roi_center_is motion_boxes0 frame0
         (width frame0 / 2, height frame0 / 2)
    && (length frames' =? length motion_results')%nat
    && forallb (fun '(boxes, frame) => roi_center_is boxes frame B)
         (combine motion_results' frames')
    && (fst viewport_size / 2 <=? fst B)
    && (fst B <=? width frame0 - fst viewport_size / 2)
    && (snd viewport_size / 2 <=? snd B)
    && (snd B <=? height frame0 - snd viewport_size / 2)
  | _, _ => false
  end.

End ViewportTracker.

(** ** motion_detector.py *)

Module MotionDetector.

Definition Box : Type := ViewportTracker.Box.

(** [area > min_area], on exact values: a contour area is a finite double
    and Python compares a float with an integer exactly. *)
Definition Qgtb (a b : Q) : bool := negb (Qle_bool a b).

Section Cv2.

(** The raster operations of OpenCV are kept abstract; each may raise
    [cv2.error]. *)
Variables image gray mask contour : Type.
Variable cvtColor_BGR2GRAY : image -> result gray.
Variable GaussianBlur : gray -> Z * Z -> Z -> result gray.
Variable absdiff : gray -> gray -> result gray.
Variable threshold_BINARY : gray -> Q -> Z -> result mask.
Variable dilate : mask -> Z * Z -> Z -> result mask.
Variable findContours_EXTERNAL : mask -> result (list contour).
Variable contourArea : contour -> Q.
Variable boundingRect : contour -> Box.

(** The filtering loop over the contours. *)
Definition filter_contours (min_area : Q) (contours : list contour)
  : list Box :=
  fold_left
    (fun motion_boxes c =>
       let area := contourArea c in
       if Qgtb area min_area then motion_boxes ++ [boundingRect c]
       else motion_boxes)
    contours [].

(** The contours found between the previous and the current frame. *)
Definition find_motion_contours (current_frame prev_frame : image)
    (threshold : Q) : result (list contour) :=
  gray_current <- cvtColor_BGR2GRAY current_frame ;;
  gray_prev <- cvtColor_BGR2GRAY prev_frame ;;
  gray_current <- GaussianBlur gray_current (21, 21) 0 ;;
  gray_prev <- GaussianBlur gray_prev (21, 21) 0 ;;
  frame_diff <- absdiff gray_prev gray_current ;;
  thresh <- threshold_BINARY frame_diff threshold 255 ;;
  thresh <- dilate thresh (5, 5) 2 ;;
  findContours_EXTERNAL thresh.

Definition detect_motion (frames : list image) (frame_idx : Z)
    (threshold min_area : Q) : result (list Box) :=
  if (frame_idx <? 1) || (Z.of_nat (length frames) <=? frame_idx)
  then Ok []
  else
    match nth_error frames (Z.to_nat frame_idx),
          nth_error frames (Z.to_nat (frame_idx - 1)) with
    | Some current_frame, Some prev_frame =>
      contours <- find_motion_contours current_frame prev_frame threshold ;;
      Ok (filter_contours min_area contours)
    | _, _ => Raise IndexError
    end.

End Cv2.

End MotionDetector.

Import ViewportTracker.

(** A toy raster backend: a frame is the list of its contours, each given by
    its area and its bounding rectangle. *)
Module ToyCv2.
Definition contour : Type := (Q * MotionDetector.Box)%type.
Definition image : Type := list contour.
Definition cvtColor_BGR2GRAY (f : image) : result image := Ok f.
Definition GaussianBlur (g : image) (_ : Z * Z) (_ : Z) : result image := Ok g.
Definition absdiff (_ cur : image) : result image := Ok cur.
Definition threshold_BINARY (g : image) (_ : Q) (_ : Z) : result image := Ok g.
Definition dilate (m : image) (_ : Z * Z) (_ : Z) : result image := Ok m.
Definition findContours_EXTERNAL (m : image) : result (list contour) := Ok m.
Definition contourArea (c : contour) : Q := fst c.
Definition boundingRect (c : contour) : MotionDetector.Box := snd c.

Definition detect_motion :=
  MotionDetector.detect_motion image image image contour
    cvtColor_BGR2GRAY GaussianBlur absdiff threshold_BINARY dilate
    findContours_EXTERNAL contourArea boundingRect.

Definition find_motion_contours :=
  MotionDetector.find_motion_contours image image image contour
    cvtColor_BGR2GRAY GaussianBlur absdiff threshold_BINARY dilate
    findContours_EXTERNAL.

Definition frames : list image :=
  [ []; [ (150%Q, (1, 2, 30, 40)); (100%Q, (5, 6, 7, 8)) ] ].
End ToyCv2.

(** ** visualizer.py *)

Module Visualizer.

(** [enumerate(l)] *)
Definition enumerate {A : Type} (l : list A) : list (nat * A) :=
  combine (seq 0 (length l)) l.

(** An index of a slice of step one over [n] elements: a negative index
    counts from the end, and the result is clipped to [[0, n]]. *)
Definition slice_index (n i : Z) : Z :=
  if i <? 0 then Z.max 0 (i + n) else Z.min i n.

(** The number of elements of [a[start:stop]] when [a] has [n] of them. *)
Definition slice_length (n start stop : Z) : Z :=
  Z.max 0 (slice_index n stop - slice_index n start).

(** The viewport rectangle [(vp_left, vp_top, vp_right, vp_bottom)] around
    the position, cut at the frame bounds. *)
Definition viewport_rectangle (width height vp_width vp_height : Z)
    (position : Position) : Z * Z * Z * Z :=
  let '(vp_x, vp_y) := position in
  let vp_left := vp_x - vp_width / 2 in
  let vp_top := vp_y - vp_height / 2 in
  let vp_right := vp_x + vp_width / 2 in
  let vp_bottom := vp_y + vp_height / 2 in
  let vp_left := Z.max 0 vp_left in
  let vp_top := Z.max 0 vp_top in
  let vp_right := Z.min width vp_right in
  let vp_bottom := Z.min height vp_bottom in
  (vp_left, vp_top, vp_right, vp_bottom).

(** [frame[vp_top:vp_bottom, vp_left:vp_right].shape[:2]] *)
Definition crop_shape (frame : Frame) (rectangle : Z * Z * Z * Z) : Z * Z :=
  let '(vp_left, vp_top, vp_right, vp_bottom) := rectangle in
  (slice_length (height frame) vp_top vp_bottom,
   slice_length (width frame) vp_left vp_right).

(** What is drawn and written for one frame: the corners of the green
    rectangles, the blue viewport rectangle, the shape of the viewport
    content cut out of the frame, and whether [cv2.resize] is called on
    it. *)
Record Drawing : Type := {
  motion_rectangles : list (Position * Position);
  viewport : Z * Z * Z * Z;
  content_shape : Z * Z;
  resized : bool
}.

(** The two directories of images and the two videos of the output. *)
Inductive directory : Type := frames_dir | viewport_dir.
Inductive video : Type := motion_detection | viewport_tracking.

(** The texts drawn: ["Frame {i+1}/{len(frames)}"] and ["Frame {i+1}"]. *)
Inductive label : Type :=
| Frame_of (number total : nat)
| Frame_number (number : nat).

(** [for x in l: f(x)], collecting the results; the first exception ends
    the loop. *)
Fixpoint for_each {A B : Type} (f : A -> result B) (l : list A)
  : result (list B) :=
  match l with
  | [] => Ok []
  | x :: rest =>
    y <- f x ;;
    ys <- for_each f rest ;;
    Ok (y :: ys)
  end.

Section Cv2.

(** The images, the slices of numpy and the calls into [os] and OpenCV are
    kept abstract; every call may raise.  [shape] is [image.shape[:2]] and
    [crop frame (left, top, right, bottom)] is
    [frame[top:bottom, left:right]]. *)
Variables image writer : Type.
Variable shape : image -> Frame.
Variable crop : image -> Z * Z * Z * Z -> image.
Variable makedirs : directory -> result unit.
Variable VideoWriter : video -> Z * Z -> result writer.
Variable rectangle :
  image -> Position -> Position -> Z * Z * Z -> Z -> result image.
Variable resize : image -> Z * Z -> result image.
Variable putText : image -> label -> result image.
Variable imwrite : directory -> nat -> image -> result unit.
Variable write : writer -> image -> result unit.
Variable release : writer -> result unit.

(** The green rectangles: one call of [cv2.rectangle] for each motion
    box. *)
Fixpoint draw_boxes (vis_frame : image) (motion_boxes : list Box)
  : result image :=
  match motion_boxes with
  | [] => Ok vis_frame
  | (x, y, w, h) :: rest =>
    vis_frame <- rectangle vis_frame (x, y) (x + w, y + h) (0, 255, 0) 2 ;;
    draw_boxes vis_frame rest
  end.

(** The body of the [for i, frame in enumerate(frames)] loop. *)
Definition draw (width height vp_width vp_height : Z) (total : nat)
    (video_writer viewport_writer : writer)
    (motion_results : list (list Box)) (viewport_positions : list Position)
    (i : nat) (frame : image) : result Drawing :=
  let vis_frame := frame in
  let motion_boxes := nth i motion_results [] in
  let position := nth i viewport_positions (width / 2, height / 2) in
  vis_frame <- draw_boxes vis_frame motion_boxes ;;
  let viewport_rectangle :=
    viewport_rectangle width height vp_width vp_height position in
  let '(vp_left, vp_top, vp_right, vp_bottom) := viewport_rectangle in
  vis_frame <-
    rectangle vis_frame (vp_left, vp_top) (vp_right, vp_bottom)
      (255, 0, 0) 3 ;;
  let viewport_frame := crop frame viewport_rectangle in
  let viewport_shape := crop_shape (shape frame) viewport_rectangle in
  let resize_needed :=
    negb ((fst viewport_shape =? vp_height)
          && (snd viewport_shape =? vp_width)) in
  viewport_frame <-
    (if resize_needed then resize viewport_frame (vp_width, vp_height)
     else Ok viewport_frame) ;;
  vis_frame <- putText vis_frame (Frame_of (i + 1) total) ;;
  viewport_frame <- putText viewport_frame (Frame_number (i + 1)) ;;
  _ <- imwrite frames_dir (i + 1) vis_frame ;;
  _ <- imwrite viewport_dir (i + 1) viewport_frame ;;
  _ <- write video_writer vis_frame ;;
  _ <- write viewport_writer viewport_frame ;;
  Ok {| motion_rectangles :=
          map (fun '(x, y, w, h) => ((x, y), (x + w, y + h))) motion_boxes;
        viewport := viewport_rectangle;
        content_shape := viewport_shape;
        resized := resize_needed |}.

(** [visualize_results] returns nothing; the model returns what was drawn
    for each frame.  The paths and the messages printed are left out. *)
Definition visualize_results (frames : list image)
    (motion_results : list (list Box)) (viewport_positions : list Position)
    (viewport_size : Z * Z) : result (list Drawing) :=
  _ <- makedirs frames_dir ;;
  _ <- makedirs viewport_dir ;;
  match frames with
  | [] => Raise IndexError
  | frame0 :: _ =>
    let height := height (shape frame0) in
    let width := width (shape frame0) in
    video_writer <- VideoWriter motion_detection (width, height) ;;
    let '(vp_width, vp_height) := viewport_size in
    viewport_writer <- VideoWriter viewport_tracking (vp_width, vp_height) ;;
    drawings <-
      for_each
        (fun '(i, frame) =>
           draw width height vp_width vp_height (length frames)
             video_writer viewport_writer
             motion_results viewport_positions i frame)
        (enumerate frames) ;;
    _ <- release video_writer ;;
    _ <- release viewport_writer ;;
    Ok drawings
  end.

End Cv2.

End Visualizer.

(** A toy drawing backend: an image is its shape; as in OpenCV, [resize]
    rejects an empty source and a size that is not positive, and [imwrite]
    rejects an empty image. *)
Module ToyDraw.
Definition image : Type := Frame.
Definition shape (frame : image) : Frame := frame.
Definition empty (frame : image) : bool :=
  (height frame <=? 0) || (width frame <=? 0).
Definition crop (frame : image) (rectangle : Z * Z * Z * Z) : image :=
  let '(rows, columns) := Visualizer.crop_shape frame rectangle in
  {| height := rows; width := columns |}.
Definition makedirs (_ : Visualizer.directory) : result unit := Ok tt.
Definition VideoWriter (_ : Visualizer.video) (_ : Z * Z) : result unit :=
  Ok tt.
Definition rectangle (frame : image) (_ _ : Position) (_ : Z * Z * Z)
    (_ : Z) : result image := Ok frame.
Definition resize (frame : image) (dsize : Z * Z) : result image :=
  if empty frame || (fst dsize <=? 0) || (snd dsize <=? 0)
  then Raise Cv2Error
  else Ok {| height := snd dsize; width := fst dsize |}.
Definition putText (frame : image) (_ : Visualizer.label) : result image :=
  Ok frame.
Definition imwrite (_ : Visualizer.directory) (_ : nat) (frame : image)
  : result unit :=
  if empty frame then Raise Cv2Error else Ok tt.
Definition write (_ : unit) (_ : image) : result unit := Ok tt.
Definition release (_ : unit) : result unit := Ok tt.
Definition visualize_results :=
  Visualizer.visualize_results image unit shape crop makedirs VideoWriter
    rectangle resize putText imwrite write release.
End ToyDraw.

(** ** frame_processor.py *)

Module FrameProcessor.

(** [z < f] for an integer and a float: Python compares the exact values. *)
Definition int_ltb_float (z : Z) (f : PyFloat.float) : bool :=
  match f with
  | S754_nan => false
  | S754_infinity s => negb s
  | _ => negb (Qle_bool (PyFloat.F2Q f) (inject_Z z))
  end.

(** [x / y] on two floats: [ZeroDivisionError] on a zero divisor, the
    correctly rounded quotient otherwise (an infinity on overflow). *)
Definition float_divide (x y : PyFloat.float) : result PyFloat.float :=
  match y with
  | S754_zero _ => Raise ZeroDivisionError
  | _ => Ok (SFdiv PyFloat.prec PyFloat.emax x y)
  end.

(** [int(original_fps / target_fps) if target_fps < original_fps else 1] *)
Definition frame_interval (original_fps : PyFloat.float) (target_fps : Z)
  : result Z :=
  if int_ltb_float target_fps original_fps then
    ftarget <- PyFloat.of_int target_fps ;;
    ratio <- float_divide original_fps ftarget ;;
    PyFloat.to_int ratio
  else Ok 1.

Section Cv2.

Variable image : Type.
Variable resize : image -> Z * Z -> result image.

(** An opened [cv2.VideoCapture]: whether it could be opened, two of its
    properties, and the frames that [read] delivers before it fails. *)
Record VideoCapture : Type := {
  isOpened : bool;
  CAP_PROP_FPS : PyFloat.float;
  CAP_PROP_FRAME_COUNT : PyFloat.float;
  read : list image
}.

(** The [while True] loop: [frame_count] frames have been read and
    [frames] extracted. *)
Fixpoint extract (frame_interval : Z) (resize_dim : Z * Z)
    (frame_count : Z) (stream : list image) (frames : list image)
  : result (list image) :=
  match stream with
  | [] => Ok frames
  | frame :: rest =>
    if frame_interval =? 0 then Raise ZeroDivisionError
    else if frame_count mod frame_interval =? 0 then
      resized_frame <- resize frame resize_dim ;;
      extract frame_interval resize_dim (frame_count + 1) rest
        (frames ++ [resized_frame])
    else
      extract frame_interval resize_dim (frame_count + 1) rest frames
  end.

Definition process_video (cap : VideoCapture) (target_fps : Z)
    (resize_dim : Z * Z) : result (list image) :=
  if negb (isOpened cap) then Ok []
  else
    let original_fps := CAP_PROP_FPS cap in
    total_frames <- PyFloat.to_int (CAP_PROP_FRAME_COUNT cap) ;;
    frame_interval <- frame_interval original_fps target_fps ;;
    extract frame_interval resize_dim 0 (read cap) [].

End Cv2.

End FrameProcessor.

(** A toy video: a frame is its number and its size; resizing sets the
    size.  The capture reports 30 frames per second and delivers seven
    frames. *)
Module ToyVideo.
Definition image : Type := (Z * (Z * Z))%type.
Definition resize (frame : image) (dsize : Z * Z) : result image :=
  Ok (fst frame, dsize).
Definition fps_30 : PyFloat.float := S754_finite false 8444249301319680 (-48).
Definition count_7 : PyFloat.float := S754_finite false 7881299347898368 (-50).
Definition cap : FrameProcessor.VideoCapture image :=
  {| FrameProcessor.isOpened := true;
     FrameProcessor.CAP_PROP_FPS := fps_30;
     FrameProcessor.CAP_PROP_FRAME_COUNT := count_7;
     FrameProcessor.read :=
       map (fun i => (i, (1920, 1080))) [0; 1; 2; 3; 4; 5; 6] |}.
Definition process_video :=
  FrameProcessor.process_video image resize.
End ToyVideo.

(** ** Auxiliary notions *)

(** [subsequence s l]: [s] is [l] with some elements left out. *)
Inductive subsequence {A : Type} : list A -> list A -> Prop :=
| subsequence_nil : subsequence [] []
| subsequence_skip x s l : subsequence s l -> subsequence s (x :: l)
| subsequence_keep x s l : subsequence s l -> subsequence (x :: s) (x :: l).

(** [(center_x, center_y)] of a box, as the accumulation loop computes it. *)
Definition box_center (b : Box) : Position :=
  let '(x, y, w, h) := b in (x + w / 2, y + h / 2).

(** The centre of the box lies in the rectangle from [lo] to [hi]. *)
Definition center_within (lo hi : Position) (b : Box) : bool :=
  let '(center_x, center_y) := box_center b in
  (fst lo <=? center_x) && (center_x <=? fst hi)
  && (snd lo <=? center_y) && (center_y <=? snd hi).

(** The accumulated sums are those of centres between [lo] and [hi]. *)
Definition weighted_between (lo hi : Position) (acc : Z * Z * Z) : Prop :=
  let '(total_weight, weighted_x, weighted_y) := acc in
  fst lo * total_weight <= weighted_x <= fst hi * total_weight /\
  snd lo * total_weight <= weighted_y <= snd hi * total_weight.

(** The corner [(x, y)] of the box has non-negative coordinates. *)
Definition nonneg_corner (b : Box) : bool :=
  let '(x, y, _, _) := b in (0 <=? x) && (0 <=? y).

(** The box lies inside a frame of the given shape. *)
Definition box_inside (shape : Frame) (b : Box) : bool :=
  let '(x, y, w, h) := b in
  (0 <=? x) && (0 <=? y) && (0 <=? w) && (0 <=? h)
  && (x + w <=? width shape) && (y + h <=? height shape).

(** ** Sample inputs *)

Definition frame_100 : Frame := {| height := 100; width := 100 |}.
Definition frame_40 : Frame := {| height := 40; width := 40 |}.
Definition frame_26 : Frame := {| height := 26; width := 26 |}.

Definition pair_frames : list Frame := [frame_100; frame_100].
Definition pair_motion : list (list Box) := [[]; [(51, 49, 2, 2)]].
Definition mixed_frames : list Frame := [frame_100; frame_40].
Definition frame_200_60 : Frame := {| height := 60; width := 200 |}.
Definition wide_frame : Frame := {| height := 40; width := 100 |}.
Definition tall_frame : Frame := {| height := 200; width := 40 |}.

(** The step response: a seed frame without motion (the region of interest
    is the frame centre), then a box centred on [(12, 12)] for 50 frames. *)
Definition step_motion : list (list Box) := [] :: repeat [(11, 11, 2, 2)] 50.
Definition step_frames : list Frame := repeat frame_26 51.
Definition step_frames_100 : list Frame := repeat frame_100 51.

(** * Facts on binary64 arithmetic *)

(** [0 < 2 ^ n] for a non-negative exponent. *)
Ltac pow2_pos := apply Z.pow_pos_nonneg; lia.

Lemma fexp64_eq e : fexp64 e = Z.max (e - 53) (-1074).
Proof. reflexivity. Qed.

Lemma digits2_pos_spec (p : positive) :
  2 ^ (Zpos (digits2_pos p) - 1) <= Zpos p < 2 ^ Zpos (digits2_pos p).
Proof.
  induction p as [p IH | p IH |]; simpl digits2_pos.
  - rewrite Pos2Z.inj_succ.
    replace (Z.succ (Zpos (digits2_pos p)) - 1)
      with (Z.succ (Zpos (digits2_pos p) - 1)) by lia.
    rewrite !Z.pow_succ_r by lia. lia.
  - rewrite Pos2Z.inj_succ.
    replace (Z.succ (Zpos (digits2_pos p)) - 1)
      with (Z.succ (Zpos (digits2_pos p) - 1)) by lia.
    rewrite !Z.pow_succ_r by lia. lia.
  - simpl. lia.
Qed.

Lemma Zdigits2_nonneg m : 0 <= Zdigits2 m.
Proof. destruct m; simpl; lia. Qed.

Lemma Zdigits2_spec m :
  0 < m -> 2 ^ (Zdigits2 m - 1) <= m < 2 ^ Zdigits2 m.
Proof.
  destruct m as [| p | p]; try lia. intros _. apply digits2_pos_spec.
Qed.

Lemma Zdigits2_pos m : 0 < m -> 0 < Zdigits2 m.
Proof. destruct m; simpl; lia. Qed.

Lemma Zdigits2_le m k : 0 <= m -> 0 <= k -> m < 2 ^ k -> Zdigits2 m <= k.
Proof.
  intros Hm Hk Hlt.
  destruct (Z.eq_dec m 0) as [-> | Hne]; [simpl; lia |].
  destruct (Zdigits2_spec m ltac:(lia)) as [Hlo _].
  destruct (Z_le_gt_dec (Zdigits2 m) k) as [|Hgt]; [assumption | exfalso].
  assert (2 ^ k <= 2 ^ (Zdigits2 m - 1)) by (apply Z.pow_le_mono_r; lia).
  lia.
Qed.

Lemma Zdigits2_ge m k : 2 ^ (k - 1) <= m -> 1 <= k -> k <= Zdigits2 m.
Proof.
  intros Hlo Hk.
  assert (0 < 2 ^ (k - 1)) by pow2_pos.
  destruct (Zdigits2_spec m ltac:(lia)) as [_ Hhi].
  destruct (Z_le_gt_dec k (Zdigits2 m)) as [|Hgt]; [assumption | exfalso].
  assert (2 ^ Zdigits2 m <= 2 ^ (k - 1)).
  { apply Z.pow_le_mono_r; [lia|]. pose proof (Zdigits2_nonneg m). lia. }
  lia.
Qed.

(** shifting right *)

Lemma shr_1_m r : 0 <= shr_m r -> shr_m (shr_1 r) = shr_m r / 2.
Proof.
  destruct r as [m r s]; simpl. intros Hm.
  destruct m as [| [p | p |] | p]; cbn [shr_m shr_1];
    try reflexivity; try lia.
  - apply Z.div_unique with 1; lia.
  - apply Z.div_unique with 0; lia.
Qed.

Lemma iter_pos_shr_1_m n : forall r,
  0 <= shr_m r -> shr_m (iter_pos shr_1 n r) = shr_m r / 2 ^ Zpos n.
Proof.
  induction n as [n IH | n IH |]; intros r Hr; simpl iter_pos.
  - assert (H1 : 0 <= shr_m (shr_1 r)).
    { rewrite shr_1_m by assumption. apply Z.div_pos; lia. }
    assert (H2 : 0 <= shr_m (iter_pos shr_1 n (shr_1 r))).
    { rewrite IH by assumption. apply Z.div_pos; [lia | pow2_pos]. }
    rewrite IH, IH, shr_1_m by assumption.
    rewrite !Z.div_div by (try apply Z.pow_pos_nonneg; lia).
    f_equal.
    assert (E : 2 ^ Zpos n~1 = 2 * 2 ^ Zpos n * 2 ^ Zpos n).
    { rewrite <- Z.mul_assoc, <- Z.pow_add_r, <- Z.pow_succ_r by lia.
      f_equal; lia. }
    lia.
  - assert (H2 : 0 <= shr_m (iter_pos shr_1 n r)).
    { rewrite IH by assumption. apply Z.div_pos; [lia | pow2_pos]. }
    rewrite IH, IH by assumption.
    rewrite !Z.div_div by (try apply Z.pow_pos_nonneg; lia).
    f_equal.
    assert (E : 2 ^ Zpos n~0 = 2 ^ Zpos n * 2 ^ Zpos n).
    { rewrite <- Z.pow_add_r by lia. f_equal; lia. }
    lia.
  - rewrite shr_1_m by assumption. reflexivity.
Qed.

Lemma shr_m_spec m l e n :
  0 <= m -> 0 <= n ->
  shr_m (fst (shr (shr_record_of_loc m l) e n)) = m / 2 ^ n /\
  snd (shr (shr_record_of_loc m l) e n) = e + n.
Proof.
  intros Hm Hn.
  assert (Hrec : shr_m (shr_record_of_loc m l) = m)
    by (destruct l as [| []]; reflexivity).
  destruct n as [| p | p]; simpl; try lia.
  - rewrite Hrec, Z.div_1_r. split; [reflexivity | lia].
  - rewrite iter_pos_shr_1_m by lia. rewrite Hrec. split; reflexivity.
Qed.

Lemma round_nearest_even_cases m l :
  round_nearest_even m l = m \/ round_nearest_even m l = m + 1.
Proof.
  destruct l as [| []]; simpl; auto. destruct (Z.even m); auto.
Qed.

Lemma finite_below_mono K K' f :
  K <= K' -> PyFloat.finite_below K f -> PyFloat.finite_below K' f.
Proof. destruct f; simpl; intuition lia. Qed.

Lemma shr_nonpos r e n : n <= 0 -> shr r e n = (r, e).
Proof. destruct n; simpl; try reflexivity; lia. Qed.

Lemma div_pow2_lt m d n :
  m < 2 ^ d -> 0 <= n <= d -> m / 2 ^ n < 2 ^ (d - n).
Proof.
  intros Hm Hn.
  apply Z.div_lt_upper_bound; [pow2_pos|].
  rewrite <- Z.pow_add_r by lia.
  replace (n + (d - n)) with d by lia. assumption.
Qed.

Lemma div_pow2_ge m d n :
  2 ^ d <= m -> 0 <= n <= d -> 2 ^ (d - n) <= m / 2 ^ n.
Proof.
  intros Hm Hn.
  apply Z.div_le_lower_bound; [pow2_pos|].
  rewrite <- Z.pow_add_r by lia.
  replace (n + (d - n)) with d by lia. assumption.
Qed.

Lemma div_pow2_small m n :
  0 <= m -> 0 <= n -> Zdigits2 m <= n -> m / 2 ^ n = 0.
Proof.
  intros Hm Hn Hd.
  destruct (Z.eq_dec m 0) as [-> | Hne];
    [apply Z.div_0_l; apply Z.pow_nonzero; lia|].
  apply Z.div_small. split; [lia|].
  destruct (Zdigits2_spec m ltac:(lia)) as [_ Hhi].
  assert (2 ^ Zdigits2 m <= 2 ^ n) by (apply Z.pow_le_mono_r; lia). lia.
Qed.

(** The first shift of [binary_round_aux] brings the mantissa below
    [2^53]; it has exactly 53 digits unless the exponent is the least one. *)
Lemma shr_fexp_first m e l K :
  0 <= m -> e <= fexp64 (Zdigits2 m + e) -> Zdigits2 m + e <= K ->
  0 <= K <= 1023 ->
  let r := shr_fexp 53 1024 m e l in
  0 <= shr_m (fst r) < 2 ^ 53 /\
  -1074 <= snd r <= 970 /\ snd r + 53 <= K /\
  (-1074 < snd r -> 2 ^ 52 <= shr_m (fst r)).
Proof.
  intros Hm H1 HK HKr r. subst r. unfold shr_fexp.
  set (d := Zdigits2 m) in *.
  set (n := fexp64 (d + e) - e).
  assert (Hn : 0 <= n) by (unfold n; lia).
  destruct (shr_m_spec m l e n Hm Hn) as [E1 E2].
  rewrite E1, E2.
  assert (En : n = Z.max (d + e - 53) (-1074) - e) by reflexivity.
  assert (Hd0 : 0 <= d) by apply Zdigits2_nonneg.
  assert (Hp : 0 < 2 ^ n) by pow2_pos.
  split; [| split; [lia | split; [lia|]]].
  - split; [apply Z.div_pos; lia|].
    destruct (Z_lt_le_dec n d) as [Hlt | Hge].
    + assert (Hmpos : 0 < m).
      { destruct (Z.eq_dec m 0) as [E|]; [|lia].
        subst m. unfold d in Hlt. simpl in Hlt. lia. }
      destruct (Zdigits2_spec m Hmpos) as [_ Hhi]. fold d in Hhi.
      pose proof (div_pow2_lt m d n Hhi ltac:(lia)) as Hq.
      assert (2 ^ (d - n) <= 2 ^ 53) by (apply Z.pow_le_mono_r; lia).
      lia.
    + rewrite div_pow2_small by (fold d; lia). lia.
  - intros Hbig.
    assert (Hmpos : 0 < m).
    { destruct (Z.eq_dec m 0) as [E|]; [|lia].
      subst m. unfold d in *. simpl in *. lia. }
    destruct (Zdigits2_spec m Hmpos) as [Hlo _]. fold d in Hlo.
    pose proof (div_pow2_ge m (d - 1) n Hlo ltac:(lia)) as Hq.
    replace (d - 1 - n) with 52 in Hq by lia. assumption.
Qed.

Lemma Zdigits2_pow2 k : 0 <= k -> Zdigits2 (2 ^ k) = k + 1.
Proof.
  intros Hk. apply Z.le_antisymm.
  - apply Zdigits2_le; [apply Z.pow_nonneg; lia | lia |].
    apply Z.pow_lt_mono_r; lia.
  - apply Zdigits2_ge; [|lia]. replace (k + 1 - 1) with k by lia. lia.
Qed.

(** The rounding and the second shift. *)
Lemma round_finish s m0 e1 l :
  0 <= m0 < 2 ^ 53 -> -1074 <= e1 <= 970 ->
  (-1074 < e1 -> 2 ^ 52 <= m0) ->
  PyFloat.finite_below (e1 + 54)
    (let '(mrs, e2) :=
       shr_fexp 53 1024 (round_nearest_even m0 l) e1 loc_Exact in
     match shr_m mrs with
     | Z0 => S754_zero s
     | Zpos m => if e2 <=? 1024 - 53 then S754_finite s m e2
                 else S754_infinity s
     | Zneg _ => S754_nan
     end).
Proof.
  intros Hm0 He1 Hnorm.
  set (m1 := round_nearest_even m0 l).
  assert (Hm1 : m0 <= m1 <= m0 + 1)
    by (destruct (round_nearest_even_cases m0 l); unfold m1; lia).
  clearbody m1.
  unfold shr_fexp. rewrite fexp64_eq.
  destruct (Z_lt_le_dec m1 (2 ^ 53)) as [Hsmall | Hbig].
  - (* no second shift *)
    assert (Hd1 : Zdigits2 m1 <= 53)
      by (apply Zdigits2_le; [lia | lia | assumption]).
    rewrite shr_nonpos by lia. cbn [shr_record_of_loc shr_m].
    destruct m1 as [| p | p] eqn:Ep; [exact I | | lia].
    replace (e1 <=? 1024 - 53) with true by (symmetry; apply Z.leb_le; lia).
    cbn [Zdigits2] in Hd1. cbn [PyFloat.finite_below]. split; [|lia].
    unfold bounded, canonical_mantissa. rewrite fexp64_eq.
    apply andb_true_intro; split; [apply Z.eqb_eq | apply Z.leb_le; lia].
    destruct (Z.eq_dec e1 (-1074)) as [-> | Hne]; [lia|].
    assert (53 <= Zdigits2 (Zpos p)).
    { apply Zdigits2_ge; [|lia]. change (53 - 1) with 52. lia. }
    cbn [Zdigits2] in H. lia.
  - (* the mantissa became 2^53: one more shift *)
    assert (Em1 : m1 = 2 ^ 53) by lia.
    rewrite Em1. rewrite (Zdigits2_pow2 53) by lia.
    replace (Z.max (53 + 1 + e1 - 53) (-1074) - e1) with 1 by lia.
    cbn -[Z.leb Z.sub Z.add].
    replace (e1 + 1 <=? 1024 - 53) with true by (symmetry; apply Z.leb_le; lia).
    cbn [PyFloat.finite_below].
    change (digits2_pos 4503599627370496) with 53%positive.
    split; [|lia].
    unfold bounded, canonical_mantissa. rewrite fexp64_eq.
    apply andb_true_intro; split; [apply Z.eqb_eq | apply Z.leb_le; lia].
    change (digits2_pos 4503599627370496) with 53%positive. lia.
Qed.

Lemma binary_round_aux_bound s m e l K :
  0 <= m -> e <= fexp64 (Zdigits2 m + e) -> Zdigits2 m + e <= K ->
  0 <= K <= 1023 ->
  PyFloat.finite_below (K + 1) (binary_round_aux 53 1024 s m e l).
Proof.
  intros Hm H1 HK HKr.
  pose proof (shr_fexp_first m e l K Hm H1 HK HKr) as H. cbv zeta in H.
  unfold binary_round_aux.
  destruct (shr_fexp 53 1024 m e l) as [mrs1 e1]. cbn [fst snd] in H.
  destruct H as (Hm0 & He1 & HeK & Hnorm).
  apply finite_below_mono with (e1 + 54); [lia|].
  apply round_finish; assumption.
Qed.

(** shifting left *)

Lemma iter_xO_value d : forall m, Zpos (Pos.iter xO m d) = Zpos m * 2 ^ Zpos d.
Proof.
  induction d as [| d IH] using Pos.peano_ind; intros m.
  - simpl. lia.
  - rewrite Pos.iter_succ, Pos2Z.inj_xO, IH, Pos2Z.inj_succ, Z.pow_succ_r
      by lia.
    lia.
Qed.

Lemma Zdigits2_mul_pow2 m k :
  0 < m -> 0 <= k -> Zdigits2 (m * 2 ^ k) = Zdigits2 m + k.
Proof.
  intros Hm Hk.
  destruct (Zdigits2_spec m Hm) as [Hlo Hhi].
  pose proof (Zdigits2_pos m Hm) as Hd.
  assert (Hp : 0 < 2 ^ k) by pow2_pos.
  apply Z.le_antisymm.
  - apply Zdigits2_le; [nia | lia |].
    rewrite Z.pow_add_r by lia. nia.
  - apply Zdigits2_ge; [|lia].
    replace (Zdigits2 m + k - 1) with (Zdigits2 m - 1 + k) by lia.
    rewrite Z.pow_add_r by lia. nia.
Qed.

(** [shl_align] keeps the value and lowers the exponent to at most [ex']. *)
Lemma shl_align_value mx ex ex' :
  let r := shl_align mx ex ex' in
  snd r = Z.min ex ex' /\ Zpos (fst r) = Zpos mx * 2 ^ (ex - snd r).
Proof.
  unfold shl_align.
  destruct (ex' - ex) as [| d | d] eqn:E; cbn [fst snd].
  - replace (Z.min ex ex') with ex by lia. rewrite Z.sub_diag. simpl. lia.
  - replace (Z.min ex ex') with ex by lia. rewrite Z.sub_diag. simpl. lia.
  - replace (Z.min ex ex') with ex' by lia. split; [reflexivity|].
    rewrite iter_xO_value. f_equal. f_equal. lia.
Qed.

Lemma binary_round_bound s mx ex K :
  Zpos (digits2_pos mx) + ex <= K -> 0 <= K <= 1023 ->
  PyFloat.finite_below (K + 1) (binary_round 53 1024 s mx ex).
Proof.
  intros HK HKr. unfold binary_round.
  pose proof (shl_align_value mx ex (fexp64 (Zpos (digits2_pos mx) + ex))) as H.
  cbv zeta in H.
  destruct (shl_align mx ex (fexp64 (Zpos (digits2_pos mx) + ex))) as [mz ez].
  cbn [fst snd] in H. destruct H as [Hez Hmz].
  assert (Hd : Zdigits2 (Zpos mz) + ez = Zpos (digits2_pos mx) + ex).
  { rewrite Hmz, Zdigits2_mul_pow2 by lia. cbn [Zdigits2]. lia. }
  apply binary_round_aux_bound; try lia.
  rewrite Hd. lia.
Qed.

Lemma binary_normalize_bound m e K :
  Zdigits2 m + e <= K -> 0 <= K <= 1023 ->
  PyFloat.finite_below (K + 1) (binary_normalize 53 1024 m e false).
Proof.
  intros HK HKr. destruct m as [| p | p]; cbn [binary_normalize].
  - exact I.
  - apply binary_round_bound; assumption.
  - apply binary_round_bound; assumption.
Qed.

(** multiplication *)

Lemma bounded_inv m e :
  bounded 53 1024 m e = true ->
  Zpos (digits2_pos m) <= 53 /\ -1074 <= e <= 971 /\
  (-1074 < e -> Zpos (digits2_pos m) = 53).
Proof.
  unfold bounded, canonical_mantissa. rewrite fexp64_eq.
  intros H. apply andb_prop in H. destruct H as [H1 H2].
  apply Z.eqb_eq in H1. apply Z.leb_le in H2. lia.
Qed.

Lemma Zdigits2_mul a b :
  0 < a -> 0 < b ->
  Zdigits2 a + Zdigits2 b - 1 <= Zdigits2 (a * b) <= Zdigits2 a + Zdigits2 b.
Proof.
  intros Ha Hb.
  destruct (Zdigits2_spec a Ha) as [Halo Hahi].
  destruct (Zdigits2_spec b Hb) as [Hblo Hbhi].
  pose proof (Zdigits2_pos a Ha). pose proof (Zdigits2_pos b Hb).
  assert (0 < 2 ^ (Zdigits2 a - 1)) by pow2_pos.
  assert (0 < 2 ^ (Zdigits2 b - 1)) by pow2_pos.
  split.
  - apply Zdigits2_ge; [|lia].
    replace (Zdigits2 a + Zdigits2 b - 1 - 1)
      with ((Zdigits2 a - 1) + (Zdigits2 b - 1)) by lia.
    rewrite Z.pow_add_r by lia. nia.
  - apply Zdigits2_le; [nia | lia |].
    rewrite Z.pow_add_r by lia. nia.
Qed.

Lemma SFmul_bound x y K1 K2 :
  PyFloat.finite_below K1 x -> PyFloat.finite_below K2 y ->
  0 <= K1 + K2 <= 1023 ->
  PyFloat.finite_below (K1 + K2 + 1) (SFmul 53 1024 x y).
Proof.
  intros Hx Hy HK.
  destruct x as [sx | sx | | sx mx ex]; destruct y as [sy | sy | | sy my ey];
    cbn [PyFloat.finite_below] in Hx, Hy; try contradiction; cbn [SFmul];
    try exact I.
  destruct Hx as [Bx Kx], Hy as [By Ky].
  apply bounded_inv in Bx, By.
  pose proof (Zdigits2_mul (Zpos mx) (Zpos my) ltac:(lia) ltac:(lia)) as Hd.
  cbn [Zdigits2] in Hd. rewrite <- Pos2Z.inj_mul in Hd.
  change (Zpos (digits2_pos (mx * my))) with (Zdigits2 (Zpos (mx * my))) in Hd.
  apply binary_round_aux_bound; try lia.
  rewrite fexp64_eq. lia.
Qed.

Lemma Zdigits2_abs m : Zdigits2 (Z.abs m) = Zdigits2 m.
Proof. destruct m; reflexivity. Qed.

(** The aligned mantissa of a float of magnitude at most [K]. *)
Lemma shl_align_lt m e ez K :
  Zpos (digits2_pos m) + e <= K -> ez <= e ->
  0 < Zpos (fst (shl_align m e ez)) < 2 ^ (K - ez).
Proof.
  intros HK Hez.
  destruct (shl_align_value m e ez) as [E1 E2].
  rewrite E2, E1. replace (Z.min e ez) with ez by lia.
  destruct (digits2_pos_spec m) as [_ Hhi].
  assert (0 < 2 ^ (e - ez)) by pow2_pos.
  split; [lia|].
  apply Z.lt_le_trans with (2 ^ Zpos (digits2_pos m) * 2 ^ (e - ez)); [nia|].
  rewrite <- Z.pow_add_r by lia. apply Z.pow_le_mono_r; lia.
Qed.

Lemma sum_digits a b ez K sa sb :
  0 < a < 2 ^ (K - ez) -> 0 < b < 2 ^ (K - ez) -> 0 <= K - ez ->
  Zdigits2 (cond_Zopp sa a + cond_Zopp sb b) + ez <= K + 1.
Proof.
  intros Ha Hb HK.
  rewrite <- Zdigits2_abs.
  assert (Zdigits2 (Z.abs (cond_Zopp sa a + cond_Zopp sb b)) <= K - ez + 1);
    [|lia].
  apply Zdigits2_le; [lia | lia |].
  rewrite Z.pow_add_r by lia. change (2 ^ 1) with 2.
  destruct sa, sb; cbn [cond_Zopp]; lia.
Qed.

Lemma SFadd_bound x y K :
  PyFloat.finite_below K x -> PyFloat.finite_below K y -> 0 <= K + 1 <= 1023 ->
  PyFloat.finite_below (K + 2) (SFadd 53 1024 x y).
Proof.
  intros Hx Hy HK.
  destruct x as [sx | sx | | sx mx ex]; destruct y as [sy | sy | | sy my ey];
    cbn [PyFloat.finite_below] in Hx, Hy; try contradiction; cbn [SFadd].
  - destruct sx, sy; exact I.
  - cbn [PyFloat.finite_below]. intuition lia.
  - cbn [PyFloat.finite_below]. intuition lia.
  - destruct Hx as [Bx Kx], Hy as [By Ky].
    replace (K + 2) with (K + 1 + 1) by lia.
    apply binary_normalize_bound; [|lia].
    pose proof (shl_align_lt mx ex (Z.min ex ey) K Kx ltac:(lia)).
    pose proof (shl_align_lt my ey (Z.min ex ey) K Ky ltac:(lia)).
    apply sum_digits; try assumption. lia.
Qed.

Lemma cond_Zopp_negb s a : cond_Zopp (negb s) a = - cond_Zopp s a.
Proof. destruct s; simpl; lia. Qed.

Lemma SFsub_bound x y K :
  PyFloat.finite_below K x -> PyFloat.finite_below K y -> 0 <= K + 1 <= 1023 ->
  PyFloat.finite_below (K + 2) (SFsub 53 1024 x y).
Proof.
  intros Hx Hy HK.
  destruct x as [sx | sx | | sx mx ex]; destruct y as [sy | sy | | sy my ey];
    cbn [PyFloat.finite_below] in Hx, Hy; try contradiction; cbn [SFsub].
  - destruct sx, sy; exact I.
  - cbn [PyFloat.finite_below]. intuition lia.
  - cbn [PyFloat.finite_below]. intuition lia.
  - destruct Hx as [Bx Kx], Hy as [By Ky].
    replace (K + 2) with (K + 1 + 1) by lia.
    apply binary_normalize_bound; [|lia].
    pose proof (shl_align_lt mx ex (Z.min ex ey) K Kx ltac:(lia)).
    pose proof (shl_align_lt my ey (Z.min ex ey) K Ky ltac:(lia)).
    rewrite <- Z.add_opp_r, <- cond_Zopp_negb.
    apply sum_digits; try assumption. lia.
Qed.

(** comparison with [1.0] *)

Lemma compare_cont_le m1 m2 :
  Pos.compare_cont Eq m1 m2 <> Gt -> Zpos m1 <= Zpos m2.
Proof.
  change (Pos.compare_cont Eq m1 m2) with (Pos.compare m1 m2).
  intros H. apply Pos.compare_le_iff in H. apply Pos2Z.pos_le_pos. exact H.
Qed.

Lemma unit_interval_bound a :
  valid_binary 53 1024 a = true ->
  SFleb (S754_zero false) a = true -> SFleb a PyFloat.one = true ->
  PyFloat.finite_below 1 a.
Proof.
  intros Hv H0 H1.
  destruct a as [s | s | | s m e]; cbn [PyFloat.finite_below]; try exact I.
  - destruct s; discriminate.
  - discriminate.
  - cbn [valid_binary] in Hv. split; [assumption|].
    apply bounded_inv in Hv.
    unfold SFleb, SFcompare, PyFloat.one in H0, H1.
    destruct s; [discriminate|].
    destruct (Z.compare_spec e (-52)) as [E | E | E].
    + subst e. assert (Hle : Zpos m <= 4503599627370496).
      { apply compare_cont_le. intros C. rewrite C in H1. discriminate. }
      assert (Zdigits2 (Zpos m) <= 53).
      { apply Zdigits2_le; lia. }
      cbn [Zdigits2] in H. lia.
    + lia.
    + discriminate.
Qed.

(** integers *)

Lemma to_int_magnitude m e K :
  Zpos (digits2_pos m) + e <= K -> 0 <= K ->
  0 <= Z.shiftl (Zpos m) e < 2 ^ K.
Proof.
  intros HK HK0.
  destruct (digits2_pos_spec m) as [_ Hhi].
  destruct (Z_le_gt_dec 0 e) as [He | He].
  - rewrite Z.shiftl_mul_pow2 by lia.
    assert (0 < 2 ^ e) by pow2_pos.
    split; [lia|].
    apply Z.lt_le_trans with (2 ^ Zpos (digits2_pos m) * 2 ^ e); [nia|].
    rewrite <- Z.pow_add_r by lia. apply Z.pow_le_mono_r; lia.
  - rewrite Z.shiftl_div_pow2 by lia.
    assert (0 < 2 ^ (- e)) by pow2_pos.
    split; [apply Z.div_pos; lia|].
    apply Z.div_lt_upper_bound; [assumption|].
    apply Z.lt_le_trans with (2 ^ Zpos (digits2_pos m)); [assumption|].
    rewrite <- Z.pow_add_r by lia. apply Z.pow_le_mono_r; lia.
Qed.

(** division of two integers *)

Lemma SFdiv_core_int p q :
  0 < p -> 0 < q ->
  let s := - Z.min (fexp64 (Zdigits2 p - Zdigits2 q)) 0 in
  SFdiv_core_binary 53 1024 p 0 q 0 =
  (p * 2 ^ s / q, - s, new_location q ((p * 2 ^ s) mod q)).
Proof.
  intros Hp Hq s. unfold SFdiv_core_binary.
  rewrite !Z.add_0_r. change (0 - 0) with 0.
  replace (0 - Z.min (fexp64 (Zdigits2 p - Zdigits2 q)) 0) with s
    by reflexivity.
  replace (Z.min (fexp64 (Zdigits2 p - Zdigits2 q)) 0) with (- s)
    by (unfold s; lia).
  assert (Hs : 0 <= s) by (unfold s; lia).
  assert (Em : match s with
               | Z0 => p
               | Zpos _ => Z.shiftl p s
               | Zneg _ => 0
               end = p * 2 ^ s).
  { destruct s as [| t | t] eqn:Es; [simpl; lia | | lia].
    rewrite Z.shiftl_mul_pow2 by lia. reflexivity. }
  rewrite Em. unfold Z.div, Z.modulo.
  destruct (Z.div_eucl (p * 2 ^ s) q) as [a b]. reflexivity.
Qed.

Lemma SFdiv_int_bound sp sq p q K :
  Zpos p < 2 ^ K * Zpos q -> 0 <= K <= 1023 ->
  PyFloat.finite_below (K + 1)
    (SFdiv 53 1024 (S754_finite sp p 0) (S754_finite sq q 0)).
Proof.
  intros Hlt HK. cbn [SFdiv].
  rewrite SFdiv_core_int by lia.
  set (d1 := Zdigits2 (Zpos p)). set (d2 := Zdigits2 (Zpos q)).
  set (s := - Z.min (fexp64 (d1 - d2)) 0).
  assert (Hs : 0 <= s) by (unfold s; lia).
  assert (Hps : 0 < 2 ^ s) by pow2_pos.
  destruct (Zdigits2_spec (Zpos p) ltac:(lia)) as [Hplo Hphi].
  destruct (Zdigits2_spec (Zpos q) ltac:(lia)) as [Hqlo Hqhi].
  fold d1 in Hplo, Hphi. fold d2 in Hqlo, Hqhi.
  assert (Hd1 : 0 < d1) by (apply Zdigits2_pos; lia).
  assert (Hd2 : 0 < d2) by (apply Zdigits2_pos; lia).
  set (mz := Zpos p * 2 ^ s / Zpos q).
  assert (Hmz : 0 <= mz) by (apply Z.div_pos; lia).
  assert (Hup : Zdigits2 mz <= K + s).
  { apply Zdigits2_le; [assumption | lia |].
    apply Z.div_lt_upper_bound; [lia|].
    rewrite Z.pow_add_r by lia. nia. }
  assert (Hlow : 1 <= d1 + s - d2 -> d1 + s - d2 <= Zdigits2 mz).
  { intros Hge. apply Zdigits2_ge; [|assumption].
    apply Z.div_le_lower_bound; [lia|].
    apply Z.le_trans with (2 ^ d2 * 2 ^ (d1 + s - d2 - 1)).
    - apply Z.mul_le_mono_nonneg_r; [apply Z.pow_nonneg; lia | lia].
    - rewrite <- Z.pow_add_r by lia.
      replace (d2 + (d1 + s - d2 - 1)) with ((d1 - 1) + s) by lia.
      rewrite Z.pow_add_r by lia.
      apply Z.mul_le_mono_nonneg_r; lia. }
  apply binary_round_aux_bound; try lia.
  rewrite fexp64_eq. unfold s in *. rewrite fexp64_eq in *. lia.
Qed.

(** exact results *)

Lemma shr_1_even j :
  0 <= j ->
  shr_1 {| shr_m := 2 * j; shr_r := false; shr_s := false |} =
  {| shr_m := j; shr_r := false; shr_s := false |}.
Proof.
  intros Hj. destruct j as [| p | p]; try lia; reflexivity.
Qed.

Lemma iter_pos_shr_1_exact n : forall k,
  0 <= k ->
  iter_pos shr_1 n
    {| shr_m := k * 2 ^ Zpos n; shr_r := false; shr_s := false |} =
  {| shr_m := k; shr_r := false; shr_s := false |}.
Proof.
  induction n as [n IH | n IH |]; intros k Hk; cbn [iter_pos].
  - assert (E : k * 2 ^ Zpos n~1 = 2 * (k * 2 ^ Zpos n * 2 ^ Zpos n)).
    { assert (E : 2 ^ Zpos n~1 = 2 * 2 ^ Zpos n * 2 ^ Zpos n).
      { rewrite <- Z.mul_assoc, <- Z.pow_add_r, <- Z.pow_succ_r by lia.
        f_equal; lia. }
      rewrite E. lia. }
    assert (0 < 2 ^ Zpos n) by pow2_pos.
    rewrite E, shr_1_even by nia. rewrite IH by nia. apply IH; assumption.
  - assert (E : k * 2 ^ Zpos n~0 = k * 2 ^ Zpos n * 2 ^ Zpos n).
    { assert (E : 2 ^ Zpos n~0 = 2 ^ Zpos n * 2 ^ Zpos n).
      { rewrite <- Z.pow_add_r by lia. f_equal; lia. }
      rewrite E. lia. }
    assert (0 < 2 ^ Zpos n) by pow2_pos.
    rewrite E. rewrite IH by nia. apply IH; assumption.
  - change (2 ^ 1) with 2. rewrite Z.mul_comm. apply shr_1_even; assumption.
Qed.

Lemma shr_exact k n e :
  0 <= k -> 0 <= n ->
  shr (shr_record_of_loc (k * 2 ^ n) loc_Exact) e n =
  ({| shr_m := k; shr_r := false; shr_s := false |}, e + n).
Proof.
  intros Hk Hn. destruct n as [| p | p]; try lia; cbn [shr shr_record_of_loc].
  - rewrite Z.pow_0_r, Z.mul_1_r, Z.add_0_r. reflexivity.
  - rewrite iter_pos_shr_1_exact by assumption. reflexivity.
Qed.

(** Rounding a value that fits in 53 bits returns it unchanged. *)
Lemma binary_round_aux_exact sgn k n e :
  2 ^ 52 <= k < 2 ^ 53 -> 0 <= n -> -1074 <= e + n <= 971 ->
  binary_round_aux 53 1024 sgn (k * 2 ^ n) e loc_Exact =
  S754_finite sgn (Z.to_pos k) (e + n).
Proof.
  intros Hk Hn He.
  assert (Hdk : Zdigits2 k = 53).
  { apply Z.le_antisymm; [apply Zdigits2_le; lia | apply Zdigits2_ge; lia]. }
  unfold binary_round_aux, shr_fexp.
  rewrite Zdigits2_mul_pow2 by lia. rewrite Hdk, fexp64_eq.
  replace (Z.max (53 + n + e - 53) (-1074) - e) with n by lia.
  rewrite shr_exact by lia.
  cbn [shr_m loc_of_shr_record round_nearest_even].
  rewrite Hdk, fexp64_eq. rewrite shr_nonpos by lia.
  cbn [shr_record_of_loc shr_m].
  destruct k as [| p | p]; try lia.
  replace (e + n <=? 1024 - 53) with true by (symmetry; apply Z.leb_le; lia).
  reflexivity.
Qed.

(** [c * a / a] is computed exactly when [c] fits in 53 bits. *)
Lemma SFdiv_int_exact sc sa c a :
  Zpos c < 2 ^ 53 ->
  exists m e,
    SFdiv 53 1024 (S754_finite sc (c * a) 0) (S754_finite sa a 0) =
    S754_finite (xorb sc sa) m e /\
    Z.shiftl (Zpos m) e = Zpos c.
Proof.
  intros Hc. cbn [SFdiv]. rewrite SFdiv_core_int by lia.
  assert (Hdc : 1 <= Zdigits2 (Zpos c) <= 53).
  { pose proof (Zdigits2_pos (Zpos c) ltac:(lia)).
    split; [lia | apply Zdigits2_le; lia]. }
  assert (Hd : Zdigits2 (Zpos c) + Zdigits2 (Zpos a) - 1
               <= Zdigits2 (Zpos (c * a))
               <= Zdigits2 (Zpos c) + Zdigits2 (Zpos a)).
  { rewrite Pos2Z.inj_mul. apply Zdigits2_mul; lia. }
  destruct (Zdigits2_spec (Zpos c) ltac:(lia)) as [Hclo Hchi].
  remember (Zdigits2 (Zpos c)) as dc eqn:Edc.
  remember (Zdigits2 (Zpos (c * a)) - Zdigits2 (Zpos a)) as dd eqn:Edd.
  assert (Hdd : dc - 1 <= dd <= dc) by lia.
  remember (- Z.min (fexp64 dd) 0) as s eqn:Es0.
  assert (Es : s = 53 - dd) by (rewrite Es0, fexp64_eq; lia).
  clear Es0 Edd Hd Edc.
  remember (53 - dc) as t eqn:Et.
  assert (Hq : Zpos (c * a) * 2 ^ s / Zpos a = Zpos c * 2 ^ s).
  { rewrite Pos2Z.inj_mul.
    replace (Zpos c * Zpos a * 2 ^ s) with (Zpos c * 2 ^ s * Zpos a) by lia.
    apply Z.div_mul. lia. }
  assert (Hr : (Zpos (c * a) * 2 ^ s) mod Zpos a = 0).
  { rewrite Pos2Z.inj_mul.
    replace (Zpos c * Zpos a * 2 ^ s) with (Zpos c * 2 ^ s * Zpos a) by lia.
    apply Z.mod_mul. lia. }
  rewrite Hq, Hr.
  assert (El : new_location (Zpos a) 0 = loc_Exact).
  { unfold new_location. destruct (Z.even (Zpos a)); reflexivity. }
  rewrite El.
  assert (Ek : Zpos c * 2 ^ s = (Zpos c * 2 ^ t) * 2 ^ (s - t)).
  { rewrite <- Z.mul_assoc, <- Z.pow_add_r by lia.
    do 2 f_equal. lia. }
  assert (Hk : 2 ^ 52 <= Zpos c * 2 ^ t < 2 ^ 53).
  { assert (0 < 2 ^ t) by pow2_pos.
    assert (E52 : 2 ^ 52 = 2 ^ (dc - 1) * 2 ^ t).
    { rewrite <- Z.pow_add_r by lia. f_equal. lia. }
    assert (E53 : 2 ^ 53 = 2 ^ dc * 2 ^ t).
    { rewrite <- Z.pow_add_r by lia. f_equal. lia. }
    rewrite E52, E53. split.
    - apply Z.mul_le_mono_nonneg_r; lia.
    - apply Z.mul_lt_mono_pos_r; lia. }
  rewrite Ek, binary_round_aux_exact by lia.
  exists (Z.to_pos (Zpos c * 2 ^ t)), (- s + (s - t)). split; [reflexivity|].
  rewrite Z2Pos.id by lia.
  replace (- s + (s - t)) with (- t) by lia.
  destruct (Z.eq_dec t 0) as [-> | Hne].
  - simpl. lia.
  - rewrite Z.shiftl_div_pow2 by lia.
    replace (- - t) with t by lia.
    apply Z.div_mul. apply Z.pow_nonzero; lia.
Qed.

(** ** Exact values and rounding errors *)

Lemma Q2pow_pos e : (0 < 2 ^ e)%Q.
Proof. apply Qpower_0_lt. reflexivity. Qed.

Lemma Q2pow_add a b : (2 ^ (a + b) == 2 ^ a * 2 ^ b)%Q.
Proof. apply Qpower_plus. discriminate. Qed.

Lemma Q2pow_inject n : 0 <= n -> (inject_Z (2 ^ n) == 2 ^ n)%Q.
Proof. intros Hn. apply (Zpower_Qpower 2 n Hn). Qed.

Lemma Q2pow_le a b : a <= b -> (2 ^ a <= 2 ^ b)%Q.
Proof.
  intros Hab. apply Qpower_le_compat_l; [assumption|]. discriminate.
Qed.

(** [a * 2^n] at exponent [e] is [a] at exponent [e + n]. *)
Lemma Q2pow_shift a e n :
  0 <= n -> (inject_Z (a * 2 ^ n) * 2 ^ e == inject_Z a * 2 ^ (e + n))%Q.
Proof.
  intros Hn. rewrite inject_Z_mult, Q2pow_inject, Q2pow_add by assumption.
  ring.
Qed.

(** The result of the rounding and the second shift, case by case. *)
Lemma round_finish_cases s m0 e1 l :
  0 <= m0 < 2 ^ 53 -> -1074 <= e1 <= 970 ->
  (-1074 < e1 -> 2 ^ 52 <= m0) ->
  let r :=
    (let '(mrs, e2) :=
       shr_fexp 53 1024 (round_nearest_even m0 l) e1 loc_Exact in
     match shr_m mrs with
     | Z0 => S754_zero s
     | Zpos m => if e2 <=? 1024 - 53 then S754_finite s m e2
                 else S754_infinity s
     | Zneg _ => S754_nan
     end) in
  (round_nearest_even m0 l = 0 /\ r = S754_zero s) \/
  (exists m' e',
     r = S754_finite s m' e' /\ bounded 53 1024 m' e' = true /\
     e1 <= e' <= e1 + 1 /\
     Zpos m' * 2 ^ (e' - e1) = round_nearest_even m0 l).
Proof.
  intros Hm0 He1 Hnorm. cbv zeta.
  set (m1 := round_nearest_even m0 l).
  assert (Hm1 : m0 <= m1 <= m0 + 1)
    by (destruct (round_nearest_even_cases m0 l); unfold m1; lia).
  clearbody m1.
  unfold shr_fexp. rewrite fexp64_eq.
  destruct (Z_lt_le_dec m1 (2 ^ 53)) as [Hsmall | Hbig].
  - assert (Hd1 : Zdigits2 m1 <= 53)
      by (apply Zdigits2_le; [lia | lia | assumption]).
    rewrite shr_nonpos by lia. cbn [shr_record_of_loc shr_m].
    destruct m1 as [| p | p] eqn:Ep; [left; split; reflexivity | | lia].
    right. exists p, e1.
    replace (e1 <=? 1024 - 53) with true by (symmetry; apply Z.leb_le; lia).
    cbn [Zdigits2] in Hd1.
    split; [reflexivity|]. split; [|split; [lia|]].
    + unfold bounded, canonical_mantissa. rewrite fexp64_eq.
      apply andb_true_intro; split; [apply Z.eqb_eq | apply Z.leb_le; lia].
      destruct (Z.eq_dec e1 (-1074)) as [-> | Hne]; [lia|].
      assert (53 <= Zdigits2 (Zpos p)).
      { apply Zdigits2_ge; [|lia]. change (53 - 1) with 52. lia. }
      cbn [Zdigits2] in H. lia.
    + rewrite Z.sub_diag. change (2 ^ 0) with 1. lia.
  - assert (Em1 : m1 = 2 ^ 53) by lia.
    rewrite Em1. rewrite (Zdigits2_pow2 53) by lia.
    replace (Z.max (53 + 1 + e1 - 53) (-1074) - e1) with 1 by lia.
    cbn -[Z.leb Z.sub Z.add Z.pow Z.mul].
    replace (e1 + 1 <=? 1024 - 53) with true by (symmetry; apply Z.leb_le; lia).
    right. exists 4503599627370496%positive, (e1 + 1).
    split; [reflexivity|]. split; [|split; [lia|]].
    + unfold bounded, canonical_mantissa. rewrite fexp64_eq.
      apply andb_true_intro; split; [apply Z.eqb_eq | apply Z.leb_le; lia].
      change (digits2_pos 4503599627370496) with 53%positive. lia.
    + replace (e1 + 1 - e1) with 1 by lia. reflexivity.
Qed.

Lemma round_finish_value m0 e1 l :
  0 <= m0 < 2 ^ 53 -> -1074 <= e1 <= 970 ->
  (-1074 < e1 -> 2 ^ 52 <= m0) ->
  let r :=
    (let '(mrs, e2) :=
       shr_fexp 53 1024 (round_nearest_even m0 l) e1 loc_Exact in
     match shr_m mrs with
     | Z0 => S754_zero false
     | Zpos m => if e2 <=? 1024 - 53 then S754_finite false m e2
                 else S754_infinity false
     | Zneg _ => S754_nan
     end) in
  PyFloat.nonneg r /\
  (PyFloat.F2Q r == inject_Z (round_nearest_even m0 l) * 2 ^ e1)%Q.
Proof.
  intros Hm0 He1 Hnorm.
  pose proof (round_finish_cases false m0 e1 l Hm0 He1 Hnorm) as Hcases.
  cbv zeta in *.
  destruct Hcases as [[E0 ->] | (m' & e' & -> & _ & He' & Em')].
  - rewrite E0. split; [exact I | cbn [PyFloat.F2Q]; ring].
  - split; [exact I|]. cbn [PyFloat.F2Q cond_Zopp]. rewrite <- Em'.
    rewrite Q2pow_shift by lia.
    replace (e1 + (e' - e1)) with e' by lia. reflexivity.
Qed.

(** Rounding to nearest moves a positive value by at most one unit in the
    last place. *)
Lemma binary_round_aux_value m e K :
  0 < m -> e <= fexp64 (Zdigits2 m + e) -> Zdigits2 m + e <= K ->
  0 <= K <= 1023 ->
  let r := binary_round_aux 53 1024 false m e loc_Exact in
  PyFloat.nonneg r /\
  (inject_Z m * 2 ^ e - 2 ^ (K - 53) <= PyFloat.F2Q r
   <= inject_Z m * 2 ^ e + 2 ^ (K - 53))%Q.
Proof.
  intros Hm H1 HK HKr r. subst r.
  pose proof (shr_fexp_first m e loc_Exact K ltac:(lia) H1 HK HKr) as Hfirst.
  cbv zeta in Hfirst.
  assert (Hn : 0 <= fexp64 (Zdigits2 m + e) - e) by lia.
  pose proof (shr_m_spec m loc_Exact e _ ltac:(lia) Hn) as Hshr.
  unfold binary_round_aux.
  fold (shr_fexp 53 1024 m e loc_Exact) in Hshr.
  destruct (shr_fexp 53 1024 m e loc_Exact) as [mrs1 e1].
  cbn [fst snd] in Hfirst, Hshr.
  destruct Hfirst as (Hm0 & He1 & HeK & Hnorm). destruct Hshr as [Em0 Ee1].
  pose proof (round_finish_value (shr_m mrs1) e1 (loc_of_shr_record mrs1)
                Hm0 He1 Hnorm) as Hfin.
  cbv zeta in Hfin. destruct Hfin as [Hnn Hval]. split; [exact Hnn|].
  rewrite Hval.
  pose proof (round_nearest_even_cases (shr_m mrs1) (loc_of_shr_record mrs1))
    as Hrne.
  remember (round_nearest_even (shr_m mrs1) (loc_of_shr_record mrs1)) as m1.
  remember (fexp64 (Zdigits2 m + e) - e) as n.
  assert (Hp : 0 < 2 ^ n) by pow2_pos.
  assert (Hlo : 2 ^ n * (m / 2 ^ n) <= m) by (apply Z.mul_div_le; lia).
  assert (Hhi : m < 2 ^ n * Z.succ (m / 2 ^ n))
    by (apply Z.mul_succ_div_gt; lia).
  assert (Hz : m - 2 ^ n <= m1 * 2 ^ n <= m + 2 ^ n).
  { rewrite Em0 in Hrne. destruct Hrne as [-> | ->]; nia. }
  assert (Ee : e1 = e + n) by lia.
  rewrite Ee, <- Q2pow_shift by lia.
  assert (Hu : (2 ^ (e + n) <= 2 ^ (K - 53))%Q) by (apply Q2pow_le; lia).
  rewrite Q2pow_add in Hu. rewrite <- (Q2pow_inject n) in Hu by lia.
  pose proof (Q2pow_pos e) as Hpe.
  destruct Hz as [Hz1 Hz2].
  rewrite Zle_Qle in Hz1, Hz2.
  unfold Z.sub in Hz1. rewrite inject_Z_plus, inject_Z_opp in Hz1.
  rewrite inject_Z_plus in Hz2.
  remember (inject_Z (m1 * 2 ^ n)) as a.
  remember (inject_Z m) as b. remember (inject_Z (2 ^ n)) as c.
  remember (2 ^ e)%Q as t. remember (2 ^ (K - 53))%Q as u.
  assert (H1' : ((b + - c) * t <= a * t)%Q)
    by (apply Qmult_le_compat_r; [assumption | lra]).
  assert (H2' : (a * t <= (b + c) * t)%Q)
    by (apply Qmult_le_compat_r; [assumption | lra]).
  split; lra.
Qed.

Lemma binary_round_value p e K :
  Zpos (digits2_pos p) + e <= K -> 0 <= K <= 1023 ->
  let r := binary_round 53 1024 false p e in
  PyFloat.nonneg r /\
  (inject_Z (Zpos p) * 2 ^ e - 2 ^ (K - 53) <= PyFloat.F2Q r
   <= inject_Z (Zpos p) * 2 ^ e + 2 ^ (K - 53))%Q.
Proof.
  intros HK HKr r. subst r. unfold binary_round.
  pose proof (shl_align_value p e (fexp64 (Zpos (digits2_pos p) + e))) as H.
  cbv zeta in H.
  destruct (shl_align p e (fexp64 (Zpos (digits2_pos p) + e))) as [mz ez].
  cbn [fst snd] in H. destruct H as [Hez Hmz].
  assert (Hd : Zdigits2 (Zpos mz) + ez = Zpos (digits2_pos p) + e).
  { rewrite Hmz, Zdigits2_mul_pow2 by lia. cbn [Zdigits2]. lia. }
  assert (Hv : (inject_Z (Zpos mz) * 2 ^ ez == inject_Z (Zpos p) * 2 ^ e)%Q).
  { rewrite Hmz, Q2pow_shift by lia.
    replace (ez + (e - ez)) with e by lia. reflexivity. }
  rewrite <- Hv.
  apply binary_round_aux_value; try lia.
  rewrite Hd. lia.
Qed.

(** The product of two non-negative doubles, within one unit in the last
    place. *)
Lemma SFmul_value x y K1 K2 :
  PyFloat.nonneg x -> PyFloat.nonneg y ->
  PyFloat.finite_below K1 x -> PyFloat.finite_below K2 y ->
  0 <= K1 + K2 <= 1023 ->
  PyFloat.nonneg (SFmul 53 1024 x y) /\
  (PyFloat.F2Q x * PyFloat.F2Q y - 2 ^ (K1 + K2 - 53)
   <= PyFloat.F2Q (SFmul 53 1024 x y)
   <= PyFloat.F2Q x * PyFloat.F2Q y + 2 ^ (K1 + K2 - 53))%Q.
Proof.
  intros Nx Ny Hx Hy HK.
  pose proof (Q2pow_pos (K1 + K2 - 53)) as Hu.
  destruct x as [sx | sx | | [|] mx ex]; destruct y as [sy | sy | | [|] my ey];
    cbn [PyFloat.nonneg] in Nx, Ny; try contradiction; cbn [SFmul xorb].
  1-3: split; [exact I | cbn [PyFloat.F2Q]; split; lra].
  cbn [PyFloat.finite_below] in Hx, Hy.
  destruct Hx as [Bx Kx], Hy as [By Ky].
  apply bounded_inv in Bx, By.
  pose proof (Zdigits2_mul (Zpos mx) (Zpos my) ltac:(lia) ltac:(lia)) as Hd.
  cbn [Zdigits2] in Hd. rewrite <- Pos2Z.inj_mul in Hd.
  change (Zpos (digits2_pos (mx * my))) with (Zdigits2 (Zpos (mx * my))) in Hd.
  assert (Hv : (PyFloat.F2Q (S754_finite false mx ex)
                * PyFloat.F2Q (S754_finite false my ey)
                == inject_Z (Zpos (mx * my)) * 2 ^ (ex + ey))%Q).
  { cbn [PyFloat.F2Q cond_Zopp].
    rewrite Pos2Z.inj_mul, inject_Z_mult, Q2pow_add. ring. }
  rewrite Hv.
  apply binary_round_aux_value; try lia.
  rewrite fexp64_eq. lia.
Qed.

(** The sum of two non-negative doubles, within one unit in the last
    place. *)
Lemma SFadd_value x y K :
  PyFloat.nonneg x -> PyFloat.nonneg y ->
  PyFloat.finite_below K x -> PyFloat.finite_below K y ->
  0 <= K + 1 <= 1023 ->
  PyFloat.nonneg (SFadd 53 1024 x y) /\
  (PyFloat.F2Q x + PyFloat.F2Q y - 2 ^ (K + 1 - 53)
   <= PyFloat.F2Q (SFadd 53 1024 x y)
   <= PyFloat.F2Q x + PyFloat.F2Q y + 2 ^ (K + 1 - 53))%Q.
Proof.
  intros Nx Ny Hx Hy HK.
  pose proof (Q2pow_pos (K + 1 - 53)) as Hu.
  destruct x as [sx | sx | | [|] mx ex]; destruct y as [sy | sy | | [|] my ey];
    cbn [PyFloat.nonneg] in Nx, Ny; try contradiction; cbn [SFadd].
  - destruct sx, sy; split; try exact I; cbn [PyFloat.F2Q]; split; lra.
  - split; [exact I|]. cbn [PyFloat.F2Q]. split; lra.
  - split; [exact I|]. cbn [PyFloat.F2Q]. split; lra.
  - cbn [PyFloat.finite_below] in Hx, Hy.
    destruct Hx as [Bx Kx], Hy as [By Ky].
    set (ez := Z.min ex ey).
    pose proof (shl_align_lt mx ex ez K Kx ltac:(unfold ez; lia)) as Hax.
    pose proof (shl_align_lt my ey ez K Ky ltac:(unfold ez; lia)) as Hay.
    destruct (shl_align_value mx ex ez) as [Ex1 Ex2].
    destruct (shl_align_value my ey ez) as [Ey1 Ey2].
    replace (Z.min ex ez) with ez in Ex1 by (unfold ez; lia).
    replace (Z.min ey ez) with ez in Ey1 by (unfold ez; lia).
    rewrite Ex1 in Ex2. rewrite Ey1 in Ey2.
    cbn [cond_Zopp].
    remember (fst (shl_align mx ex ez)) as ax.
    remember (fst (shl_align my ey ez)) as ay.
    assert (Hd : Zpos (digits2_pos (ax + ay)) + ez <= K + 1).
    { pose proof (sum_digits (Zpos ax) (Zpos ay) ez K false false Hax Hay
                    ltac:(cbn in Kx; unfold ez; lia)) as Hs.
      cbn [cond_Zopp Z.add Zdigits2] in Hs. exact Hs. }
    assert (Hv : (PyFloat.F2Q (S754_finite false mx ex)
                  + PyFloat.F2Q (S754_finite false my ey)
                  == inject_Z (Zpos (ax + ay)) * 2 ^ ez)%Q).
    { assert (Hx' : (inject_Z (Zpos ax) * 2 ^ ez
                     == inject_Z (Zpos mx) * 2 ^ ex)%Q).
      { rewrite Ex2, Q2pow_shift by (unfold ez; lia).
        replace (ez + (ex - ez)) with ex by lia. reflexivity. }
      assert (Hy' : (inject_Z (Zpos ay) * 2 ^ ez
                     == inject_Z (Zpos my) * 2 ^ ey)%Q).
      { rewrite Ey2, Q2pow_shift by (unfold ez; lia).
        replace (ez + (ey - ez)) with ey by lia. reflexivity. }
      cbn [PyFloat.F2Q cond_Zopp].
      rewrite Pos2Z.inj_add, inject_Z_plus, <- Hx', <- Hy'. ring. }
    rewrite Hv. cbn [Z.add binary_normalize].
    apply binary_round_value; [exact Hd | lia].
Qed.

(** Integers below [2^53] convert exactly. *)
Lemma of_int_exact p :
  0 <= p < 2 ^ 53 ->
  exists f, PyFloat.of_int p = Ok f /\ PyFloat.nonneg f /\
            (PyFloat.F2Q f == inject_Z p)%Q.
Proof.
  intros Hp. unfold PyFloat.of_int.
  destruct p as [| p' | p']; [| | lia].
  { exists (S754_zero false). repeat split. }
  cbn [binary_normalize]. unfold binary_round.
  assert (Hdp : Zpos (digits2_pos p') <= 53).
  { change (Zpos (digits2_pos p')) with (Zdigits2 (Zpos p')).
    apply Zdigits2_le; lia. }
  pose proof (shl_align_value p' 0 (fexp64 (Zpos (digits2_pos p') + 0))) as H.
  cbv zeta in H.
  destruct (shl_align p' 0 (fexp64 (Zpos (digits2_pos p') + 0))) as [mz ez].
  cbn [fst snd] in H. destruct H as [Hez Hmz].
  rewrite fexp64_eq in Hez.
  assert (Ez : ez = Zpos (digits2_pos p') - 53) by lia.
  destruct (digits2_pos_spec p') as [Hlo Hhi].
  assert (Hk : 2 ^ 52 <= Zpos mz < 2 ^ 53).
  { rewrite Hmz.
    assert (0 < 2 ^ (0 - ez)) by pow2_pos.
    assert (E52 : 2 ^ 52 = 2 ^ (Zpos (digits2_pos p') - 1) * 2 ^ (0 - ez)).
    { rewrite <- Z.pow_add_r by lia. f_equal. lia. }
    assert (E53 : 2 ^ 53 = 2 ^ Zpos (digits2_pos p') * 2 ^ (0 - ez)).
    { rewrite <- Z.pow_add_r by lia. f_equal. lia. }
    rewrite E52, E53. split.
    - apply Z.mul_le_mono_nonneg_r; lia.
    - apply Z.mul_lt_mono_pos_r; lia. }
  pose proof (binary_round_aux_exact false (Zpos mz) 0 ez Hk ltac:(lia)
                ltac:(lia)) as Hexact.
  change (2 ^ 0) with 1 in Hexact. rewrite Z.mul_1_r, Z.add_0_r in Hexact.
  rewrite Hexact. cbn [PyFloat.is_infinite Z.to_pos].
  eexists. split; [reflexivity|]. split; [exact I|].
  cbn [PyFloat.F2Q cond_Zopp]. rewrite Hmz, Q2pow_shift by lia.
  replace (ez + (0 - ez)) with 0 by lia. change (2 ^ 0)%Q with 1%Q. ring.
Qed.

(** [int] is the floor of a non-negative double. *)
Lemma to_int_floor f K :
  PyFloat.nonneg f -> PyFloat.finite_below K f ->
  exists z, PyFloat.to_int f = Ok z /\ 0 <= z /\
            (inject_Z z <= PyFloat.F2Q f < inject_Z z + 1)%Q.
Proof.
  intros Nf Hf. destruct f as [s | s | | [|] m e]; cbn in Nf, Hf;
    try contradiction.
  { exists 0. split; [reflexivity|]. split; [lia|].
    cbn [PyFloat.F2Q]. change (inject_Z 0) with 0%Q. split; lra. }
  cbn [PyFloat.to_int cond_Zopp]. eexists. split; [reflexivity|].
  cbn [PyFloat.F2Q cond_Zopp].
  destruct (Z_le_gt_dec 0 e) as [He | He].
  - rewrite Z.shiftl_mul_pow2 by lia.
    assert (0 < 2 ^ e) by pow2_pos.
    split; [lia|].
    rewrite inject_Z_mult, Q2pow_inject by lia. split; lra.
  - rewrite Z.shiftl_div_pow2 by lia.
    assert (Hp : 0 < 2 ^ (- e)) by pow2_pos.
    split; [apply Z.div_pos; lia|].
    assert (Hlo : 2 ^ (- e) * (Zpos m / 2 ^ (- e)) <= Zpos m)
      by (apply Z.mul_div_le; lia).
    assert (Hhi : Zpos m < 2 ^ (- e) * Z.succ (Zpos m / 2 ^ (- e)))
      by (apply Z.mul_succ_div_gt; lia).
    remember (Zpos m / 2 ^ (- e)) as z.
    assert (Ez : (inject_Z z == inject_Z (z * 2 ^ (- e)) * 2 ^ e)%Q).
    { rewrite Q2pow_shift by lia. replace (e + - e) with 0 by lia.
      change (2 ^ 0)%Q with 1%Q. ring. }
    assert (Ez1 : (inject_Z z + 1
                   == inject_Z (Z.succ z * 2 ^ (- e)) * 2 ^ e)%Q).
    { rewrite Q2pow_shift by lia. replace (e + - e) with 0 by lia.
      change (2 ^ 0)%Q with 1%Q. unfold Z.succ. rewrite inject_Z_plus. ring. }
    rewrite Ez1, Ez.
    pose proof (Q2pow_pos e) as Hpe.
    split.
    + apply Qmult_le_compat_r; [|lra]. rewrite <- Zle_Qle. lia.
    + apply Qmult_lt_compat_r; [lra|]. rewrite <- Zlt_Qlt. lia.
Qed.

(** * Python float operations on bounded values *)

Lemma finite_below_not_infinite K f :
  PyFloat.finite_below K f -> PyFloat.is_infinite f = false.
Proof. destruct f; simpl; intros H; try reflexivity; contradiction. Qed.

Lemma of_int_ok z K :
  Z.abs z < 2 ^ K -> 0 <= K <= 1023 ->
  exists f, PyFloat.of_int z = Ok f /\ PyFloat.finite_below (K + 1) f.
Proof.
  intros Hz HK. unfold PyFloat.of_int.
  assert (H : PyFloat.finite_below (K + 1)
                (binary_normalize 53 1024 z 0 false)).
  { apply binary_normalize_bound; [|assumption].
    rewrite Z.add_0_r, <- Zdigits2_abs. apply Zdigits2_le; lia. }
  rewrite (finite_below_not_infinite _ _ H). eauto.
Qed.

Lemma to_int_ok f K :
  PyFloat.finite_below K f -> 0 <= K ->
  exists z, PyFloat.to_int f = Ok z /\ Z.abs z < 2 ^ K.
Proof.
  intros Hf HK. destruct f as [s | s | | s m e]; cbn in Hf; try contradiction.
  - exists 0. split; [reflexivity|]. simpl. apply Z.pow_pos_nonneg; lia.
  - destruct Hf as [_ Hmag].
    pose proof (to_int_magnitude m e K Hmag HK) as Hb.
    eexists. split; [reflexivity|].
    destruct s; cbn [cond_Zopp]; lia.
Qed.

Lemma true_divide_ok p q K :
  q <> 0 -> Z.abs p < 2 ^ K * Z.abs q -> 0 <= K <= 1023 ->
  exists f, PyFloat.true_divide p q = Ok f /\ PyFloat.finite_below (K + 1) f.
Proof.
  intros Hq Hlt HK. unfold PyFloat.true_divide.
  destruct q as [| q' | q'] eqn:Eq; [contradiction | |];
    (destruct p as [| p' | p'] eqn:Ep;
     [eexists; split; [reflexivity | exact I] | |]).
  all: match goal with
       | |- context [SFdiv ?a ?b ?x ?y] =>
         assert (H : PyFloat.finite_below (K + 1) (SFdiv a b x y))
           by (apply SFdiv_int_bound; [simpl in *; lia | assumption])
       end;
       rewrite (finite_below_not_infinite _ _ H); eauto.
Qed.

Lemma one_finite_below : PyFloat.finite_below 1 PyFloat.one.
Proof. split; [reflexivity | simpl; lia]. Qed.

Lemma valid_smoothing_bound a :
  valid_smoothing a = true -> PyFloat.finite_below 1 a.
Proof.
  unfold valid_smoothing. intros H.
  apply andb_prop in H. destruct H as [H H1].
  apply andb_prop in H. destruct H as [Hv H0].
  apply unit_interval_bound; assumption.
Qed.

(** [smooth] raises no exception on bounded operands. *)
Lemma smooth_ok a prev roi K :
  valid_smoothing a = true ->
  Z.abs prev < 2 ^ K -> Z.abs roi < 2 ^ K -> 0 <= K <= 1000 ->
  exists v, smooth a prev roi = Ok v /\ Z.abs v < 2 ^ (K + 7).
Proof.
  intros Ha Hp Hr HK. unfold smooth.
  pose proof (valid_smoothing_bound a Ha) as Ba.
  destruct (of_int_ok prev K Hp ltac:(lia)) as (fp & Ep & Bp).
  destruct (of_int_ok roi K Hr ltac:(lia)) as (fr & Er & Br).
  rewrite Ep, Er. cbn [bind].
  pose proof (SFsub_bound _ _ 1 one_finite_below Ba ltac:(lia)) as Bc.
  pose proof (SFmul_bound _ _ _ _ Bp Bc ltac:(lia)) as B1.
  pose proof (SFmul_bound _ _ _ _ Br Ba ltac:(lia)) as B2.
  apply finite_below_mono with (K' := K + 5) in B1; [|lia].
  apply finite_below_mono with (K' := K + 5) in B2; [|lia].
  pose proof (SFadd_bound _ _ _ B1 B2 ltac:(lia)) as B.
  replace (K + 5 + 2) with (K + 7) in B by lia.
  apply to_int_ok; [exact B | lia].
Qed.

(** * The region of interest *)

Lemma half_bounds a : 0 <= a -> 0 <= a / 2 <= a.
Proof.
  intros Ha. split; [apply Z.div_pos; lia | apply Z.div_le_upper_bound; lia].
Qed.

Lemma pixel_size_spec z : pixel_size z = true -> 0 <= z < 2 ^ 31.
Proof.
  unfold pixel_size. intros H. apply andb_prop in H. destruct H as [H1 H2].
  apply Z.leb_le in H1. apply Z.ltb_lt in H2. lia.
Qed.

Lemma pixel_coord_spec z : pixel_coord z = true -> - 2 ^ 31 <= z < 2 ^ 31.
Proof.
  unfold pixel_coord. intros H. apply andb_prop in H. destruct H as [H1 H2].
  apply Z.leb_le in H1. apply Z.ltb_lt in H2. lia.
Qed.

Lemma valid_box_spec x y w h :
  valid_box (x, y, w, h) = true ->
  (- 2 ^ 31 <= x < 2 ^ 31) /\ (- 2 ^ 31 <= y < 2 ^ 31) /\
  (0 <= w < 2 ^ 31) /\ (0 <= h < 2 ^ 31).
Proof.
  unfold valid_box. intros H.
  apply andb_prop in H. destruct H as [H Hh].
  apply andb_prop in H. destruct H as [H Hw].
  apply andb_prop in H. destruct H as [Hx Hy].
  auto using pixel_size_spec, pixel_coord_spec.
Qed.

Lemma valid_frame_spec f :
  valid_frame f = true -> 0 <= height f < 2 ^ 31 /\ 0 <= width f < 2 ^ 31.
Proof.
  unfold valid_frame. intros H. apply andb_prop in H. destruct H.
  auto using pixel_size_spec.
Qed.

Lemma accumulate_within acc b :
  valid_box b = true -> weighted_within acc ->
  weighted_within (accumulate acc b).
Proof.
  destruct acc as [[tw wx] wy], b as [[[x y] w] h].
  intros Hb (Htw & Hx & Hy). apply valid_box_spec in Hb.
  destruct Hb as (Bx & By & Bw & Bh).
  unfold accumulate, weighted_within.
  assert (Hcx : Z.abs (x + w / 2) <= 2 ^ 32).
  { pose proof (half_bounds w ltac:(lia)).
    change (2 ^ 32) with (2 * 2 ^ 31). lia. }
  assert (Hcy : Z.abs (y + h / 2) <= 2 ^ 32).
  { pose proof (half_bounds h ltac:(lia)).
    change (2 ^ 32) with (2 * 2 ^ 31). lia. }
  assert (Hwt : 0 <= w * h) by nia.
  remember (w * h) as wt.
  remember (x + w / 2) as cx. remember (y + h / 2) as cy.
  remember (2 ^ 32) as C.
  assert (Z.abs (cx * wt) <= C * wt) by (rewrite Z.abs_mul; nia).
  assert (Z.abs (cy * wt) <= C * wt) by (rewrite Z.abs_mul; nia).
  split; [lia|]. split; lia.
Qed.

Lemma fold_accumulate_within bs : forall acc,
  forallb valid_box bs = true -> weighted_within acc ->
  weighted_within (fold_left accumulate bs acc).
Proof.
  induction bs as [| b bs IH]; intros acc Hbs Hacc; simpl in *.
  - assumption.
  - apply andb_prop in Hbs. destruct Hbs as [Hb Hbs].
    apply IH; [assumption|]. apply accumulate_within; assumption.
Qed.

Lemma calculate_region_of_interest_ok motion_boxes frame_shape :
  forallb valid_box motion_boxes = true -> valid_frame frame_shape = true ->
  exists roi_x roi_y roi_w roi_h,
    calculate_region_of_interest motion_boxes frame_shape
      = Ok (roi_x, roi_y, roi_w, roi_h) /\
    Z.abs roi_x < 2 ^ 34 /\ Z.abs roi_y < 2 ^ 34.
Proof.
  intros Hbs Hf. apply valid_frame_spec in Hf. destruct Hf as [Hh Hw].
  assert (Hcenter : exists roi_x roi_y roi_w roi_h,
    Ok (frame_center frame_shape) = Ok (roi_x, roi_y, roi_w, roi_h) /\
    Z.abs roi_x < 2 ^ 34 /\ Z.abs roi_y < 2 ^ 34).
  { unfold frame_center. do 4 eexists. split; [reflexivity|].
    pose proof (half_bounds (width frame_shape) ltac:(lia)).
    pose proof (half_bounds (height frame_shape) ltac:(lia)).
    change (2 ^ 34) with (8 * 2 ^ 31). lia. }
  unfold calculate_region_of_interest.
  destruct motion_boxes as [| b0 bs]; [exact Hcenter|].
  pose proof (fold_accumulate_within (b0 :: bs) (0, 0, 0) Hbs) as Hin.
  destruct (fold_left accumulate (b0 :: bs) (0, 0, 0)) as [[tw wx] wy].
  assert (H0 : weighted_within (0, 0, 0)) by (simpl; lia).
  specialize (Hin H0). destruct Hin as (Htw & Hx & Hy).
  destruct (0 <? tw) eqn:Epos; [|exact Hcenter].
  apply Z.ltb_lt in Epos.
  assert (E33 : 2 ^ 33 = 2 * 2 ^ 32) by reflexivity.
  destruct (true_divide_ok wx tw 33) as (fx & Efx & Bfx); try lia.
  destruct (true_divide_ok wy tw 33) as (fy & Efy & Bfy); try lia.
  destruct (to_int_ok fx (33 + 1) Bfx ltac:(lia)) as (ax & Eax & Bax).
  destruct (to_int_ok fy (33 + 1) Bfy ltac:(lia)) as (ay & Eay & Bay).
  rewrite Efx. cbn [bind]. rewrite Eax. cbn [bind].
  rewrite Efy. cbn [bind]. rewrite Eay. cbn [bind].
  destruct (largest_box b0 bs) as [[[lx ly] lw] lh].
  exists ax, ay, lw, lh. auto.
Qed.

(** Dividing an exact multiple gives the quotient back. *)
Lemma true_divide_exact c a :
  0 < a -> Z.abs c < 2 ^ 53 ->
  exists f, PyFloat.true_divide (c * a) a = Ok f /\ PyFloat.to_int f = Ok c.
Proof.
  intros Ha Hc. unfold PyFloat.true_divide.
  destruct a as [| a' | a']; try lia.
  destruct c as [| c' | c'].
  - eexists. split; reflexivity.
  - cbn [Z.mul Z.abs Z.to_pos Z.ltb Z.compare].
    destruct (SFdiv_int_exact false false c' a' ltac:(lia)) as (m & e & E & V).
    rewrite E. cbn [PyFloat.is_infinite]. eexists. split; [reflexivity|].
    cbn [PyFloat.to_int xorb cond_Zopp]. rewrite V. reflexivity.
  - cbn [Z.mul Z.abs Z.to_pos Z.ltb Z.compare].
    destruct (SFdiv_int_exact true false c' a' ltac:(simpl in Hc; lia))
      as (m & e & E & V).
    rewrite E. cbn [PyFloat.is_infinite]. eexists. split; [reflexivity|].
    cbn [PyFloat.to_int xorb cond_Zopp]. rewrite V. reflexivity.
Qed.

(** C7 (amended): for a single box [(x, y, w, h)] of positive area whose
    centre fits in 53 bits, the region of interest is
    [(x + w // 2, y + h // 2, w, h)]; for a single box without positive area
    it is the centre of the frame with size [(0, 0)]. *)
Theorem single_box_region_of_interest x y w h frame_shape :
  (0 < w * h ->
   Z.abs (x + w / 2) < 2 ^ 53 -> Z.abs (y + h / 2) < 2 ^ 53 ->
   calculate_region_of_interest [(x, y, w, h)] frame_shape
   = Ok (x + w / 2, y + h / 2, w, h)) /\
  (w * h <= 0 ->
   calculate_region_of_interest [(x, y, w, h)] frame_shape
   = Ok (width frame_shape / 2, height frame_shape / 2, 0, 0)).
Proof.
  unfold calculate_region_of_interest.
  cbn [fold_left accumulate]. rewrite !Z.add_0_l. split.
  - intros Harea Hx Hy.
    replace (0 <? w * h) with true by (symmetry; apply Z.ltb_lt; assumption).
    destruct (true_divide_exact (x + w / 2) (w * h) Harea Hx)
      as (fx & Efx & Vx).
    destruct (true_divide_exact (y + h / 2) (w * h) Harea Hy)
      as (fy & Efy & Vy).
    rewrite Efx. cbn [bind]. rewrite Vx. cbn [bind].
    rewrite Efy. cbn [bind]. rewrite Vy. cbn [bind].
    reflexivity.
  - intros Harea.
    replace (0 <? w * h) with false by (symmetry; apply Z.ltb_ge; assumption).
    reflexivity.
Qed.

Lemma single_box_region_of_interest_witness :
  calculate_region_of_interest [(300, 200, 40, 40)] frame_100
  = Ok (300 + 40 / 2, 200 + 40 / 2, 40, 40) /\
  calculate_region_of_interest [(10, 20, 0, 5)] frame_100
  = Ok (width frame_100 / 2, height frame_100 / 2, 0, 0).
Proof.
  split.
  - apply (proj1 (single_box_region_of_interest 300 200 40 40 frame_100));
      vm_compute; reflexivity.
  - apply (proj2 (single_box_region_of_interest 10 20 0 5 frame_100)).
    vm_compute. discriminate.
Defined.

(** C7 (as stated) fails on a single box of zero area: the region of
    interest falls back to the centre of the frame. *)
Lemma single_box_zero_area_counterexample :
  calculate_region_of_interest [(10, 20, 0, 5)] frame_100 = Ok (50, 50, 0, 0)
  /\ (50, 50, 0, 0) <> (10 + 0 / 2, 20 + 5 / 2, 0, 5).
Proof. split; [reflexivity | discriminate]. Qed.

(** * The tracking loop *)

Lemma clamp_in_range lo hi v : lo <= hi -> lo <= clamp lo hi v <= hi.
Proof. unfold clamp. lia. Qed.

Lemma clamp_inverted lo hi v : hi <= lo -> clamp lo hi v = lo.
Proof. unfold clamp. lia. Qed.

Lemma clamp_id lo hi v : lo <= v <= hi -> clamp lo hi v = v.
Proof. unfold clamp. lia. Qed.

Lemma clamp_above lo hi v : lo <= hi -> hi <= v -> clamp lo hi v = hi.
Proof. unfold clamp. lia. Qed.

Lemma clamp_abs lo hi v B :
  Z.abs lo < B -> Z.abs hi < B -> Z.abs (clamp lo hi v) < B.
Proof. unfold clamp. lia. Qed.

Section Loop.

Variable frames : list Frame.
Variables width0 height0 vp_width vp_height : Z.
Variable smoothing_factor : PyFloat.float.

Local Abbreviation step' :=
  (step frames width0 height0 vp_width vp_height smoothing_factor).
Local Abbreviation loop' :=
  (loop frames width0 height0 vp_width vp_height smoothing_factor).

Lemma step_inv i motion_boxes prev p :
  step' i motion_boxes prev = Ok p ->
  exists frame roi_x roi_y roi_w roi_h smooth_x smooth_y,
    nth_error frames i = Some frame /\
    calculate_region_of_interest motion_boxes frame
      = Ok (roi_x, roi_y, roi_w, roi_h) /\
    match i with
    | O => smooth_x = roi_x /\ smooth_y = roi_y
    | S _ => smooth smoothing_factor (fst prev) roi_x = Ok smooth_x /\
             smooth smoothing_factor (snd prev) roi_y = Ok smooth_y
    end /\
    p = (clamp (vp_width / 2) (width0 - vp_width / 2) smooth_x,
         clamp (vp_height / 2) (height0 - vp_height / 2) smooth_y).
Proof.
  unfold step. destruct prev as [prev_x prev_y].
  destruct (nth_error frames i) as [frame|]; [|discriminate].
  destruct (calculate_region_of_interest motion_boxes frame)
    as [[[[roi_x roi_y] roi_w] roi_h] | e] eqn:Eroi; [|discriminate].
  cbn [bind fst snd].
  destruct i as [| i'].
  - cbn [bind]. intros H. injection H as <-.
    exists frame, roi_x, roi_y, roi_w, roi_h, roi_x, roi_y.
    repeat split; auto.
  - destruct (smooth smoothing_factor prev_x roi_x) as [sx | e] eqn:Esx;
      [|discriminate].
    destruct (smooth smoothing_factor prev_y roi_y) as [sy | e] eqn:Esy;
      [|discriminate].
    cbn [bind]. intros H. injection H as <-.
    exists frame, roi_x, roi_y, roi_w, roi_h, sx, sy.
    repeat split; auto.
Qed.

Lemma loop_length motion_results : forall i prev ps,
  loop' i motion_results prev = Ok ps -> length ps = length motion_results.
Proof.
  induction motion_results as [| mb rest IH]; intros i prev ps; cbn [loop].
  - intros H. injection H as <-. reflexivity.
  - destruct (step frames width0 height0 vp_width vp_height smoothing_factor
                i mb prev) as [p | e]; [|discriminate].
    cbn [bind].
    destruct (loop frames width0 height0 vp_width vp_height smoothing_factor
                (S i) rest p) as [ps' | e] eqn:E; [|discriminate].
    cbn [bind]. intros H. injection H as <-.
    cbn [length]. f_equal. eapply IH. exact E.
Qed.

(** Every position is the loop body applied to the preceding position. *)
Lemma loop_nth motion_results : forall i seed ps,
  loop' i motion_results seed = Ok ps ->
  forall k motion_boxes,
    nth_error motion_results k = Some motion_boxes ->
    exists p, nth_error ps k = Some p /\
              step' (i + k)%nat motion_boxes (previous ps seed k) = Ok p.
Proof.
  induction motion_results as [| mb rest IH]; intros i seed ps; cbn [loop].
  - intros _ k motion_boxes Hk. destruct k; discriminate.
  - destruct (step frames width0 height0 vp_width vp_height smoothing_factor
                i mb seed) as [p0 | e] eqn:E0; [|discriminate].
    cbn [bind].
    destruct (loop frames width0 height0 vp_width vp_height smoothing_factor
                (S i) rest p0) as [ps' | e] eqn:E; [|discriminate].
    cbn [bind]. intros H. injection H as <-.
    intros k motion_boxes Hk. destruct k as [| k'].
    + cbn [nth_error] in Hk. injection Hk as <-.
      exists p0. rewrite Nat.add_0_r. split; [reflexivity | exact E0].
    + cbn [nth_error] in Hk.
      destruct (IH (S i) p0 ps' E k' motion_boxes Hk) as (p & Hp & Hstep).
      exists p. split; [exact Hp|].
      replace (i + S k')%nat with (S i + k')%nat by lia.
      replace (previous (p0 :: ps') seed (S k')) with (previous ps' p0 k')
        by (destruct k'; reflexivity).
      exact Hstep.
Qed.

Lemma loop_positions motion_results i seed ps p :
  loop' i motion_results seed = Ok ps -> In p ps ->
  exists k motion_boxes,
    nth_error ps k = Some p /\
    nth_error motion_results k = Some motion_boxes /\
    step' (i + k)%nat motion_boxes (previous ps seed k) = Ok p.
Proof.
  intros Hloop Hin.
  destruct (In_nth_error _ _ Hin) as [k Hk].
  assert (Hlt : (k < length motion_results)%nat).
  { rewrite <- (loop_length _ _ _ _ Hloop). apply nth_error_Some. congruence. }
  destruct (nth_error motion_results k) as [mb|] eqn:Emb;
    [|apply nth_error_None in Emb; lia].
  destruct (loop_nth _ _ _ _ Hloop k mb Emb) as (p' & Hp' & Hstep).
  exists k, mb. split; [exact Hk|]. split; [exact Emb|]. congruence.
Qed.

(** The loop raises no exception on well-formed inputs. *)

Hypothesis frames_valid : forallb valid_frame frames = true.
Hypothesis width0_valid : pixel_size width0 = true.
Hypothesis height0_valid : pixel_size height0 = true.
Hypothesis viewport_valid : valid_viewport (vp_width, vp_height) = true.
Hypothesis smoothing_valid : valid_smoothing smoothing_factor = true.

Lemma clamp_bounds_abs :
  Z.abs (vp_width / 2) < 2 ^ 34 /\ Z.abs (width0 - vp_width / 2) < 2 ^ 34 /\
  Z.abs (vp_height / 2) < 2 ^ 34 /\ Z.abs (height0 - vp_height / 2) < 2 ^ 34.
Proof.
  pose proof (pixel_size_spec _ width0_valid).
  pose proof (pixel_size_spec _ height0_valid).
  unfold valid_viewport in viewport_valid. cbn [fst snd] in viewport_valid.
  apply andb_prop in viewport_valid. destruct viewport_valid as [Hw Hh].
  apply pixel_size_spec in Hw, Hh.
  pose proof (half_bounds vp_width ltac:(lia)).
  pose proof (half_bounds vp_height ltac:(lia)).
  change (2 ^ 34) with (8 * 2 ^ 31). lia.
Qed.

Lemma step_ok i motion_boxes prev :
  (i < length frames)%nat ->
  forallb valid_box motion_boxes = true ->
  Z.abs (fst prev) < 2 ^ 34 -> Z.abs (snd prev) < 2 ^ 34 ->
  exists p, step' i motion_boxes prev = Ok p /\
            Z.abs (fst p) < 2 ^ 34 /\ Z.abs (snd p) < 2 ^ 34.
Proof.
  intros Hi Hboxes Hpx Hpy. unfold step.
  destruct prev as [prev_x prev_y]. cbn [fst snd] in Hpx, Hpy.
  destruct (nth_error frames i) as [frame|] eqn:Ef;
    [|apply nth_error_None in Ef; lia].
  assert (Hframe : valid_frame frame = true).
  { rewrite forallb_forall in frames_valid. apply frames_valid.
    eapply nth_error_In. exact Ef. }
  destruct (calculate_region_of_interest_ok motion_boxes frame Hboxes Hframe)
    as (roi_x & roi_y & roi_w & roi_h & Eroi & Hrx & Hry).
  rewrite Eroi. cbn [bind].
  destruct clamp_bounds_abs as (B1 & B2 & B3 & B4).
  destruct i as [| i'].
  - cbn [bind]. eexists. split; [reflexivity|].
    cbn [fst snd]. split; apply clamp_abs; assumption.
  - destruct (smooth_ok smoothing_factor prev_x roi_x 34 smoothing_valid
                Hpx Hrx ltac:(lia)) as (sx & Esx & _).
    destruct (smooth_ok smoothing_factor prev_y roi_y 34 smoothing_valid
                Hpy Hry ltac:(lia)) as (sy & Esy & _).
    rewrite Esx. cbn [bind]. rewrite Esy. cbn [bind].
    eexists. split; [reflexivity|].
    cbn [fst snd]. split; apply clamp_abs; assumption.
Qed.

Lemma loop_ok motion_results : forall i prev,
  (i + length motion_results <= length frames)%nat ->
  forallb (forallb valid_box) motion_results = true ->
  Z.abs (fst prev) < 2 ^ 34 -> Z.abs (snd prev) < 2 ^ 34 ->
  exists ps, loop' i motion_results prev = Ok ps.
Proof.
  induction motion_results as [| mb rest IH]; intros i prev Hlen Hboxes Hx Hy;
    cbn [loop].
  - eauto.
  - cbn [length] in Hlen. cbn [forallb] in Hboxes.
    apply andb_prop in Hboxes. destruct Hboxes as [Hmb Hrest].
    destruct (step_ok i mb prev ltac:(lia) Hmb Hx Hy) as (p & Ep & Bx & By).
    rewrite Ep. cbn [bind].
    destruct (IH (S i) p ltac:(lia) Hrest Bx By) as (ps & Eps).
    rewrite Eps. cbn [bind]. eauto.
Qed.

End Loop.

(** * track_viewport *)

Lemma half_range vp size : vp <= size -> vp / 2 <= size - vp / 2.
Proof.
  intros H. pose proof (Z.mul_div_le vp 2 ltac:(lia)). lia.
Qed.

Lemma half_range_inverted vp size : size < vp -> size - vp / 2 <= vp / 2.
Proof.
  intros H. pose proof (Z.div_mod vp 2 ltac:(lia)).
  pose proof (Z.mod_pos_bound vp 2 ltac:(lia)). lia.
Qed.

(** What [track_viewport] stores at index [i]. *)
Lemma track_viewport_nth frame0 frames motion_results vp_width vp_height
    smoothing_factor ps i p :
  track_viewport (frame0 :: frames) motion_results (vp_width, vp_height)
    smoothing_factor = Ok ps ->
  nth_error ps i = Some p ->
  exists motion_boxes,
    nth_error motion_results i = Some motion_boxes /\
    step (frame0 :: frames) (width frame0) (height frame0) vp_width vp_height
      smoothing_factor i motion_boxes
      (previous ps (width frame0 / 2, height frame0 / 2) i) = Ok p.
Proof.
  unfold track_viewport. intros Hloop Hp.
  assert (Hlt : (i < length motion_results)%nat).
  { rewrite <- (loop_length _ _ _ _ _ _ _ _ _ _ Hloop).
    apply nth_error_Some. congruence. }
  destruct (nth_error motion_results i) as [mb|] eqn:Emb;
    [|apply nth_error_None in Emb; lia].
  destruct (loop_nth _ _ _ _ _ _ _ _ _ _ Hloop i mb Emb) as (p' & Hp' & Hstep).
  exists mb. split; [reflexivity|]. cbn [Nat.add] in Hstep. congruence.
Qed.

Lemma even_half vp :
  Z.even vp = true -> (inject_Z vp / 2 == inject_Z (vp / 2))%Q.
Proof.
  intros He. apply Z.even_spec in He. destruct He as [k ->].
  rewrite Z.mul_comm, Z.div_mul by lia.
  rewrite inject_Z_mult. change (inject_Z 2) with 2%Q. field.
Qed.

Lemma spec_range_even vp size x :
  Z.even vp = true -> vp / 2 <= x <= size - vp / 2 ->
  spec_range vp size x = true.
Proof.
  intros He [Hlo Hhi]. unfold spec_range.
  rewrite Zle_Qle in Hlo, Hhi. unfold Z.sub in Hhi.
  rewrite inject_Z_plus, inject_Z_opp in Hhi.
  apply andb_true_intro; split; apply Qle_bool_iff;
    rewrite (even_half vp He); lra.
Qed.

(** C2 (amended): when the viewport does not exceed the first frame, every
    returned position lies within the clamp range of the code on both axes,
    whose bounds are the floored halves [vp // 2] and [size - vp // 2]; for
    an even side of the viewport this is the range of the specification. *)
Theorem clamp_invariant frame0 frames motion_results vp_width vp_height
    smoothing_factor ps :
  vp_width <= width frame0 -> vp_height <= height frame0 ->
  track_viewport (frame0 :: frames) motion_results (vp_width, vp_height)
    smoothing_factor = Ok ps ->
  Forall (fun p : Position =>
            vp_width / 2 <= fst p <= width frame0 - vp_width / 2 /\
            vp_height / 2 <= snd p <= height frame0 - vp_height / 2 /\
            (Z.even vp_width = true ->
             spec_range vp_width (width frame0) (fst p) = true) /\
            (Z.even vp_height = true ->
             spec_range vp_height (height frame0) (snd p) = true)) ps.
Proof.
  intros Hw Hh Htrack. apply Forall_forall. intros p Hin.
  destruct (In_nth_error _ _ Hin) as [i Ep].
  destruct (track_viewport_nth _ _ _ _ _ _ _ _ _ Htrack Ep)
    as (mb & Emb & Hstep).
  apply step_inv in Hstep.
  destruct Hstep as (frame & rx & ry & rw & rh & sx & sy & _ & _ & _ & ->).
  cbn [fst snd].
  pose proof (clamp_in_range _ _ sx (half_range _ _ Hw)) as Hx.
  pose proof (clamp_in_range _ _ sy (half_range _ _ Hh)) as Hy.
  split; [exact Hx|]. split; [exact Hy|].
  split; intros He; apply spec_range_even; assumption.
Qed.

(** C9 (amended): the position of every index [i] is clamped with the
    bounds of [frames[0]] (floored halves), while its region of interest is
    computed with the shape of [frames[i]] (the centre of [frames[i]] for an
    empty box list).  So the position lies in the range of [frames[0]] when
    the viewport fits [frames[0]], whatever the shape of [frames[i]]; a
    smoothed value inside the range of [frames[0]] is stored as it is, also
    when it is outside the range of [frames[i]]; and a smoothed value beyond
    the upper bound of [frames[0]] is cut to that bound, also when the range
    of [frames[i]] holds it. *)
Theorem clamp_bounds_from_first_frame frame0 frames motion_results
    vp_width vp_height smoothing_factor ps i p :
  track_viewport (frame0 :: frames) motion_results (vp_width, vp_height)
    smoothing_factor = Ok ps ->
  nth_error ps i = Some p ->
  exists frame roi_x roi_y roi_w roi_h smooth_x smooth_y,
    nth_error (frame0 :: frames) i = Some frame /\
    calculate_region_of_interest (nth i motion_results []) frame
      = Ok (roi_x, roi_y, roi_w, roi_h) /\
    (nth i motion_results [] = [] ->
     roi_x = width frame / 2 /\ roi_y = height frame / 2) /\
    match i with
    | O => smooth_x = roi_x /\ smooth_y = roi_y
    | S i' =>
      smooth smoothing_factor (fst (nth i' ps (0, 0))) roi_x = Ok smooth_x /\
      smooth smoothing_factor (snd (nth i' ps (0, 0))) roi_y = Ok smooth_y
    end /\
    p = (clamp (vp_width / 2) (width frame0 - vp_width / 2) smooth_x,
         clamp (vp_height / 2) (height frame0 - vp_height / 2) smooth_y) /\
    (vp_width <= width frame0 ->
     vp_width / 2 <= fst p <= width frame0 - vp_width / 2) /\
    (vp_height <= height frame0 ->
     vp_height / 2 <= snd p <= height frame0 - vp_height / 2) /\
    (vp_width / 2 <= smooth_x <= width frame0 - vp_width / 2 ->
     fst p = smooth_x) /\
    (vp_height / 2 <= smooth_y <= height frame0 - vp_height / 2 ->
     snd p = smooth_y) /\
    (vp_width <= width frame0 -> width frame0 - vp_width / 2 <= smooth_x ->
     fst p = width frame0 - vp_width / 2) /\
    (vp_height <= height frame0 -> height frame0 - vp_height / 2 <= smooth_y ->
     snd p = height frame0 - vp_height / 2).
Proof.
  intros Htrack Ep.
  destruct (track_viewport_nth _ _ _ _ _ _ _ _ _ Htrack Ep)
    as (mb & Emb & Hstep).
  apply step_inv in Hstep.
  destruct Hstep as (frame & rx & ry & rw & rh & sx & sy & Ef & Eroi & Hs & Hp).
  exists frame, rx, ry, rw, rh, sx, sy.
  rewrite (nth_error_nth _ _ _ Emb).
  split; [exact Ef|]. split; [exact Eroi|].
  split.
  { intros ->. cbn in Eroi. injection Eroi as <- <- _ _. split; reflexivity. }
  split; [destruct i; exact Hs|]. split; [exact Hp|].
  subst p. cbn [fst snd].
  split; [intros Hw; apply clamp_in_range, half_range, Hw|].
  split; [intros Hh; apply clamp_in_range, half_range, Hh|].
  split; [apply clamp_id|]. split; [apply clamp_id|].
  split; intros Hfit Hle; apply clamp_above; try assumption;
    apply half_range; assumption.
Qed.

(** [track_viewport] raises no exception on well-formed inputs with a frame
    for every motion result. *)
Lemma track_viewport_ok frames motion_results viewport_size smoothing_factor :
  well_formed frames motion_results viewport_size smoothing_factor = true ->
  (length motion_results <= length frames)%nat ->
  exists ps,
    track_viewport frames motion_results viewport_size smoothing_factor = Ok ps
    /\ length ps = length motion_results.
Proof.
  unfold well_formed. intros Hwf Hlen.
  apply andb_prop in Hwf. destruct Hwf as [Hwf Ha].
  apply andb_prop in Hwf. destruct Hwf as [Hwf Hvp].
  apply andb_prop in Hwf. destruct Hwf as [Hfr Hmr].
  destruct viewport_size as [vp_width vp_height].
  destruct frames as [| frame0 frames].
  { destruct motion_results; [|cbn in Hlen; lia].
    exists []. split; reflexivity. }
  unfold track_viewport.
  assert (Hf0 : valid_frame frame0 = true).
  { cbn [forallb] in Hfr. apply andb_prop in Hfr. tauto. }
  pose proof Hf0 as Hf0'. unfold valid_frame in Hf0'.
  apply andb_prop in Hf0'. destruct Hf0' as [Hh0 Hw0].
  pose proof (pixel_size_spec _ Hh0). pose proof (pixel_size_spec _ Hw0).
  destruct (loop_ok (frame0 :: frames) (width frame0) (height frame0)
              vp_width vp_height smoothing_factor Hfr Hw0 Hh0 Hvp Ha
              motion_results 0%nat (width frame0 / 2, height frame0 / 2))
    as (ps & Eps); try assumption.
  - cbn [fst].
    pose proof (half_bounds (width frame0) ltac:(lia)).
    change (2 ^ 34) with (8 * 2 ^ 31). lia.
  - cbn [snd].
    pose proof (half_bounds (height frame0) ltac:(lia)).
    change (2 ^ 34) with (8 * 2 ^ 31). lia.
  - exists ps. split; [exact Eps|]. eapply loop_length. exact Eps.
Qed.

Lemma track_viewport_length frames motion_results viewport_size
    smoothing_factor ps :
  length frames = length motion_results ->
  track_viewport frames motion_results viewport_size smoothing_factor = Ok ps ->
  length ps = length motion_results.
Proof.
  intros Hlen Htrack. destruct viewport_size as [vp_width vp_height].
  destruct frames as [| frame0 frames].
  - cbn in Htrack. injection Htrack as <-. exact Hlen.
  - unfold track_viewport in Htrack. eapply loop_length. exact Htrack.
Qed.

(** C5: when [frames] and [motion_results] have the same length, the
    returned sequence has one position per motion result; on empty [frames]
    the result is the empty list, not an exception; and no exception is
    raised on well-formed input. *)
Theorem output_length frames motion_results viewport_size smoothing_factor :
  length frames = length motion_results ->
  (forall ps,
     track_viewport frames motion_results viewport_size smoothing_factor
       = Ok ps ->
     length ps = length motion_results) /\
  (frames = [] ->
   track_viewport frames motion_results viewport_size smoothing_factor
     = Ok []) /\
  (well_formed frames motion_results viewport_size smoothing_factor = true ->
   exists ps,
     track_viewport frames motion_results viewport_size smoothing_factor
       = Ok ps).
Proof.
  intros Hlen. split; [|split].
  - intros ps. apply track_viewport_length. exact Hlen.
  - intros ->. reflexivity.
  - intros Hwf.
    destruct (track_viewport_ok _ _ _ _ Hwf ltac:(lia)) as (ps & Eps & _).
    exists ps. exact Eps.
Qed.

(** C3 (amended): an oversized viewport is not rejected; on well-formed
    input a position sequence is returned. *)
Theorem oversized_viewport_not_rejected frame0 frames motion_results
    vp_width vp_height smoothing_factor :
  width frame0 < vp_width \/ height frame0 < vp_height ->
  well_formed (frame0 :: frames) motion_results (vp_width, vp_height)
    smoothing_factor = true ->
  (length motion_results <= length (frame0 :: frames))%nat ->
  exists ps,
    track_viewport (frame0 :: frames) motion_results (vp_width, vp_height)
      smoothing_factor = Ok ps
    /\ length ps = length motion_results.
Proof.
  intros _ Hwf Hlen. apply track_viewport_ok; assumption.
Qed.


(** * One smoothing step *)

Lemma inject_Z_lt_succ a b : (inject_Z a < inject_Z b + 1)%Q -> a <= b.
Proof.
  intros H. change 1%Q with (inject_Z 1) in H.
  rewrite <- inject_Z_plus, <- Zlt_Qlt in H. lia.
Qed.

(** One smoothing step with the factor [0.3] on pixel coordinates. *)
Lemma smooth_0_3_approaches p B :
  0 <= p < 2 ^ 31 -> 0 <= B < 2 ^ 31 ->
  exists v, smooth PyFloat.lit_0_3 p B = Ok v /\ approaches p B v = true.
Proof.
  intros Hp HB. unfold smooth.
  assert (Ec : PyFloat.sub PyFloat.one PyFloat.lit_0_3
               = S754_finite false 6305039478318694 (-53)) by reflexivity.
  rewrite Ec.
  destruct (of_int_exact p ltac:(lia)) as (fp & Ep & Np & Vp).
  destruct (of_int_exact B ltac:(lia)) as (fB & EB & NB & VB).
  destruct (of_int_ok p 31 ltac:(lia) ltac:(lia)) as (fp' & Ep' & Bp).
  destruct (of_int_ok B 31 ltac:(lia) ltac:(lia)) as (fB' & EB' & BB).
  rewrite Ep in Ep'. injection Ep' as <-.
  rewrite EB in EB'. injection EB' as <-.
  rewrite Ep, EB. cbn [bind]. unfold PyFloat.add, PyFloat.mul.
  set (c := S754_finite false 6305039478318694 (-53)).
  set (a := PyFloat.lit_0_3).
  assert (Bc : PyFloat.finite_below 0 c) by (split; reflexivity).
  assert (Ba : PyFloat.finite_below 0 a) by (split; [reflexivity | cbn; lia]).
  destruct (SFmul_value fp c _ _ Np I Bp Bc ltac:(lia)) as [N1 V1].
  destruct (SFmul_value fB a _ _ NB I BB Ba ltac:(lia)) as [N2 V2].
  pose proof (SFmul_bound _ _ _ _ Bp Bc ltac:(lia)) as B1.
  pose proof (SFmul_bound _ _ _ _ BB Ba ltac:(lia)) as B2.
  destruct (SFadd_value _ _ _ N1 N2 B1 B2 ltac:(lia)) as [N V].
  pose proof (SFadd_bound _ _ _ B1 B2 ltac:(lia)) as Bv.
  destruct (to_int_floor _ _ N Bv) as (z & Ez & Hz0 & Hz).
  exists z. split; [exact Ez|].
  (* the numeric facts, over the rationals *)
  assert (Vc : (PyFloat.F2Q c == 6305039478318694 # 9007199254740992)%Q)
    by reflexivity.
  assert (Va : (PyFloat.F2Q a == 5404319552844595 # 18014398509481984)%Q)
    by reflexivity.
  assert (U1 : (2 ^ (31 + 1 + 0 - 53) == 1 # 2097152)%Q) by reflexivity.
  assert (U2 : (2 ^ (31 + 1 + 0 + 1 + 1 - 53) == 1 # 524288)%Q)
    by reflexivity.
  rewrite Vp, Vc, U1 in V1. rewrite VB, Va, U1 in V2. rewrite U2 in V.
  remember (PyFloat.F2Q (SFmul 53 1024 fp c)) as x1.
  remember (PyFloat.F2Q (SFmul 53 1024 fB a)) as x2.
  remember (PyFloat.F2Q
              (SFadd 53 1024 (SFmul 53 1024 fp c) (SFmul 53 1024 fB a)))
    as xv.
  assert (Pq : (0 <= inject_Z p <= 2147483648)%Q).
  { change 0%Q with (inject_Z 0).
    change 2147483648%Q with (inject_Z (2 ^ 31)).
    rewrite <- !Zle_Qle. lia. }
  assert (Bq : (0 <= inject_Z B <= 2147483648)%Q).
  { change 0%Q with (inject_Z 0).
    change 2147483648%Q with (inject_Z (2 ^ 31)).
    rewrite <- !Zle_Qle. lia. }
  unfold approaches.
  destruct (Z.eqb_spec p B) as [-> | Hne].
  - apply andb_true_intro; split; apply Z.leb_le.
    + assert (B - 1 < z + 1); [|lia].
      rewrite Zlt_Qlt. unfold Z.sub.
      rewrite !inject_Z_plus, inject_Z_opp.
      change (inject_Z 1) with 1%Q. lra.
    + apply inject_Z_lt_succ. lra.
  - apply andb_true_intro; split; apply Z.leb_le.
    + assert (Z.min p B < z + 1); [|lia].
      rewrite Zlt_Qlt, inject_Z_plus. change (inject_Z 1) with 1%Q.
      destruct (Z_lt_le_dec p B) as [Hlt | Hge].
      * rewrite Z.min_l by lia.
        assert (HpB : (inject_Z p + 1 <= inject_Z B)%Q).
        { change 1%Q with (inject_Z 1).
          rewrite <- inject_Z_plus, <- Zle_Qle. lia. }
        lra.
      * rewrite Z.min_r by lia.
        assert (HpB : (inject_Z B + 1 <= inject_Z p)%Q).
        { change 1%Q with (inject_Z 1).
          rewrite <- inject_Z_plus, <- Zle_Qle. lia. }
        lra.
    + apply inject_Z_lt_succ.
      destruct (Z_lt_le_dec p B) as [Hlt | Hge].
      * rewrite Z.max_r by lia.
        assert (HpB : (inject_Z p <= inject_Z B)%Q)
          by (rewrite <- Zle_Qle; lia).
        lra.
      * rewrite Z.max_l by lia.
        assert (HpB : (inject_Z B <= inject_Z p)%Q)
          by (rewrite <- Zle_Qle; lia).
        lra.
Qed.

(** * The step response *)

Lemma approaches_spec p B v :
  approaches p B v = true <->
  (p = B /\ B - 1 <= v <= B) \/ (p <> B /\ Z.min p B <= v <= Z.max p B).
Proof.
  unfold approaches. destruct (Z.eqb_spec p B) as [E | E];
    rewrite andb_true_iff, !Z.leb_le; intuition lia.
Qed.

(** Clamping to a range that holds both the position and the target keeps
    the approach. *)
Lemma clamp_approaches lo hi p B v :
  lo <= p <= hi -> lo <= B <= hi -> approaches p B v = true ->
  approaches p B (clamp lo hi v) = true /\ lo <= clamp lo hi v <= hi.
Proof.
  intros Hp HB Ha. rewrite approaches_spec in *. unfold clamp. lia.
Qed.

Lemma roi_center_is_spec motion_boxes frame c :
  roi_center_is motion_boxes frame c = true ->
  exists w h,
    calculate_region_of_interest motion_boxes frame = Ok (fst c, snd c, w, h).
Proof.
  unfold roi_center_is.
  destruct (calculate_region_of_interest motion_boxes frame)
    as [[[[x y] w] h] | e]; [|discriminate].
  intros H. apply andb_prop in H. destruct H as [Hx Hy].
  apply Z.eqb_eq in Hx, Hy. subst. eauto.
Qed.

Section StepResponse.

Variable frames : list Frame.
Variables width0 height0 vp_width vp_height : Z.
Variable B : Position.

Hypothesis range_x : 0 <= vp_width / 2 /\ width0 - vp_width / 2 < 2 ^ 31.
Hypothesis range_y : 0 <= vp_height / 2 /\ height0 - vp_height / 2 < 2 ^ 31.
Hypothesis reach_x : vp_width / 2 <= fst B <= width0 - vp_width / 2.
Hypothesis reach_y : vp_height / 2 <= snd B <= height0 - vp_height / 2.

Local Abbreviation in_range p :=
  (vp_width / 2 <= fst p <= width0 - vp_width / 2 /\
   vp_height / 2 <= snd p <= height0 - vp_height / 2).

(** The loop from an index after the seed, while the region of interest
    stays at [B]. *)
Lemma loop_approaches motion_results : forall frames' i prev,
  (0 < i)%nat ->
  skipn i frames = frames' ->
  length frames' = length motion_results ->
  forallb (fun '(boxes, frame) => roi_center_is boxes frame B)
    (combine motion_results frames') = true ->
  in_range prev ->
  exists ps,
    loop frames width0 height0 vp_width vp_height PyFloat.lit_0_3
      i motion_results prev = Ok ps /\
    length ps = length motion_results /\
    approach_chain B prev ps = true.
Proof.
  induction motion_results as [| mb rest IH];
    intros frames' i prev Hi Hskip Hlen Hroi Hprev; cbn [loop].
  - exists []. repeat split.
  - destruct frames' as [| frame frames'']; [discriminate|].
    cbn [combine forallb] in Hroi. apply andb_prop in Hroi.
    destruct Hroi as [Hroi0 Hroi].
    assert (Hnth : nth_error frames i = Some frame).
    { rewrite <- (firstn_skipn i frames) at 1. rewrite Hskip.
      assert (Hl : length (firstn i frames) = i).
      { apply firstn_length_le.
        assert (length (skipn i frames) = S (length frames''))
          by (rewrite Hskip; reflexivity).
        rewrite length_skipn in H. lia. }
      rewrite nth_error_app2 by lia. rewrite Hl, Nat.sub_diag. reflexivity. }
    assert (Hskip' : skipn (S i) frames = frames'').
    { replace (S i) with (1 + i)%nat by lia.
      rewrite <- skipn_skipn, Hskip. reflexivity. }
    destruct (roi_center_is_spec _ _ _ Hroi0) as (rw & rh & Eroi).
    unfold step. destruct prev as [prev_x prev_y]. cbn [fst snd] in Hprev.
    rewrite Hnth, Eroi. cbn [bind].
    destruct i as [| i']; [lia|].
    destruct (smooth_0_3_approaches prev_x (fst B) ltac:(lia) ltac:(lia))
      as (vx & Evx & Ax).
    destruct (smooth_0_3_approaches prev_y (snd B) ltac:(lia) ltac:(lia))
      as (vy & Evy & Ay).
    rewrite Evx. cbn [bind]. rewrite Evy. cbn [bind].
    destruct (clamp_approaches _ _ _ _ _ (proj1 Hprev) reach_x Ax)
      as [Ax' Rx].
    destruct (clamp_approaches _ _ _ _ _ (proj2 Hprev) reach_y Ay)
      as [Ay' Ry].
    destruct (IH frames'' (S (S i'))
                (clamp (vp_width / 2) (width0 - vp_width / 2) vx,
                 clamp (vp_height / 2) (height0 - vp_height / 2) vy)
                ltac:(lia) Hskip' ltac:(cbn in Hlen; lia) Hroi
                ltac:(cbn [fst snd]; tauto))
      as (ps & Eps & Lps & Cps).
    rewrite Eps. cbn [bind].
    eexists. split; [reflexivity|]. split; [cbn [length]; lia|].
    cbn [approach_chain fst snd]. rewrite Ax', Ay', Cps. reflexivity.
Qed.

End StepResponse.

(** The centre of the frame is inside a non-empty clamp range. *)
Lemma center_in_range vp size :
  vp / 2 <= size - vp / 2 -> vp / 2 <= size / 2 <= size - vp / 2.
Proof.
  intros H. pose proof (Z.div_mod size 2 ltac:(lia)).
  pose proof (Z.mod_pos_bound size 2 ltac:(lia)). lia.
Qed.

(** C8 (amended): in the step-response scenario the positions start at the
    frame centre [A] and, on each axis, every position lies between the
    previous position and [B], except that a position equal to [B] may be
    followed by [B - 1]; so [B] is approached monotonically and passed by at
    most one pixel. *)
Theorem step_response_approach frames motion_results vp_width vp_height B :
  step_response frames motion_results (vp_width, vp_height) B = true ->
  exists frame0 rest,
    hd_error frames = Some frame0 /\
    track_viewport frames motion_results (vp_width, vp_height)
      PyFloat.lit_0_3
    = Ok ((width frame0 / 2, height frame0 / 2) :: rest) /\
    length rest = length (tl motion_results) /\
    approach_chain B (width frame0 / 2, height frame0 / 2) rest = true.
Proof.
  unfold step_response.
  destruct frames as [| frame0 frames']; [discriminate|].
  destruct motion_results as [| mb0 rest_motion]; [discriminate|].
  cbn [fst snd]. rewrite !andb_true_iff, !Z.leb_le, Nat.eqb_eq.
  intros ((((((((Hf0 & Hvp) & Hseed) & Hlen) & Hroi) & Bx1) & Bx2) & By1)
          & By2).
  apply valid_frame_spec in Hf0. destruct Hf0 as [Hh0 Hw0].
  unfold valid_viewport in Hvp. cbn [fst snd] in Hvp.
  apply andb_prop in Hvp. destruct Hvp as [Hvw Hvh].
  apply pixel_size_spec in Hvw, Hvh.
  pose proof (half_bounds vp_width ltac:(lia)) as Hhw.
  pose proof (half_bounds vp_height ltac:(lia)) as Hhh.
  pose proof (center_in_range vp_width (width frame0) ltac:(lia)) as Cx.
  pose proof (center_in_range vp_height (height frame0) ltac:(lia)) as Cy.
  destruct (roi_center_is_spec _ _ _ Hseed) as (rw & rh & Eseed).
  cbn [fst snd] in Eseed.
  exists frame0.
  unfold track_viewport. cbn [loop]. unfold step at 1.
  cbn [nth_error]. rewrite Eseed. cbn [bind].
  rewrite !clamp_id by lia.
  destruct (loop_approaches (frame0 :: frames') (width frame0) (height frame0)
              vp_width vp_height B
              ltac:(lia) ltac:(lia) ltac:(lia) ltac:(lia)
              rest_motion frames' 1%nat
              (width frame0 / 2, height frame0 / 2)
              ltac:(lia) eq_refl Hlen Hroi ltac:(cbn [fst snd]; lia))
    as (ps & Eps & Lps & Cps).
  rewrite Eps. cbn [bind].
  exists ps. repeat split; assumption.
Qed.

Lemma step_response_approach_witness :
  exists frame0 rest,
    hd_error step_frames = Some frame0 /\
    track_viewport step_frames step_motion (10, 10) PyFloat.lit_0_3
    = Ok ((width frame0 / 2, height frame0 / 2) :: rest) /\
    length rest = length (tl step_motion) /\
    approach_chain (12, 12) (width frame0 / 2, height frame0 / 2) rest = true.
Proof.
  apply step_response_approach. vm_compute. reflexivity.
Defined.

(** * detect_motion *)

Lemma Qgtb_spec a b : MotionDetector.Qgtb a b = true <-> (b < a)%Q.
Proof.
  unfold MotionDetector.Qgtb. rewrite negb_true_iff.
  split.
  - intros H. apply Qnot_le_lt. intros Hle.
    apply Qle_bool_iff in Hle. congruence.
  - intros H. destruct (Qle_bool a b) eqn:E; [|reflexivity].
    apply Qle_bool_iff in E. exfalso. exact (Qlt_not_le _ _ H E).
Qed.

Section Cv2Facts.

Variables image gray mask contour : Type.
Variable cvtColor_BGR2GRAY : image -> result gray.
Variable GaussianBlur : gray -> Z * Z -> Z -> result gray.
Variable absdiff : gray -> gray -> result gray.
Variable threshold_BINARY : gray -> Q -> Z -> result mask.
Variable dilate : mask -> Z * Z -> Z -> result mask.
Variable findContours_EXTERNAL : mask -> result (list contour).
Variable contourArea : contour -> Q.
Variable boundingRect : contour -> MotionDetector.Box.

Local Abbreviation detect_motion :=
  (MotionDetector.detect_motion image gray mask contour
     cvtColor_BGR2GRAY GaussianBlur absdiff threshold_BINARY dilate
     findContours_EXTERNAL contourArea boundingRect).
Local Abbreviation find_motion_contours :=
  (MotionDetector.find_motion_contours image gray mask contour
     cvtColor_BGR2GRAY GaussianBlur absdiff threshold_BINARY dilate
     findContours_EXTERNAL).
Local Abbreviation filter_contours :=
  (MotionDetector.filter_contours contour contourArea boundingRect).

Lemma filter_loop_spec min_area contours : forall motion_boxes,
  fold_left
    (fun motion_boxes c =>
       if MotionDetector.Qgtb (contourArea c) min_area
       then motion_boxes ++ [boundingRect c] else motion_boxes)
    contours motion_boxes =
  motion_boxes ++
  map boundingRect
    (filter (fun c => MotionDetector.Qgtb (contourArea c) min_area) contours).
Proof.
  induction contours as [| c cs IH]; intros acc; cbn [fold_left filter map].
  - rewrite app_nil_r. reflexivity.
  - rewrite IH.
    destruct (MotionDetector.Qgtb (contourArea c) min_area);
      cbn [map]; [rewrite <- app_assoc|]; reflexivity.
Qed.

Lemma filter_contours_spec min_area contours :
  filter_contours min_area contours =
  map boundingRect
    (filter (fun c => MotionDetector.Qgtb (contourArea c) min_area) contours).
Proof. apply filter_loop_spec. Qed.

(** C4: outside [[1, len(frames))] the result is the empty list, without
    an exception. *)
Theorem detect_motion_out_of_range frames frame_idx threshold min_area :
  frame_idx < 1 \/ Z.of_nat (length frames) <= frame_idx ->
  detect_motion frames frame_idx threshold min_area = Ok [].
Proof.
  intros H. unfold MotionDetector.detect_motion.
  replace ((frame_idx <? 1) || (Z.of_nat (length frames) <=? frame_idx))
    with true; [reflexivity|].
  symmetry. apply orb_true_iff.
  destruct H; [left; apply Z.ltb_lt | right; apply Z.leb_le]; assumption.
Qed.

(** C6: every returned box is the bounding rectangle of a contour whose
    area strictly exceeds [min_area]. *)
Theorem detect_motion_area_filter frames frame_idx threshold min_area
    boxes b :
  detect_motion frames frame_idx threshold min_area = Ok boxes ->
  In b boxes ->
  exists current_frame prev_frame contours c,
    nth_error frames (Z.to_nat frame_idx) = Some current_frame /\
    nth_error frames (Z.to_nat (frame_idx - 1)) = Some prev_frame /\
    find_motion_contours current_frame prev_frame threshold = Ok contours /\
    In c contours /\ boundingRect c = b /\
    (min_area < contourArea c)%Q.
Proof.
  unfold MotionDetector.detect_motion.
  destruct ((frame_idx <? 1) || (Z.of_nat (length frames) <=? frame_idx)).
  { intros H. injection H as <-. intros []. }
  destruct (nth_error frames (Z.to_nat frame_idx)) as [cur|];
    [|discriminate].
  destruct (nth_error frames (Z.to_nat (frame_idx - 1))) as [prev|];
    [|discriminate].
  destruct (MotionDetector.find_motion_contours image gray mask contour
              cvtColor_BGR2GRAY GaussianBlur absdiff threshold_BINARY dilate
              findContours_EXTERNAL cur prev threshold)
    as [contours | e] eqn:Ec; [|discriminate].
  cbn [bind]. intros H Hin. injection H as <-.
  rewrite filter_contours_spec in Hin.
  apply in_map_iff in Hin. destruct Hin as (c & Hb & Hc).
  apply filter_In in Hc. destruct Hc as [Hc Harea].
  apply Qgtb_spec in Harea.
  exists cur, prev, contours, c. repeat split; auto.
Qed.

End Cv2Facts.

Lemma detect_motion_out_of_range_witness :
  ToyCv2.detect_motion ToyCv2.frames 0 25%Q 100%Q = Ok [] /\
  ToyCv2.detect_motion ToyCv2.frames 2 25%Q 100%Q = Ok [].
Proof.
  split; apply detect_motion_out_of_range; [left | right]; cbn; lia.
Defined.

Lemma detect_motion_area_filter_witness :
  exists current_frame prev_frame contours c,
    nth_error ToyCv2.frames (Z.to_nat 1) = Some current_frame /\
    nth_error ToyCv2.frames (Z.to_nat (1 - 1)) = Some prev_frame /\
    ToyCv2.find_motion_contours current_frame prev_frame 25%Q = Ok contours /\
    In c contours /\ ToyCv2.boundingRect c = (1, 2, 30, 40) /\
    (100%Q < ToyCv2.contourArea c)%Q.
Proof.
  apply (detect_motion_area_filter _ _ _ _ _ _ _ _ _ _ _ _
           ToyCv2.frames 1 25%Q 100%Q [(1, 2, 30, 40)]);
    [vm_compute; reflexivity | cbn; auto].
Defined.

(** * Concrete runs *)

(** The float operations agree with CPython on sample values:
    [1 / 3 = 0x1.5555555555555p-2], [-7 / 2 = -3.5], [int(-3.5) = -3],
    [float(2**53 + 1) = 2.0**53], [1 - 0.3 = 0.7], and a quotient beyond the
    largest double raises [OverflowError]. *)
Example true_divide_third :
  PyFloat.true_divide 1 3 = Ok (S754_finite false 6004799503160661 (-54)).
Proof. reflexivity. Qed.

Example to_int_truncates :
  (f <- PyFloat.true_divide (-7) 2 ;; PyFloat.to_int f) = Ok (-3).
Proof. reflexivity. Qed.

Example of_int_ties_to_even :
  PyFloat.of_int (2 ^ 53 + 1) = Ok (S754_finite false 4503599627370496 1).
Proof. vm_compute. reflexivity. Qed.

Example one_minus_0_3 :
  PyFloat.sub PyFloat.one PyFloat.lit_0_3
  = S754_finite false 6305039478318694 (-53).
Proof. reflexivity. Qed.

Example true_divide_overflow :
  PyFloat.true_divide (2 ^ 1024) 1 = Raise OverflowError.
Proof. vm_compute. reflexivity. Qed.

(** The default smoothing factor is the double nearest to 3/10. *)
Example lit_0_3_nearest : PyFloat.true_divide 3 10 = Ok PyFloat.lit_0_3.
Proof. reflexivity. Qed.

Lemma clamp_invariant_witness :
  Forall (fun p : Position =>
            10 / 2 <= fst p <= width frame_100 - 10 / 2 /\
            10 / 2 <= snd p <= height frame_100 - 10 / 2 /\
            spec_range 10 (width frame_100) (fst p) = true /\
            spec_range 10 (height frame_100) (snd p) = true)
    [(50, 50); (50, 50)].
Proof.
  assert (H := clamp_invariant frame_100 [frame_100] pair_motion 10 10
                 PyFloat.lit_0_3 [(50, 50); (50, 50)]
                 ltac:(cbn; lia) ltac:(cbn; lia)
                 ltac:(vm_compute; reflexivity)).
  eapply Forall_impl; [|exact H].
  intros p (H1 & H2 & H3 & H4).
  split; [exact H1|]. split; [exact H2|].
  split; [apply H3 | apply H4]; reflexivity.
Defined.

(** C2 (as stated) fails for an odd side: a viewport of 51 x 21 fits a frame
    of 200 x 60, and a box at the lower right corner gives the position
    [(175, 50)], beyond [200 - 51 / 2 = 174.5] and [60 - 21 / 2 = 49.5]: the
    viewport around it reaches half a pixel out of the frame. *)
Lemma odd_viewport_counterexample :
  51 <= width frame_200_60 /\ 21 <= height frame_200_60 /\
  track_viewport [frame_200_60] [[(190, 50, 10, 10)]] (51, 21)
    PyFloat.lit_0_3 = Ok [(175, 50)] /\
  spec_range 51 (width frame_200_60) 175 = false /\
  spec_range 21 (height frame_200_60) 50 = false.
Proof. vm_compute. repeat split; discriminate. Qed.

Lemma clamp_bounds_from_first_frame_witness :
  exists frame roi_x roi_y roi_w roi_h smooth_x smooth_y,
    nth_error [wide_frame; tall_frame] 1 = Some frame /\
    calculate_region_of_interest (nth 1 [[]; []] []) frame
      = Ok (roi_x, roi_y, roi_w, roi_h) /\
    (roi_x = width frame / 2 /\ roi_y = height frame / 2) /\
    (smooth PyFloat.lit_0_3 (fst (nth 0 [(50, 20); (41, 35)] (0, 0))) roi_x
       = Ok smooth_x /\
     smooth PyFloat.lit_0_3 (snd (nth 0 [(50, 20); (41, 35)] (0, 0))) roi_y
       = Ok smooth_y) /\
    (41, 35) = (clamp (10 / 2) (width wide_frame - 10 / 2) smooth_x,
                clamp (10 / 2) (height wide_frame - 10 / 2) smooth_y) /\
    10 / 2 <= fst (41, 35) <= width wide_frame - 10 / 2 /\
    10 / 2 <= snd (41, 35) <= height wide_frame - 10 / 2 /\
    fst (41, 35) = smooth_x /\
    snd (41, 35) = height wide_frame - 10 / 2 /\
    width frame - 10 / 2 < fst (41, 35) /\
    smooth_y <= height frame - 10 / 2.
Proof.
  destruct (clamp_bounds_from_first_frame wide_frame [tall_frame] [[]; []]
              10 10 PyFloat.lit_0_3 [(50, 20); (41, 35)] 1%nat (41, 35))
    as (frame & roi_x & roi_y & roi_w & roi_h & smooth_x & smooth_y
        & H1 & H2 & H3 & H4 & H5 & H6 & H7 & H8 & _ & _ & H11);
    [vm_compute; reflexivity | reflexivity |].
  injection H1 as <-.
  destruct (H3 eq_refl) as [-> ->].
  destruct H4 as [H4x H4y].
  vm_compute in H4x. injection H4x as <-.
  vm_compute in H4y. injection H4y as <-.
  exists tall_frame, (width tall_frame / 2), (height tall_frame / 2),
    roi_w, roi_h, 41, 44.
  split; [reflexivity|]. split; [exact H2|].
  split; [split; reflexivity|].
  split; [split; vm_compute; reflexivity|].
  split; [exact H5|].
  split; [apply H6; vm_compute; discriminate|].
  split; [apply H7; vm_compute; discriminate|].
  split; [apply H8; vm_compute; split; discriminate|].
  split; [apply H11; vm_compute; discriminate|].
  split; vm_compute; [reflexivity | discriminate].
Defined.

(** C9 (as stated) fails for an odd side of the viewport: with a first
    frame of 200 x 60, a second one of 100 x 100 and a viewport of 51 x 21
    the position of index 1 is [(151, 50)], beyond
    [60 - 21 / 2 = 49.5]. *)
Lemma first_frame_range_counterexample :
  track_viewport [frame_200_60; frame_100]
    [[(190, 50, 10, 10)]; [(90, 90, 10, 10)]] (51, 21) PyFloat.lit_0_3
    = Ok [(175, 50); (151, 50)] /\
  21 <= height frame_200_60 /\
  spec_range 21 (height frame_200_60) 50 = false /\
  21 / 2 <= 50 <= height frame_200_60 - 21 / 2.
Proof. vm_compute. repeat split; discriminate. Qed.

(** With frames of different shapes the position of frame 1 is inside the
    range of frame 0 and outside the range its own shape would give. *)
Example mixed_frames_position :
  track_viewport mixed_frames [[]; []] (10, 10) PyFloat.lit_0_3
    = Ok [(50, 50); (41, 41)] /\
  width frame_40 - 10 / 2 < 41 <= width frame_100 - 10 / 2.
Proof. vm_compute. repeat split; discriminate. Qed.

Lemma output_length_witness :
  length [(50, 50); (50, 50)] = length pair_motion /\
  exists ps,
    track_viewport pair_frames pair_motion (10, 10) PyFloat.lit_0_3 = Ok ps.
Proof.
  destruct (output_length pair_frames pair_motion (10, 10) PyFloat.lit_0_3
              eq_refl) as (Hlen & _ & Hok).
  split; [apply Hlen | apply Hok]; vm_compute; reflexivity.
Defined.

(** C3 (as stated) fails: a viewport of 200 x 200 on a frame of 100 x 100
    yields a position, not an exception. *)
Lemma oversized_viewport_counterexample :
  [frame_100] <> [] /\ width frame_100 < 200 /\
  track_viewport [frame_100] [[]] (200, 200) PyFloat.lit_0_3
    = Ok [(100, 100)].
Proof. vm_compute. repeat split; discriminate. Qed.

Lemma oversized_viewport_not_rejected_witness :
  exists ps,
    track_viewport [frame_100] [[]] (200, 200) PyFloat.lit_0_3 = Ok ps
    /\ length ps = length [@nil Box].
Proof.
  apply oversized_viewport_not_rejected;
    [left; cbn; lia | vm_compute; reflexivity | cbn; lia].
Defined.


(** C8 (as stated) fails: on frames of 26 x 26 with a viewport of 10 x 10
    the position starts at the frame centre [(13, 13)], reaches the target
    [(12, 12)] at index 1, and falls to [(11, 11)] at index 2, where it
    stays: in binary64 [12 * 0.7 = 8.399999999999999] and
    [12 * 0.3 = 3.5999999999999996], their sum is [11.999999999999998]
    ([0x1.7ffffffffffffp+3]), and [int] truncates it to 11. *)
Lemma step_response_counterexample :
  step_response step_frames step_motion (10, 10) (12, 12) = true /\
  length step_motion = 51%nat /\
  exists ps,
    track_viewport step_frames step_motion (10, 10) PyFloat.lit_0_3 = Ok ps /\
    nth 0 ps (0, 0) = (13, 13) /\
    nth 1 ps (0, 0) = (12, 12) /\
    nth 2 ps (0, 0) = (11, 11) /\
    between 12 12 11 = false /\
    Forall (fun p => p = (11, 11)) (skipn 2 ps) /\
    (f <- PyFloat.of_int 12 ;;
     Ok (PyFloat.add (PyFloat.mul f (PyFloat.sub PyFloat.one PyFloat.lit_0_3))
                     (PyFloat.mul f PyFloat.lit_0_3)))
    = Ok (S754_finite false 6755399441055743 (-49)).
Proof.
  split; [vm_compute; reflexivity|]. split; [reflexivity|].
  eexists. split; [vm_compute; reflexivity|].
  vm_compute. repeat split; repeat constructor.
Qed.

(** The same from the centre of a frame of 100 x 100: the positions descend
    from [(50, 50)], reach [(12, 12)] at index 9 and pass it at index 10. *)
Example step_response_from_50 :
  exists ps,
    track_viewport step_frames_100 step_motion (10, 10) PyFloat.lit_0_3
      = Ok ps /\
    map fst (firstn 11 ps) = [50; 38; 30; 24; 20; 17; 15; 14; 13; 12; 11] /\
    Forall (fun p => p = (11, 11)) (skipn 10 ps).
Proof.
  eexists. split; [vm_compute; reflexivity|].
  vm_compute. repeat split; repeat constructor.
Qed.

(** A centre beyond 53 bits is not recovered by the float division. *)
Example single_box_huge_coordinate :
  calculate_region_of_interest [(2 ^ 53 + 1, 0, 1, 1)] frame_100
  = Ok (2 ^ 53, 0, 1, 1).
Proof. vm_compute. reflexivity. Qed.

(** A coordinate too large for a double raises [OverflowError]. *)
Example huge_coordinate_overflows :
  track_viewport [frame_100] [[(2 ^ 1100, 0, 1, 1)]] (10, 10) PyFloat.lit_0_3
  = Raise OverflowError.
Proof. vm_compute. reflexivity. Qed.

(** * Further properties *)

(** * More on the region of interest *)

Lemma accumulate_zero_area acc b : box_area b = 0 -> accumulate acc b = acc.
Proof.
  destruct acc as [[tw wx] wy], b as [[[x y] w] h]. cbn [box_area accumulate].
  intros ->. rewrite !Z.mul_0_r, !Z.add_0_r. reflexivity.
Qed.

Lemma nonneg_area_cases b :
  0 <= box_area b -> (0 <? box_area b) = false -> box_area b = 0.
Proof. intros H0 H1. apply Z.ltb_ge in H1. lia. Qed.

Lemma fold_accumulate_filter bs : forall acc,
  forallb (fun b => 0 <=? box_area b) bs = true ->
  fold_left accumulate (filter (fun b => 0 <? box_area b) bs) acc
  = fold_left accumulate bs acc.
Proof.
  induction bs as [| b bs IH]; intros acc Hbs; [reflexivity|].
  cbn [forallb] in Hbs. apply andb_prop in Hbs. destruct Hbs as [Hb Hbs].
  apply Z.leb_le in Hb. cbn [filter fold_left].
  destruct (0 <? box_area b) eqn:E; cbn [fold_left].
  - apply IH. exact Hbs.
  - rewrite (accumulate_zero_area acc b (nonneg_area_cases b Hb E)).
    apply IH. exact Hbs.
Qed.

Lemma fold_accumulate_weight bs : forall acc,
  (forall b, In b bs -> box_area b <= 0) ->
  fst (fst (fold_left accumulate bs acc)) <= fst (fst acc).
Proof.
  induction bs as [| b bs IH]; intros acc Hbs; cbn [fold_left]; [lia|].
  apply Z.le_trans with (fst (fst (accumulate acc b))).
  - apply IH. intros b' Hb'. apply Hbs. right. exact Hb'.
  - pose proof (Hbs b (or_introl eq_refl)) as Hb.
    destruct acc as [[tw wx] wy], b as [[[x y] w] h].
    cbn [box_area accumulate fst] in *. lia.
Qed.

(** The choice made by [max(..., key=area)] on two candidates. *)
Abbreviation pick :=
  (fun best b : Box => if box_area best <? box_area b then b else best).

Lemma fold_pick_filter bs : forall best,
  0 <= box_area best ->
  forallb (fun b => 0 <=? box_area b) bs = true ->
  fold_left pick (filter (fun b => 0 <? box_area b) bs) best
  = fold_left pick bs best.
Proof.
  induction bs as [| b bs IH]; intros best Hbest Hbs; [reflexivity|].
  cbn [forallb] in Hbs. apply andb_prop in Hbs. destruct Hbs as [Hb Hbs].
  apply Z.leb_le in Hb. cbn [filter fold_left].
  destruct (0 <? box_area b) eqn:E; cbn [fold_left].
  - apply IH; [|exact Hbs]. destruct (box_area best <? box_area b); lia.
  - rewrite (nonneg_area_cases b Hb E).
    replace (box_area best <? 0) with false by (symmetry; apply Z.ltb_ge; lia).
    apply IH; assumption.
Qed.

(** The first box of maximal area: every earlier box is strictly smaller,
    no later box is larger. *)
Lemma fold_pick_spec rest : forall pre best mid,
  (forall b, In b pre -> box_area b < box_area best) ->
  (forall b, In b mid -> box_area b <= box_area best) ->
  exists pre' post',
    pre ++ best :: mid ++ rest = pre' ++ fold_left pick rest best :: post' /\
    (forall b, In b pre' -> box_area b < box_area (fold_left pick rest best)) /\
    (forall b, In b post' -> box_area b <= box_area (fold_left pick rest best)).
Proof.
  induction rest as [| c rest IH]; intros pre best mid Hpre Hmid.
  - exists pre, mid. rewrite app_nil_r. auto.
  - cbn [fold_left]. destruct (box_area best <? box_area c) eqn:E.
    + apply Z.ltb_lt in E.
      destruct (IH (pre ++ best :: mid) c []) as (pre' & post' & H1 & H2 & H3).
      * intros b Hb. apply in_app_or in Hb. destruct Hb as [Hb | [<- | Hb]].
        -- specialize (Hpre b Hb). lia.
        -- exact E.
        -- specialize (Hmid b Hb). lia.
      * intros b [].
      * exists pre', post'. split; [|auto].
        rewrite <- H1. rewrite <- app_assoc. reflexivity.
    + apply Z.ltb_ge in E.
      destruct (IH pre best (mid ++ [c])) as (pre' & post' & H1 & H2 & H3).
      * exact Hpre.
      * intros b Hb. apply in_app_or in Hb. destruct Hb as [Hb | [<- | []]].
        -- apply Hmid. exact Hb.
        -- exact E.
      * exists pre', post'. split; [|auto].
        rewrite <- H1. rewrite <- app_assoc. reflexivity.
Qed.

(** X1: when no box has a positive area, whatever their number, the region
    of interest is the centre of the frame with size [(0, 0)]. *)
Theorem region_of_interest_without_area motion_boxes frame_shape :
  (forall b, In b motion_boxes -> box_area b <= 0) ->
  calculate_region_of_interest motion_boxes frame_shape
  = Ok (width frame_shape / 2, height frame_shape / 2, 0, 0).
Proof.
  intros Hbs. unfold calculate_region_of_interest.
  destruct motion_boxes as [| b0 bs]; [reflexivity|].
  pose proof (fold_accumulate_weight (b0 :: bs) (0, 0, 0) Hbs) as Hw.
  destruct (fold_left accumulate (b0 :: bs) (0, 0, 0)) as [[tw wx] wy].
  cbn [fst] in Hw.
  replace (0 <? tw) with false by (symmetry; apply Z.ltb_ge; exact Hw).
  reflexivity.
Qed.

Lemma region_of_interest_without_area_witness :
  calculate_region_of_interest [(10, 20, 0, 5); (1, 2, 7, 0); (3, 3, 0, 0)]
    frame_100
  = Ok (width frame_100 / 2, height frame_100 / 2, 0, 0).
Proof.
  apply region_of_interest_without_area.
  intros b [<- | [<- | [<- | []]]]; vm_compute; discriminate.
Defined.

(** X2: boxes of zero area have no influence: the region of interest of a
    list of boxes is that of its boxes of positive area. *)
Theorem region_of_interest_ignores_empty_boxes motion_boxes frame_shape :
  forallb (fun b => 0 <=? box_area b) motion_boxes = true ->
  calculate_region_of_interest motion_boxes frame_shape
  = calculate_region_of_interest
      (filter (fun b => 0 <? box_area b) motion_boxes) frame_shape.
Proof.
  intros Hbs. unfold calculate_region_of_interest.
  destruct motion_boxes as [| b0 bs]; [reflexivity|].
  rewrite <- (fold_accumulate_filter (b0 :: bs) (0, 0, 0) Hbs).
  destruct (filter (fun b => 0 <? box_area b) (b0 :: bs)) as [| f0 fs] eqn:Ef.
  - reflexivity.
  - destruct (fold_left accumulate (f0 :: fs) (0, 0, 0)) as [[tw wx] wy].
    destruct (0 <? tw); [|reflexivity].
    replace (largest_box f0 fs) with (largest_box b0 bs); [reflexivity|].
    unfold largest_box.
    cbn [forallb] in Hbs. apply andb_prop in Hbs. destruct Hbs as [Hb0 Hbs].
    apply Z.leb_le in Hb0.
    rewrite <- (fold_pick_filter bs b0 Hb0 Hbs).
    cbn [filter] in Ef. destruct (0 <? box_area b0) eqn:E0.
    + injection Ef as <- <-. reflexivity.
    + rewrite Ef. cbn [fold_left].
      assert (Hf0 : 0 < box_area f0).
      { assert (Hin : In f0 (filter (fun b => 0 <? box_area b) bs))
          by (rewrite Ef; left; reflexivity).
        apply filter_In in Hin. destruct Hin as [_ Hin].
        apply Z.ltb_lt in Hin. exact Hin. }
      rewrite (nonneg_area_cases b0 Hb0 E0).
      replace (0 <? box_area f0) with true by (symmetry; apply Z.ltb_lt; lia).
      reflexivity.
Qed.

Lemma region_of_interest_ignores_empty_boxes_witness :
  calculate_region_of_interest
    [(7, 7, 0, 9); (10, 20, 4, 6); (90, 90, 3, 0); (30, 40, 8, 2)] frame_100
  = calculate_region_of_interest
      (filter (fun b => 0 <? box_area b)
         [(7, 7, 0, 9); (10, 20, 4, 6); (90, 90, 3, 0); (30, 40, 8, 2)])
      frame_100.
Proof.
  apply region_of_interest_ignores_empty_boxes. vm_compute. reflexivity.
Defined.

(** X3: the reference size of a region of interest that is not the centre
    fallback is the size of the first box of maximal area: every box before
    it is strictly smaller and no box after it is larger. *)
Theorem region_of_interest_reference_size motion_boxes frame_shape
    roi_x roi_y roi_w roi_h :
  calculate_region_of_interest motion_boxes frame_shape
    = Ok (roi_x, roi_y, roi_w, roi_h) ->
  (roi_x, roi_y, roi_w, roi_h) = frame_center frame_shape \/
  exists before x y after,
    motion_boxes = before ++ (x, y, roi_w, roi_h) :: after /\
    (forall b, In b before -> box_area b < roi_w * roi_h) /\
    (forall b, In b after -> box_area b <= roi_w * roi_h).
Proof.
  unfold calculate_region_of_interest.
  destruct motion_boxes as [| b0 bs].
  { intros H. injection H as <- <- <- <-. left. reflexivity. }
  destruct (fold_left accumulate (b0 :: bs) (0, 0, 0)) as [[tw wx] wy].
  destruct (0 <? tw).
  2:{ intros H. injection H as <- <- <- <-. left. reflexivity. }
  destruct (PyFloat.true_divide wx tw) as [fx|]; [|discriminate]. cbn [bind].
  destruct (PyFloat.to_int fx) as [ax|]; [|discriminate]. cbn [bind].
  destruct (PyFloat.true_divide wy tw) as [fy|]; [|discriminate]. cbn [bind].
  destruct (PyFloat.to_int fy) as [ay|]; [|discriminate]. cbn [bind].
  destruct (fold_pick_spec bs [] b0 []) as (pre & post & H1 & H2 & H3);
    try (intros b []).
  fold (largest_box b0 bs) in H1, H2, H3.
  destruct (largest_box b0 bs) as [[[lx ly] lw] lh].
  intros H. injection H as <- <- <- <-. right.
  exists pre, lx, ly, post. cbn [app] in H1. auto.
Qed.

Lemma region_of_interest_reference_size_witness :
  (47, 35, 6, 4) = frame_center frame_100 \/
  exists before x y after,
    [(10, 20, 2, 3); (40, 30, 6, 4); (60, 40, 4, 6)]
    = before ++ (x, y, 6, 4) :: after /\
    (forall b, In b before -> box_area b < 6 * 4) /\
    (forall b, In b after -> box_area b <= 6 * 4).
Proof.
  apply (region_of_interest_reference_size
           [(10, 20, 2, 3); (40, 30, 6, 4); (60, 40, 4, 6)] frame_100 47 35).
  vm_compute. reflexivity.
Defined.

(** * More on the tracking loop *)

Section LoopFacts.

Variable frames : list Frame.
Variables width0 height0 vp_width vp_height : Z.
Variable smoothing_factor : PyFloat.float.

Local Abbreviation step' :=
  (step frames width0 height0 vp_width vp_height smoothing_factor).
Local Abbreviation loop' :=
  (loop frames width0 height0 vp_width vp_height smoothing_factor).

(** The positions of a prefix of the motion results are a prefix of the
    positions. *)
Lemma loop_app motion_results : forall more i prev ps,
  loop' i (motion_results ++ more) prev = Ok ps ->
  loop' i motion_results prev = Ok (firstn (length motion_results) ps).
Proof.
  induction motion_results as [| mb rest IH]; intros more i prev ps;
    cbn [app loop length firstn]; [reflexivity|].
  destruct (step frames width0 height0 vp_width vp_height smoothing_factor
              i mb prev) as [p | e]; [|discriminate].
  cbn [bind].
  destruct (loop frames width0 height0 vp_width vp_height smoothing_factor
              (S i) (rest ++ more) p) as [ps' | e] eqn:E; [|discriminate].
  cbn [bind]. intros H. injection H as <-.
  rewrite (IH more (S i) p ps' E). reflexivity.
Qed.

(** A started loop does not return once the frames are exhausted. *)
Lemma loop_frames_exhausted motion_results i prev ps :
  (i <= length frames)%nat ->
  (length frames < i + length motion_results)%nat ->
  loop' i motion_results prev <> Ok ps.
Proof.
  intros Hi Hlen Hloop.
  assert (Hk : (length frames - i < length motion_results)%nat) by lia.
  destruct (nth_error motion_results (length frames - i)) as [mb|] eqn:Emb;
    [|apply nth_error_None in Emb; lia].
  destruct (loop_nth _ _ _ _ _ _ _ _ _ _ Hloop _ mb Emb) as (p & _ & Hstep).
  apply step_inv in Hstep. destruct Hstep as (frame & _ & _ & _ & _ & _ & _ & Ef & _).
  assert (Hnone : nth_error frames (i + (length frames - i)) = None)
    by (apply nth_error_None; lia).
  congruence.
Qed.

Hypothesis frames_valid : forallb valid_frame frames = true.
Hypothesis width0_valid : pixel_size width0 = true.
Hypothesis height0_valid : pixel_size height0 = true.
Hypothesis viewport_valid : valid_viewport (vp_width, vp_height) = true.
Hypothesis smoothing_valid : valid_smoothing smoothing_factor = true.

(** On well-formed inputs the exception is [IndexError]. *)
Lemma loop_index_error motion_results : forall i prev,
  (i <= length frames)%nat ->
  (length frames < i + length motion_results)%nat ->
  forallb (forallb valid_box) motion_results = true ->
  Z.abs (fst prev) < 2 ^ 34 -> Z.abs (snd prev) < 2 ^ 34 ->
  loop' i motion_results prev = Raise IndexError.
Proof.
  induction motion_results as [| mb rest IH]; intros i prev Hi Hlen Hboxes Hx Hy;
    cbn [loop length] in *; [lia|].
  cbn [forallb] in Hboxes. apply andb_prop in Hboxes.
  destruct Hboxes as [Hmb Hrest].
  destruct (Nat.eq_dec i (length frames)) as [-> | Hne].
  - unfold step. destruct prev as [px py].
    replace (nth_error frames (length frames)) with (@None Frame)
      by (symmetry; apply nth_error_None; lia).
    reflexivity.
  - destruct (step_ok frames width0 height0 vp_width vp_height
                smoothing_factor frames_valid width0_valid height0_valid
                viewport_valid smoothing_valid i mb prev ltac:(lia) Hmb Hx Hy)
      as (p & Ep & Bx & By).
    rewrite Ep. cbn [bind].
    rewrite (IH (S i) p ltac:(lia) ltac:(lia) Hrest Bx By). reflexivity.
Qed.

End LoopFacts.

(** Frames after the last motion result are not read. *)
Lemma step_app frames extra width0 height0 vp_width vp_height
    smoothing_factor i motion_boxes prev :
  (i < length frames)%nat ->
  step (frames ++ extra) width0 height0 vp_width vp_height smoothing_factor
    i motion_boxes prev
  = step frames width0 height0 vp_width vp_height smoothing_factor
      i motion_boxes prev.
Proof.
  intros Hi. unfold step. rewrite nth_error_app1 by exact Hi. reflexivity.
Qed.

Lemma loop_frames_app frames extra width0 height0 vp_width vp_height
    smoothing_factor motion_results : forall i prev,
  (i + length motion_results <= length frames)%nat ->
  loop (frames ++ extra) width0 height0 vp_width vp_height smoothing_factor
    i motion_results prev
  = loop frames width0 height0 vp_width vp_height smoothing_factor
      i motion_results prev.
Proof.
  induction motion_results as [| mb rest IH]; intros i prev Hlen;
    cbn [loop length] in *; [reflexivity|].
  rewrite step_app by lia.
  destruct (step frames width0 height0 vp_width vp_height smoothing_factor
              i mb prev) as [p | e]; [|reflexivity].
  cbn [bind]. rewrite IH by lia. reflexivity.
Qed.

(** X4: with more motion results than frames, [track_viewport] on a
    non-empty list of frames never returns; on well-formed input the
    exception is [IndexError]. *)
Theorem more_motion_results_than_frames frames motion_results viewport_size
    smoothing_factor :
  frames <> [] ->
  (length frames < length motion_results)%nat ->
  (forall ps,
     track_viewport frames motion_results viewport_size smoothing_factor
     <> Ok ps) /\
  (well_formed frames motion_results viewport_size smoothing_factor = true ->
   track_viewport frames motion_results viewport_size smoothing_factor
   = Raise IndexError).
Proof.
  intros Hne Hlen. destruct frames as [| frame0 frames']; [congruence|].
  destruct viewport_size as [vp_width vp_height]. unfold track_viewport.
  split.
  - intros ps. apply loop_frames_exhausted; cbn [length Nat.add] in *; lia.
  - unfold well_formed. intros Hwf.
    apply andb_prop in Hwf. destruct Hwf as [Hwf Ha].
    apply andb_prop in Hwf. destruct Hwf as [Hwf Hvp].
    apply andb_prop in Hwf. destruct Hwf as [Hfr Hmr].
    assert (Hf0 : valid_frame frame0 = true).
    { cbn [forallb] in Hfr. apply andb_prop in Hfr. tauto. }
    pose proof Hf0 as Hf0'. unfold valid_frame in Hf0'.
    apply andb_prop in Hf0'. destruct Hf0' as [Hh0 Hw0].
    pose proof (pixel_size_spec _ Hh0). pose proof (pixel_size_spec _ Hw0).
    apply loop_index_error; try assumption; try lia.
    + cbn [fst].
      pose proof (half_bounds (width frame0) ltac:(lia)).
      change (2 ^ 34) with (8 * 2 ^ 31). lia.
    + cbn [snd].
      pose proof (half_bounds (height frame0) ltac:(lia)).
      change (2 ^ 34) with (8 * 2 ^ 31). lia.
Qed.

Lemma more_motion_results_than_frames_witness :
  (forall ps,
     track_viewport [frame_100] pair_motion (20, 20) PyFloat.lit_0_3
     <> Ok ps) /\
  track_viewport [frame_100] pair_motion (20, 20) PyFloat.lit_0_3
  = Raise IndexError.
Proof.
  destruct (more_motion_results_than_frames [frame_100] pair_motion (20, 20)
              PyFloat.lit_0_3 ltac:(discriminate) ltac:(cbn; lia)) as [H1 H2].
  split; [exact H1 | apply H2; vm_compute; reflexivity].
Defined.

(** X5: the positions computed for a prefix of the motion results are the
    prefix of the positions: a position does not depend on later motion
    results. *)
Theorem track_viewport_prefix frames motion_results more viewport_size
    smoothing_factor ps :
  track_viewport frames (motion_results ++ more) viewport_size
    smoothing_factor = Ok ps ->
  track_viewport frames motion_results viewport_size smoothing_factor
  = Ok (firstn (length motion_results) ps).
Proof.
  destruct viewport_size as [vp_width vp_height]. unfold track_viewport.
  destruct frames as [| frame0 frames'].
  - intros H. injection H as <-. rewrite firstn_nil. reflexivity.
  - apply loop_app.
Qed.

Lemma track_viewport_prefix_witness :
  track_viewport pair_frames ([[]] ++ [[(51, 49, 2, 2)]]) (20, 20)
    PyFloat.lit_0_3
  = Ok [(50, 50); (50, 50)] /\
  track_viewport pair_frames [[]] (20, 20) PyFloat.lit_0_3
  = Ok (firstn (length [[] : list Box]) [(50, 50); (50, 50)]).
Proof.
  assert (H : track_viewport pair_frames ([[]] ++ [[(51, 49, 2, 2)]]) (20, 20)
                PyFloat.lit_0_3 = Ok [(50, 50); (50, 50)])
    by (vm_compute; reflexivity).
  split; [exact H | exact (track_viewport_prefix _ _ _ _ _ _ H)].
Defined.

(** X6: frames beyond the last motion result are never read: appending
    frames does not change the result. *)
Theorem track_viewport_ignores_extra_frames frames extra motion_results
    viewport_size smoothing_factor :
  frames <> [] ->
  (length motion_results <= length frames)%nat ->
  track_viewport (frames ++ extra) motion_results viewport_size
    smoothing_factor
  = track_viewport frames motion_results viewport_size smoothing_factor.
Proof.
  intros Hne Hlen. destruct frames as [| frame0 frames']; [congruence|].
  destruct viewport_size as [vp_width vp_height].
  cbn [app]. unfold track_viewport.
  change (frame0 :: frames' ++ extra) with ((frame0 :: frames') ++ extra).
  apply loop_frames_app. cbn [Nat.add]. exact Hlen.
Qed.

Lemma track_viewport_ignores_extra_frames_witness :
  track_viewport (pair_frames ++ [frame_40]) pair_motion (20, 20)
    PyFloat.lit_0_3
  = track_viewport pair_frames pair_motion (20, 20) PyFloat.lit_0_3.
Proof.
  apply track_viewport_ignores_extra_frames; [discriminate | cbn; lia].
Defined.

(** * More on detect_motion *)

Section MoreCv2Facts.

Variables image gray mask contour : Type.
Variable cvtColor_BGR2GRAY : image -> result gray.
Variable GaussianBlur : gray -> Z * Z -> Z -> result gray.
Variable absdiff : gray -> gray -> result gray.
Variable threshold_BINARY : gray -> Q -> Z -> result mask.
Variable dilate : mask -> Z * Z -> Z -> result mask.
Variable findContours_EXTERNAL : mask -> result (list contour).
Variable contourArea : contour -> Q.
Variable boundingRect : contour -> MotionDetector.Box.

Local Abbreviation detect_motion :=
  (MotionDetector.detect_motion image gray mask contour
     cvtColor_BGR2GRAY GaussianBlur absdiff threshold_BINARY dilate
     findContours_EXTERNAL contourArea boundingRect).
Local Abbreviation find_motion_contours :=
  (MotionDetector.find_motion_contours image gray mask contour
     cvtColor_BGR2GRAY GaussianBlur absdiff threshold_BINARY dilate
     findContours_EXTERNAL).
Local Abbreviation above min_area :=
  (fun c => MotionDetector.Qgtb (contourArea c) min_area).

Lemma detect_motion_unfold frames frame_idx threshold min_area :
  1 <= frame_idx < Z.of_nat (length frames) ->
  exists current_frame prev_frame,
    nth_error frames (Z.to_nat frame_idx) = Some current_frame /\
    nth_error frames (Z.to_nat (frame_idx - 1)) = Some prev_frame /\
    detect_motion frames frame_idx threshold min_area =
    (contours <- find_motion_contours current_frame prev_frame threshold ;;
     Ok (map boundingRect (filter (above min_area) contours))).
Proof.
  intros Hidx. unfold MotionDetector.detect_motion.
  replace (frame_idx <? 1) with false by (symmetry; apply Z.ltb_ge; lia).
  replace (Z.of_nat (length frames) <=? frame_idx) with false
    by (symmetry; apply Z.leb_gt; lia).
  cbn [orb].
  destruct (nth_error frames (Z.to_nat frame_idx)) as [cur|] eqn:Ecur;
    [|apply nth_error_None in Ecur; lia].
  destruct (nth_error frames (Z.to_nat (frame_idx - 1))) as [prev|] eqn:Eprev;
    [|apply nth_error_None in Eprev; lia].
  exists cur, prev. split; [reflexivity|]. split; [reflexivity|].
  destruct (MotionDetector.find_motion_contours image gray mask contour
              cvtColor_BGR2GRAY GaussianBlur absdiff threshold_BINARY dilate
              findContours_EXTERNAL cur prev threshold) as [contours | e];
    cbn [bind]; [|reflexivity].
  unfold MotionDetector.filter_contours.
  rewrite (filter_loop_spec contour contourArea boundingRect min_area
             contours []).
  reflexivity.
Qed.

Lemma above_monotone min_area min_area' c :
  (min_area <= min_area')%Q ->
  above min_area' c = true -> above min_area c = true.
Proof.
  intros Hle H. apply Qgtb_spec in H. apply Qgtb_spec.
  eapply Qle_lt_trans; eassumption.
Qed.

Lemma filter_subsequence min_area min_area' contours :
  (min_area <= min_area')%Q ->
  subsequence (map boundingRect (filter (above min_area') contours))
              (map boundingRect (filter (above min_area) contours)).
Proof.
  intros Hle. induction contours as [| c cs IH]; cbn [filter map].
  - constructor.
  - destruct (MotionDetector.Qgtb (contourArea c) min_area') eqn:E'.
    + rewrite (above_monotone min_area min_area' c Hle E').
      cbn [map]. apply subsequence_keep. exact IH.
    + destruct (MotionDetector.Qgtb (contourArea c) min_area); cbn [map];
        [apply subsequence_skip|]; exact IH.
Qed.

(** X7: for an index in [[1, len(frames))] the frames at that index and
    the one before are compared; when the contours are found the result is
    exactly the bounding rectangles of those whose area exceeds [min_area],
    one per contour and in the order of the contours; an exception of
    OpenCV is passed on. *)
Theorem detect_motion_in_range frames frame_idx threshold min_area :
  1 <= frame_idx < Z.of_nat (length frames) ->
  exists current_frame prev_frame,
    nth_error frames (Z.to_nat frame_idx) = Some current_frame /\
    nth_error frames (Z.to_nat (frame_idx - 1)) = Some prev_frame /\
    (forall contours,
       find_motion_contours current_frame prev_frame threshold = Ok contours ->
       detect_motion frames frame_idx threshold min_area
       = Ok (map boundingRect
               (filter (fun c => MotionDetector.Qgtb (contourArea c) min_area)
                  contours))) /\
    (forall e,
       find_motion_contours current_frame prev_frame threshold = Raise e ->
       detect_motion frames frame_idx threshold min_area = Raise e).
Proof.
  intros Hidx.
  destruct (detect_motion_unfold frames frame_idx threshold min_area Hidx)
    as (cur & prev & E1 & E2 & E).
  exists cur, prev. split; [exact E1|]. split; [exact E2|].
  rewrite E. split.
  - intros contours ->. reflexivity.
  - intros e ->. reflexivity.
Qed.

(** X8: raising [min_area] only removes boxes: the boxes found with a
    larger [min_area] are a subsequence of those found with a smaller
    one. *)
Theorem detect_motion_min_area_monotone frames frame_idx threshold
    min_area min_area' boxes' :
  (min_area <= min_area')%Q ->
  detect_motion frames frame_idx threshold min_area' = Ok boxes' ->
  exists boxes,
    detect_motion frames frame_idx threshold min_area = Ok boxes /\
    subsequence boxes' boxes.
Proof.
  intros Hle.
  destruct (Z_lt_le_dec frame_idx 1) as [Hlo | Hlo];
    [|destruct (Z_lt_le_dec frame_idx (Z.of_nat (length frames)))
        as [Hhi | Hhi]].
  - unfold MotionDetector.detect_motion.
    replace (frame_idx <? 1) with true by (symmetry; apply Z.ltb_lt; lia).
    cbn [orb]. intros H. injection H as <-. exists []. split; constructor.
  - destruct (detect_motion_unfold frames frame_idx threshold min_area
                ltac:(lia)) as (cur & prev & E1 & E2 & E).
    destruct (detect_motion_unfold frames frame_idx threshold min_area'
                ltac:(lia)) as (cur' & prev' & E1' & E2' & E').
    rewrite E, E'.
    assert (cur' = cur) by congruence. assert (prev' = prev) by congruence.
    subst cur' prev'.
    destruct (MotionDetector.find_motion_contours image gray mask contour
                cvtColor_BGR2GRAY GaussianBlur absdiff threshold_BINARY dilate
                findContours_EXTERNAL cur prev threshold) as [contours | e];
      cbn [bind]; [|discriminate].
    intros H. injection H as <-. eexists. split; [reflexivity|].
    apply filter_subsequence. exact Hle.
  - unfold MotionDetector.detect_motion.
    replace (Z.of_nat (length frames) <=? frame_idx) with true
      by (symmetry; apply Z.leb_le; lia).
    rewrite orb_true_r. intros H. injection H as <-.
    exists []. split; constructor.
Qed.

(** X9: the result depends on the two compared frames only, not on the
    index nor on the other frames: two in-range indices, possibly in two
    lists, with the same current and previous frame give the same result. *)
Theorem detect_motion_local frames frames' frame_idx frame_idx' threshold
    min_area :
  1 <= frame_idx < Z.of_nat (length frames) ->
  1 <= frame_idx' < Z.of_nat (length frames') ->
  nth_error frames (Z.to_nat frame_idx)
    = nth_error frames' (Z.to_nat frame_idx') ->
  nth_error frames (Z.to_nat (frame_idx - 1))
    = nth_error frames' (Z.to_nat (frame_idx' - 1)) ->
  detect_motion frames frame_idx threshold min_area
  = detect_motion frames' frame_idx' threshold min_area.
Proof.
  intros Hi Hi' H1 H2.
  destruct (detect_motion_unfold frames frame_idx threshold min_area Hi)
    as (cur & prev & E1 & E2 & E).
  destruct (detect_motion_unfold frames' frame_idx' threshold min_area Hi')
    as (cur' & prev' & E1' & E2' & E').
  rewrite E, E'.
  assert (cur' = cur) by congruence. assert (prev' = prev) by congruence.
  subst cur' prev'. reflexivity.
Qed.

End MoreCv2Facts.

Lemma detect_motion_in_range_witness :
  exists current_frame prev_frame,
    nth_error ToyCv2.frames (Z.to_nat 1) = Some current_frame /\
    nth_error ToyCv2.frames (Z.to_nat (1 - 1)) = Some prev_frame /\
    (forall contours,
       ToyCv2.find_motion_contours current_frame prev_frame 25%Q
         = Ok contours ->
       ToyCv2.detect_motion ToyCv2.frames 1 25%Q 100%Q
       = Ok (map ToyCv2.boundingRect
               (filter
                  (fun c => MotionDetector.Qgtb (ToyCv2.contourArea c) 100%Q)
                  contours))) /\
    (forall e,
       ToyCv2.find_motion_contours current_frame prev_frame 25%Q = Raise e ->
       ToyCv2.detect_motion ToyCv2.frames 1 25%Q 100%Q = Raise e).
Proof.
  apply (detect_motion_in_range _ _ _ _ _ _ _ _ _ _ _ _ ToyCv2.frames 1
           25%Q 100%Q).
  cbn. lia.
Defined.

Lemma detect_motion_min_area_monotone_witness :
  exists boxes,
    ToyCv2.detect_motion ToyCv2.frames 1 25%Q 50%Q = Ok boxes /\
    subsequence [(1, 2, 30, 40)] boxes.
Proof.
  apply (detect_motion_min_area_monotone _ _ _ _ _ _ _ _ _ _ _ _
           ToyCv2.frames 1 25%Q 50%Q 100%Q);
    [discriminate | vm_compute; reflexivity].
Defined.

Lemma detect_motion_local_witness :
  ToyCv2.detect_motion ToyCv2.frames 1 25%Q 100%Q
  = ToyCv2.detect_motion
      ([(500%Q, (0, 0, 9, 9))] :: ToyCv2.frames) 2 25%Q 100%Q.
Proof.
  apply detect_motion_local; try reflexivity; cbn; lia.
Defined.

(** * The viewport drawn by visualize_results *)

Lemma slice_length_inside n start stop :
  0 <= start -> start <= stop -> stop <= n ->
  Visualizer.slice_length n start stop = stop - start.
Proof.
  intros H1 H2 H3. unfold Visualizer.slice_length, Visualizer.slice_index.
  replace (stop <? 0) with false by (symmetry; apply Z.ltb_ge; lia).
  replace (start <? 0) with false by (symmetry; apply Z.ltb_ge; lia).
  lia.
Qed.

Lemma half_twice a : 2 * (a / 2) = a - Z.b2z (Z.odd a).
Proof. pose proof (Z.div2_odd a) as H. rewrite Z.div2_div in H. lia. Qed.

Lemma half_twice_eqb a : (2 * (a / 2) =? a) = negb (Z.odd a).
Proof.
  rewrite half_twice. destruct (Z.odd a); cbn [Z.b2z negb];
    [apply Z.eqb_neq | apply Z.eqb_eq]; lia.
Qed.

(** Every position of [track_viewport] is a clamped value. *)
Lemma track_viewport_clamped frame0 frames motion_results vp_width vp_height
    smoothing_factor ps p :
  track_viewport (frame0 :: frames) motion_results (vp_width, vp_height)
    smoothing_factor = Ok ps ->
  In p ps ->
  exists smooth_x smooth_y,
    p = (clamp (vp_width / 2) (width frame0 - vp_width / 2) smooth_x,
         clamp (vp_height / 2) (height frame0 - vp_height / 2) smooth_y).
Proof.
  intros Htrack Hin.
  destruct (In_nth_error _ _ Hin) as [i Ep].
  destruct (track_viewport_nth _ _ _ _ _ _ _ _ _ Htrack Ep)
    as (mb & Emb & Hstep).
  apply step_inv in Hstep.
  destruct Hstep as (frame & rx & ry & rw & rh & sx & sy & _ & _ & _ & ->).
  exists sx, sy. reflexivity.
Qed.

(** The position used for frame [i]: a position of the list, or the centre
    of the first frame. *)
Lemma drawn_position_cases (ps : list Position) i center :
  In (nth i ps center) ps \/ nth i ps center = center.
Proof.
  destruct (nth_in_or_default i ps center) as [H | H]; auto.
Qed.

Lemma in_enumerate {A : Type} (l : list A) i x :
  In (i, x) (Visualizer.enumerate l) -> In x l.
Proof. unfold Visualizer.enumerate. apply in_combine_r. Qed.

(** One axis of the viewport rectangle for a position in the clamp range
    of a viewport that fits. *)
Lemma axis_inside vp size x :
  0 <= vp -> vp / 2 <= x <= size - vp / 2 ->
  Z.max 0 (x - vp / 2) = x - vp / 2 /\
  Z.min size (x + vp / 2) = x + vp / 2 /\
  0 <= x - vp / 2 /\ x - vp / 2 <= x + vp / 2 /\ x + vp / 2 <= size.
Proof.
  intros Hvp Hx. pose proof (half_bounds vp Hvp). lia.
Qed.

(** One axis for a viewport larger than the frame. *)
Lemma axis_oversized vp size x :
  0 <= size < vp -> x = vp / 2 \/ x = size / 2 ->
  Z.max 0 (x - vp / 2) = 0 /\ Z.min size (x + vp / 2) = size.
Proof.
  intros Hs Hx.
  pose proof (Z.div_mod vp 2 ltac:(lia)).
  pose proof (Z.mod_pos_bound vp 2 ltac:(lia)).
  pose proof (Z.div_mod size 2 ltac:(lia)).
  pose proof (Z.mod_pos_bound size 2 ltac:(lia)).
  destruct Hx as [-> | ->]; lia.
Qed.

(** A loop that returns has run its body on every element. *)
Lemma for_each_inv {A B : Type} (f : A -> result B) l : forall ys,
  Visualizer.for_each f l = Ok ys -> Forall2 (fun x y => f x = Ok y) l ys.
Proof.
  induction l as [| x rest IH]; intros ys H; cbn [Visualizer.for_each] in H.
  - injection H as <-. constructor.
  - destruct (f x) as [y | e] eqn:Ey; cbn [bind] in H; [|discriminate].
    destruct (Visualizer.for_each f rest) as [ys' | e] eqn:Eys; cbn [bind] in H;
      [|discriminate].
    injection H as <-. constructor; [exact Ey | apply IH; reflexivity].
Qed.

Lemma Forall2_in_r {A B : Type} (R : A -> B -> Prop) l ys y :
  Forall2 R l ys -> In y ys -> exists x, In x l /\ R x y.
Proof.
  induction 1 as [| x y' l ys Hxy _ IH]; intros Hin; [contradiction|].
  destruct Hin as [<- | Hin].
  - exists x. split; [left; reflexivity | exact Hxy].
  - destruct (IH Hin) as (x' & Hx' & HR). exists x'. split; [right|]; assumption.
Qed.

Section Drawings.

Variables image writer : Type.
Variable shape : image -> Frame.
Variable crop : image -> Z * Z * Z * Z -> image.
Variable makedirs : Visualizer.directory -> result unit.
Variable VideoWriter : Visualizer.video -> Z * Z -> result writer.
Variable rectangle :
  image -> Position -> Position -> Z * Z * Z -> Z -> result image.
Variable resize : image -> Z * Z -> result image.
Variable putText : image -> Visualizer.label -> result image.
Variable imwrite : Visualizer.directory -> nat -> image -> result unit.
Variable write : writer -> image -> result unit.
Variable release : writer -> result unit.

Abbreviation draw' :=
  (Visualizer.draw image writer shape crop rectangle resize putText imwrite
     write).
Abbreviation visualize_results' :=
  (Visualizer.visualize_results image writer shape crop makedirs VideoWriter
     rectangle resize putText imwrite write release).

(** The drawing of a frame whose calls all returned. *)
Lemma draw_inv width height vp_width vp_height total video_writer
    viewport_writer motion_results viewport_positions i frame d :
  draw' width height vp_width vp_height total video_writer viewport_writer
    motion_results viewport_positions i frame = Ok d ->
  let viewport_rectangle :=
    Visualizer.viewport_rectangle width height vp_width vp_height
      (nth i viewport_positions (width / 2, height / 2)) in
  let viewport_shape := Visualizer.crop_shape (shape frame) viewport_rectangle in
  Visualizer.viewport d = viewport_rectangle /\
  Visualizer.content_shape d = viewport_shape /\
  Visualizer.resized d
  = negb ((fst viewport_shape =? vp_height)
          && (snd viewport_shape =? vp_width)).
Proof.
  unfold Visualizer.draw. cbv zeta.
  destruct (Visualizer.draw_boxes _ _ _ _) as [v1 | e]; cbn [bind];
    [|discriminate].
  destruct (Visualizer.viewport_rectangle _ _ _ _ _) as [[[l t] r] b].
  destruct (rectangle v1 _ _ _ _) as [v2 | e]; cbn [bind]; [|discriminate].
  match goal with
  | |- context [bind ?c _] => destruct c as [v3 | e]; cbn [bind]; [|discriminate]
  end.
  destruct (putText v2 _) as [v4 | e]; cbn [bind]; [|discriminate].
  destruct (putText v3 _) as [v5 | e]; cbn [bind]; [|discriminate].
  destruct (imwrite _ _ v4) as [[] | e]; cbn [bind]; [|discriminate].
  destruct (imwrite _ _ v5) as [[] | e]; cbn [bind]; [|discriminate].
  destruct (write _ v4) as [[] | e]; cbn [bind]; [|discriminate].
  destruct (write _ v5) as [[] | e]; cbn [bind]; [|discriminate].
  intros H. injection H as <-. repeat split.
Qed.

Variable frame0 : image.
Variable frames : list image.
Variable motion_results : list (list Box).
Variables vp_width vp_height : Z.
Variable smoothing_factor : PyFloat.float.
Variable ps : list Position.

Hypothesis same_shape :
  Forall (fun frame => shape frame = shape frame0) frames.
Hypothesis tracked :
  track_viewport (map shape (frame0 :: frames)) motion_results
    (vp_width, vp_height) smoothing_factor = Ok ps.

(** A run that returns made one drawing for each frame. *)
Lemma visualize_results_inv ds :
  visualize_results' (frame0 :: frames) motion_results ps
    (vp_width, vp_height) = Ok ds ->
  exists video_writer viewport_writer,
    Forall2
      (fun '(i, frame) d =>
         draw' (width (shape frame0)) (height (shape frame0))
           vp_width vp_height (length (frame0 :: frames))
           video_writer viewport_writer motion_results ps i frame = Ok d)
      (Visualizer.enumerate (frame0 :: frames)) ds.
Proof.
  unfold Visualizer.visualize_results.
  destruct (makedirs Visualizer.frames_dir) as [[] | e]; cbn [bind];
    [|discriminate].
  destruct (makedirs Visualizer.viewport_dir) as [[] | e]; cbn [bind];
    [|discriminate].
  destruct (VideoWriter Visualizer.motion_detection _) as [w1 | e];
    cbn [bind]; [|discriminate].
  destruct (VideoWriter Visualizer.viewport_tracking _) as [w2 | e];
    cbn [bind]; [|discriminate].
  destruct (Visualizer.for_each _ _) as [ds' | e] eqn:Eloop; cbn [bind];
    [|discriminate].
  destruct (release w1) as [[] | e]; cbn [bind]; [|discriminate].
  destruct (release w2) as [[] | e]; cbn [bind]; [|discriminate].
  intros H. injection H as <-.
  exists w1, w2. apply for_each_inv in Eloop.
  eapply Forall2_impl; [|exact Eloop]. intros [i frame] d H. exact H.
Qed.

Lemma visualize_results_length ds :
  visualize_results' (frame0 :: frames) motion_results ps
    (vp_width, vp_height) = Ok ds ->
  length ds = length (frame0 :: frames).
Proof.
  intros H. destruct (visualize_results_inv ds H) as (w1 & w2 & HF).
  apply Forall2_length in HF. rewrite <- HF.
  unfold Visualizer.enumerate. rewrite length_combine, length_seq. lia.
Qed.

(** What is known of a drawing: its frame has the shape of the first one
    and its position is a clamped value or the centre. *)
Lemma drawing_inv ds d :
  visualize_results' (frame0 :: frames) motion_results ps
    (vp_width, vp_height) = Ok ds ->
  In d ds ->
  exists x y,
    let viewport_rectangle :=
      Visualizer.viewport_rectangle (width (shape frame0))
        (height (shape frame0)) vp_width vp_height (x, y) in
    let viewport_shape :=
      Visualizer.crop_shape (shape frame0) viewport_rectangle in
    Visualizer.viewport d = viewport_rectangle /\
    Visualizer.content_shape d = viewport_shape /\
    Visualizer.resized d
    = negb ((fst viewport_shape =? vp_height)
            && (snd viewport_shape =? vp_width)) /\
    ((exists sx,
        x = clamp (vp_width / 2) (width (shape frame0) - vp_width / 2) sx)
     \/ x = width (shape frame0) / 2) /\
    ((exists sy,
        y = clamp (vp_height / 2) (height (shape frame0) - vp_height / 2) sy)
     \/ y = height (shape frame0) / 2).
Proof.
  intros H Hin. destruct (visualize_results_inv ds H) as (w1 & w2 & HF).
  destruct (Forall2_in_r _ _ _ _ HF Hin) as ([i frame] & Hif & Hd).
  apply in_enumerate in Hif.
  assert (Ef : shape frame = shape frame0).
  { destruct Hif as [<- | Hif]; [reflexivity|].
    rewrite Forall_forall in same_shape. apply same_shape. exact Hif. }
  apply draw_inv in Hd. cbv zeta in Hd. rewrite Ef in Hd.
  destruct (nth i ps (width (shape frame0) / 2, height (shape frame0) / 2))
    as [x y] eqn:Ep.
  exists x, y. cbv zeta.
  destruct Hd as (H1 & H2 & H3).
  split; [exact H1|]. split; [exact H2|]. split; [exact H3|].
  destruct (drawn_position_cases ps i
              (width (shape frame0) / 2, height (shape frame0) / 2))
    as [Hp | Hp]; rewrite Ep in Hp.
  - cbn [map] in tracked.
    destruct (track_viewport_clamped _ _ _ _ _ _ _ _ tracked Hp)
      as (sx & sy & E). injection E as -> ->. split; left; eauto.
  - injection Hp as -> ->. split; right; reflexivity.
Qed.

End Drawings.

(** X10: when the viewport fits in the frames, which all have the shape of
    the first one, a run of [visualize_results] on the positions of
    [track_viewport] that returns has made one drawing for each frame; the
    viewport drawn is never cut at the frame bounds; the content cut out is
    [2 * (vp_height // 2)] by [2 * (vp_width // 2)] pixels, so that it is
    resized exactly when a side of the viewport is odd. *)
Theorem viewport_inside_frame (image writer : Type) shape crop makedirs
    VideoWriter rectangle resize putText imwrite write release
    frame0 frames motion_results vp_width vp_height smoothing_factor ps ds :
  0 <= vp_width <= width (shape frame0) ->
  0 <= vp_height <= height (shape frame0) ->
  Forall (fun frame => shape frame = shape frame0) frames ->
  track_viewport (map shape (frame0 :: frames)) motion_results
    (vp_width, vp_height) smoothing_factor = Ok ps ->
  Visualizer.visualize_results image writer shape crop makedirs VideoWriter
    rectangle resize putText imwrite write release
    (frame0 :: frames) motion_results ps (vp_width, vp_height) = Ok ds ->
  length ds = length (frame0 :: frames) /\
  Forall (fun d =>
            let '(vp_left, vp_top, vp_right, vp_bottom) :=
              Visualizer.viewport d in
            0 <= vp_left /\ vp_right = vp_left + 2 * (vp_width / 2) /\
            vp_right <= width (shape frame0) /\
            0 <= vp_top /\ vp_bottom = vp_top + 2 * (vp_height / 2) /\
            vp_bottom <= height (shape frame0) /\
            Visualizer.content_shape d
            = (2 * (vp_height / 2), 2 * (vp_width / 2)) /\
            Visualizer.resized d = Z.odd vp_width || Z.odd vp_height) ds.
Proof.
  intros Hw Hh Hshape Htrack Hdraw.
  split; [eapply visualize_results_length; exact Hdraw|].
  apply Forall_forall. intros d Hin.
  destruct (drawing_inv _ _ _ _ _ _ _ _ _ _ _ _ _ _ _ _ _ _ _ Hshape Htrack
              ds d Hdraw Hin) as (x & y & Hd).
  cbv zeta in Hd. destruct Hd as (Ev & Ec & Er & Hx & Hy).
  assert (Rx : vp_width / 2 <= x <= width (shape frame0) - vp_width / 2).
  { pose proof (half_range vp_width (width (shape frame0)) ltac:(lia)) as Hr.
    destruct Hx as [[sx ->] | ->];
      [apply clamp_in_range | apply center_in_range]; exact Hr. }
  assert (Ry : vp_height / 2 <= y <= height (shape frame0) - vp_height / 2).
  { pose proof (half_range vp_height (height (shape frame0)) ltac:(lia))
      as Hr.
    destruct Hy as [[sy ->] | ->];
      [apply clamp_in_range | apply center_in_range]; exact Hr. }
  destruct (axis_inside vp_width (width (shape frame0)) x ltac:(lia) Rx)
    as (L1 & L2 & L3 & L4 & L5).
  destruct (axis_inside vp_height (height (shape frame0)) y ltac:(lia) Ry)
    as (T1 & T2 & T3 & T4 & T5).
  rewrite Ev, Ec, Er.
  unfold Visualizer.viewport_rectangle, Visualizer.crop_shape.
  rewrite L1, L2, T1, T2.
  rewrite !slice_length_inside by lia. cbn [fst snd].
  replace (y + vp_height / 2 - (y - vp_height / 2))
    with (2 * (vp_height / 2)) by lia.
  replace (x + vp_width / 2 - (x - vp_width / 2))
    with (2 * (vp_width / 2)) by lia.
  rewrite !half_twice_eqb.
  repeat split; try lia.
  destruct (Z.odd vp_width), (Z.odd vp_height); reflexivity.
Qed.

Lemma viewport_inside_frame_witness :
  length
    [ {| Visualizer.motion_rectangles := [];
         Visualizer.viewport := (40, 40, 60, 60);
         Visualizer.content_shape := (20, 20);
         Visualizer.resized := true |};
      {| Visualizer.motion_rectangles := [((51, 49), (53, 51))];
         Visualizer.viewport := (40, 40, 60, 60);
         Visualizer.content_shape := (20, 20);
         Visualizer.resized := true |} ]
  = length [frame_100; frame_100] /\
  Forall (fun d =>
            let '(vp_left, vp_top, vp_right, vp_bottom) :=
              Visualizer.viewport d in
            0 <= vp_left /\ vp_right = vp_left + 2 * (21 / 2) /\
            vp_right <= width (ToyDraw.shape frame_100) /\
            0 <= vp_top /\ vp_bottom = vp_top + 2 * (20 / 2) /\
            vp_bottom <= height (ToyDraw.shape frame_100) /\
            Visualizer.content_shape d = (2 * (20 / 2), 2 * (21 / 2)) /\
            Visualizer.resized d = Z.odd 21 || Z.odd 20)
    [ {| Visualizer.motion_rectangles := [];
         Visualizer.viewport := (40, 40, 60, 60);
         Visualizer.content_shape := (20, 20);
         Visualizer.resized := true |};
      {| Visualizer.motion_rectangles := [((51, 49), (53, 51))];
         Visualizer.viewport := (40, 40, 60, 60);
         Visualizer.content_shape := (20, 20);
         Visualizer.resized := true |} ].
Proof.
  apply (viewport_inside_frame ToyDraw.image unit ToyDraw.shape ToyDraw.crop
           ToyDraw.makedirs ToyDraw.VideoWriter ToyDraw.rectangle
           ToyDraw.resize ToyDraw.putText ToyDraw.imwrite ToyDraw.write
           ToyDraw.release frame_100 [frame_100] pair_motion 21 20
           PyFloat.lit_0_3 [(50, 50); (50, 50)]).
  - cbn. lia.
  - cbn. lia.
  - repeat constructor.
  - vm_compute. reflexivity.
  - vm_compute. reflexivity.
Defined.

(** X11: on an axis where the viewport is larger than the frames, which
    all have the shape of the first one, the viewport drawn in a run that
    returns spans the whole frame on that axis, whatever the motion, and
    [cv2.resize] is called on its content. *)
Theorem oversized_viewport_shows_whole_frame (image writer : Type) shape crop
    makedirs VideoWriter rectangle resize putText imwrite write release
    frame0 frames motion_results vp_width vp_height smoothing_factor ps ds :
  0 <= width (shape frame0) -> 0 <= height (shape frame0) ->
  Forall (fun frame => shape frame = shape frame0) frames ->
  track_viewport (map shape (frame0 :: frames)) motion_results
    (vp_width, vp_height) smoothing_factor = Ok ps ->
  Visualizer.visualize_results image writer shape crop makedirs VideoWriter
    rectangle resize putText imwrite write release
    (frame0 :: frames) motion_results ps (vp_width, vp_height) = Ok ds ->
  length ds = length (frame0 :: frames) /\
  Forall (fun d =>
            let '(vp_left, vp_top, vp_right, vp_bottom) :=
              Visualizer.viewport d in
            (width (shape frame0) < vp_width ->
             vp_left = 0 /\ vp_right = width (shape frame0) /\
             snd (Visualizer.content_shape d) = width (shape frame0) /\
             Visualizer.resized d = true) /\
            (height (shape frame0) < vp_height ->
             vp_top = 0 /\ vp_bottom = height (shape frame0) /\
             fst (Visualizer.content_shape d) = height (shape frame0) /\
             Visualizer.resized d = true)) ds.
Proof.
  intros Hw Hh Hshape Htrack Hdraw.
  split; [eapply visualize_results_length; exact Hdraw|].
  apply Forall_forall. intros d Hin.
  destruct (drawing_inv _ _ _ _ _ _ _ _ _ _ _ _ _ _ _ _ _ _ _ Hshape Htrack
              ds d Hdraw Hin) as (x & y & Hd).
  cbv zeta in Hd. destruct Hd as (Ev & Ec & Er & Hx & Hy).
  rewrite Ev, Ec, Er.
  unfold Visualizer.viewport_rectangle, Visualizer.crop_shape.
  cbn [fst snd]. split; intros Hbig.
  - assert (Cx : x = vp_width / 2 \/ x = width (shape frame0) / 2).
    { destruct Hx as [[sx ->] | ->]; [left | right; reflexivity].
      apply clamp_inverted, half_range_inverted. exact Hbig. }
    destruct (axis_oversized vp_width (width (shape frame0)) x ltac:(lia) Cx)
      as [L1 L2].
    rewrite L1, L2.
    rewrite (slice_length_inside (width (shape frame0))) by lia.
    rewrite Z.sub_0_r. repeat split.
    replace (width (shape frame0) =? vp_width) with false
      by (symmetry; apply Z.eqb_neq; lia).
    rewrite andb_false_r. reflexivity.
  - assert (Cy : y = vp_height / 2 \/ y = height (shape frame0) / 2).
    { destruct Hy as [[sy ->] | ->]; [left | right; reflexivity].
      apply clamp_inverted, half_range_inverted. exact Hbig. }
    destruct (axis_oversized vp_height (height (shape frame0)) y ltac:(lia)
                Cy) as [T1 T2].
    rewrite T1, T2.
    rewrite (slice_length_inside (height (shape frame0))) by lia.
    rewrite Z.sub_0_r. repeat split.
    replace (height (shape frame0) =? vp_height) with false
      by (symmetry; apply Z.eqb_neq; lia).
    reflexivity.
Qed.

Lemma oversized_viewport_shows_whole_frame_witness :
  Forall (fun d =>
            let '(vp_left, vp_top, vp_right, vp_bottom) :=
              Visualizer.viewport d in
            vp_left = 0 /\ vp_right = width (ToyDraw.shape frame_100) /\
            snd (Visualizer.content_shape d)
            = width (ToyDraw.shape frame_100) /\
            Visualizer.resized d = true)
    [ {| Visualizer.motion_rectangles := [];
         Visualizer.viewport := (0, 40, 100, 60);
         Visualizer.content_shape := (20, 100);
         Visualizer.resized := true |};
      {| Visualizer.motion_rectangles := [((51, 49), (53, 51))];
         Visualizer.viewport := (0, 40, 100, 60);
         Visualizer.content_shape := (20, 100);
         Visualizer.resized := true |} ].
Proof.
  destruct (oversized_viewport_shows_whole_frame ToyDraw.image unit
              ToyDraw.shape ToyDraw.crop ToyDraw.makedirs ToyDraw.VideoWriter
              ToyDraw.rectangle ToyDraw.resize ToyDraw.putText ToyDraw.imwrite
              ToyDraw.write ToyDraw.release frame_100 [frame_100] pair_motion
              150 20 PyFloat.lit_0_3 [(75, 50); (75, 50)]
              [ {| Visualizer.motion_rectangles := [];
                   Visualizer.viewport := (0, 40, 100, 60);
                   Visualizer.content_shape := (20, 100);
                   Visualizer.resized := true |};
                {| Visualizer.motion_rectangles := [((51, 49), (53, 51))];
                   Visualizer.viewport := (0, 40, 100, 60);
                   Visualizer.content_shape := (20, 100);
                   Visualizer.resized := true |} ])
    as [_ H].
  - cbn. lia.
  - cbn. lia.
  - repeat constructor.
  - vm_compute. reflexivity.
  - vm_compute. reflexivity.
  - eapply Forall_impl; [|exact H].
    intros d Hd. cbv beta in Hd |- *.
    destruct (Visualizer.viewport d) as [[[l t] r] b].
    destruct Hd as [Hd _]. apply Hd. vm_compute. reflexivity.
Defined.

(** A viewport with a side below 2 gives an empty content, which the toy
    backend rejects as OpenCV does: the run ends with an exception. *)
Example degenerate_viewport_aborts :
  ToyDraw.visualize_results [frame_100; frame_100] pair_motion
    [(50, 50); (50, 50)] (1, 1) = Raise Cv2Error /\
  ToyDraw.visualize_results [frame_100; frame_100] pair_motion
    [(75, 50); (75, 50)] (150, 1) = Raise Cv2Error.
Proof. split; reflexivity. Qed.

(** * process_video *)

Section Sampling.

Variable image : Type.
Variable resize : image -> Z * Z -> result image.
Variable frame_interval : Z.
Variable resize_dim : Z * Z.

Hypothesis interval_positive : 1 <= frame_interval.

Local Abbreviation extract' :=
  (FrameProcessor.extract image resize frame_interval resize_dim).

(** The invariant of the reading loop: [offset] frames are left before the
    next one that is extracted. *)
Lemma extract_spec stream : forall frame_count frames out offset q,
  0 <= offset < frame_interval ->
  frame_count + offset = q * frame_interval ->
  extract' frame_count stream frames = Ok out ->
  exists new,
    out = frames ++ new /\
    Z.of_nat (length new)
    = (Z.of_nat (length stream) + frame_interval - 1 - offset)
      / frame_interval /\
    forall j frame,
      nth_error new j = Some frame ->
      exists original,
        nth_error stream (Z.to_nat offset + j * Z.to_nat frame_interval)
          = Some original /\
        resize original resize_dim = Ok frame.
Proof.
  induction stream as [| f rest IH];
    intros frame_count frames out offset q Ho Hq; cbn [FrameProcessor.extract].
  - intros H. injection H as <-. exists []. rewrite app_nil_r.
    split; [reflexivity|]. split.
    + cbn [length]. symmetry. apply Z.div_small. lia.
    + intros j frame Hj. destruct j; discriminate.
  - replace (frame_interval =? 0) with false
      by (symmetry; apply Z.eqb_neq; lia).
    destruct (frame_count mod frame_interval =? 0) eqn:Emod.
    + apply Z.eqb_eq in Emod.
      assert (Eo : offset = 0).
      { pose proof (Z.div_mod frame_count frame_interval ltac:(lia)) as Hd.
        rewrite Emod, Z.add_0_r in Hd.
        assert (Ht : offset = (q - frame_count / frame_interval)
                              * frame_interval) by lia.
        remember (q - frame_count / frame_interval) as t eqn:Et.
        clear Et Hd Hq Emod IH.
        destruct (Z_lt_le_dec t 0); [nia|].
        destruct (Z_lt_le_dec 0 t); [nia | lia]. }
      subst offset.
      destruct (resize f resize_dim) as [r | e] eqn:Er; [|discriminate].
      cbn [bind]. intros Hout.
      destruct (IH (frame_count + 1) (frames ++ [r]) out
                  (frame_interval - 1) (q + 1) ltac:(lia) ltac:(lia) Hout)
        as (new & -> & Hlen & Hnth).
      exists (r :: new). split; [rewrite <- app_assoc; reflexivity|]. split.
      * cbn [length]. rewrite !Nat2Z.inj_succ, Hlen.
        replace (Z.succ (Z.of_nat (length rest)) + frame_interval - 1 - 0)
          with (Z.of_nat (length rest) + 1 * frame_interval) by lia.
        rewrite Z.div_add by lia.
        replace (Z.of_nat (length rest) + frame_interval - 1
                 - (frame_interval - 1))
          with (Z.of_nat (length rest)) by lia.
        lia.
      * intros j frame Hj. destruct j as [| j'].
        -- cbn in Hj. injection Hj as <-. exists f. split; [reflexivity|].
           exact Er.
        -- cbn [nth_error] in Hj.
           destruct (Hnth j' frame Hj) as (original & Ho' & Hr).
           exists original. split; [|exact Hr].
           replace (Z.to_nat 0 + S j' * Z.to_nat frame_interval)%nat
             with (S (Z.to_nat (frame_interval - 1)
                      + j' * Z.to_nat frame_interval))%nat by lia.
           exact Ho'.
    + apply Z.eqb_neq in Emod.
      assert (Hne : offset <> 0).
      { intros ->. apply Emod. rewrite Z.add_0_r in Hq. rewrite Hq.
        apply Z.mod_mul. lia. }
      intros Hout.
      destruct (IH (frame_count + 1) frames out (offset - 1) q
                  ltac:(lia) ltac:(lia) Hout) as (new & -> & Hlen & Hnth).
      exists new. split; [reflexivity|]. split.
      * rewrite Hlen. cbn [length]. rewrite Nat2Z.inj_succ. f_equal. lia.
      * intros j frame Hj.
        destruct (Hnth j frame Hj) as (original & Ho' & Hr).
        exists original. split; [|exact Hr].
        replace (Z.to_nat offset + j * Z.to_nat frame_interval)%nat
          with (S (Z.to_nat (offset - 1) + j * Z.to_nat frame_interval))%nat
          by lia.
        exact Ho'.
Qed.

(** The loop returns when [cv2.resize] accepts every frame. *)
Lemma extract_ok stream : forall frame_count frames,
  (forall frame, In frame stream ->
                 exists r, resize frame resize_dim = Ok r) ->
  exists out, extract' frame_count stream frames = Ok out.
Proof.
  induction stream as [| f rest IH]; intros frame_count frames Hres;
    cbn [FrameProcessor.extract]; [eauto|].
  replace (frame_interval =? 0) with false
    by (symmetry; apply Z.eqb_neq; lia).
  assert (Hrest : forall frame, In frame rest ->
                                exists r, resize frame resize_dim = Ok r)
    by (intros frame Hin; apply Hres; right; exact Hin).
  destruct (frame_count mod frame_interval =? 0).
  - destruct (Hres f (or_introl eq_refl)) as [r ->]. cbn [bind].
    apply IH. exact Hrest.
  - apply IH. exact Hrest.
Qed.

End Sampling.

(** X12: with a frame interval [k >= 1], [process_video] keeps the frames
    number [0, k, 2k, ...] of the video, each one resized, in their order:
    [ceil(n / k)] frames out of [n]; it returns whenever the frame count
    of the capture converts to an integer and [cv2.resize] accepts the
    frames. *)
Theorem process_video_sampling (image : Type)
    (resize : image -> Z * Z -> result image)
    (cap : FrameProcessor.VideoCapture image) target_fps resize_dim k :
  FrameProcessor.isOpened image cap = true ->
  FrameProcessor.frame_interval (FrameProcessor.CAP_PROP_FPS image cap)
    target_fps = Ok k ->
  1 <= k ->
  (forall frames,
     FrameProcessor.process_video image resize cap target_fps resize_dim
       = Ok frames ->
     Z.of_nat (length frames)
     = (Z.of_nat (length (FrameProcessor.read image cap)) + k - 1) / k /\
     forall j frame,
       nth_error frames j = Some frame ->
       exists original,
         nth_error (FrameProcessor.read image cap) (j * Z.to_nat k)
           = Some original /\
         resize original resize_dim = Ok frame) /\
  ((exists total_frames,
      PyFloat.to_int (FrameProcessor.CAP_PROP_FRAME_COUNT image cap)
      = Ok total_frames) ->
   (forall frame, In frame (FrameProcessor.read image cap) ->
                  exists r, resize frame resize_dim = Ok r) ->
   exists frames,
     FrameProcessor.process_video image resize cap target_fps resize_dim
       = Ok frames).
Proof.
  intros Hopen Hk Hpos. unfold FrameProcessor.process_video.
  rewrite Hopen. cbn [negb]. split.
  - intros frames.
    destruct (PyFloat.to_int (FrameProcessor.CAP_PROP_FRAME_COUNT image cap))
      as [total | e]; [|discriminate].
    cbn [bind]. rewrite Hk. cbn [bind]. intros Hout.
    destruct (extract_spec image resize k resize_dim Hpos _ 0 [] frames 0 0
                ltac:(lia) ltac:(lia) Hout) as (new & -> & Hlen & Hnth).
    cbn [app]. split.
    + rewrite Hlen. f_equal. lia.
    + intros j frame Hj. destruct (Hnth j frame Hj) as (o & Ho & Hr).
      exists o. split; [exact Ho | exact Hr].
  - intros [total ->] Hres. cbn [bind]. rewrite Hk. cbn [bind].
    apply extract_ok; assumption.
Qed.

(** X13: with [target_fps = 0] and a capture that reports a positive frame
    rate, [process_video] raises [ZeroDivisionError], also when the video
    has no frame. *)
Theorem process_video_zero_target_fps (image : Type)
    (resize : image -> Z * Z -> result image)
    (cap : FrameProcessor.VideoCapture image) resize_dim total_frames :
  FrameProcessor.isOpened image cap = true ->
  PyFloat.to_int (FrameProcessor.CAP_PROP_FRAME_COUNT image cap)
    = Ok total_frames ->
  FrameProcessor.int_ltb_float 0 (FrameProcessor.CAP_PROP_FPS image cap)
    = true ->
  FrameProcessor.process_video image resize cap 0 resize_dim
  = Raise ZeroDivisionError.
Proof.
  intros Hopen Hcount Hfps. unfold FrameProcessor.process_video.
  rewrite Hopen, Hcount. cbn [negb bind].
  unfold FrameProcessor.frame_interval. rewrite Hfps. reflexivity.
Qed.

(** * Rounding and integers *)

(** The two stages of [binary_round_aux] on a non-negative mantissa: the
    mantissa [m1] chosen at the exponent [e1], which is the truncated
    mantissa or its successor, and is the truncated one when nothing is
    lost. *)
Lemma binary_round_aux_stages m e l K :
  0 <= m -> e <= fexp64 (Zdigits2 m + e) -> Zdigits2 m + e <= K ->
  0 <= K <= 1023 ->
  let e1 := fexp64 (Zdigits2 m + e) in
  let r := binary_round_aux 53 1024 false m e l in
  exists m1,
    m / 2 ^ (e1 - e) <= m1 <= m / 2 ^ (e1 - e) + 1 /\
    (l = loc_Exact -> m mod 2 ^ (e1 - e) = 0 -> m1 = m / 2 ^ (e1 - e)) /\
    (-1074 < e1 -> 2 ^ 52 <= m / 2 ^ (e1 - e)) /\
    PyFloat.nonneg r /\ PyFloat.finite_below (K + 1) r /\
    (PyFloat.F2Q r == inject_Z m1 * 2 ^ e1)%Q.
Proof.
  intros Hm H1 HK HKr. cbv zeta.
  pose proof (binary_round_aux_bound false m e l K Hm H1 HK HKr) as Hfb.
  pose proof (shr_fexp_first m e l K Hm H1 HK HKr) as Hfirst.
  cbv zeta in Hfirst.
  assert (Hn : 0 <= fexp64 (Zdigits2 m + e) - e) by lia.
  pose proof (shr_m_spec m l e _ Hm Hn) as Hshr.
  fold (shr_fexp 53 1024 m e l) in Hshr.
  assert (Hex : l = loc_Exact ->
                m mod 2 ^ (fexp64 (Zdigits2 m + e) - e) = 0 ->
                loc_of_shr_record (fst (shr_fexp 53 1024 m e l)) = loc_Exact).
  { intros -> Hmod. unfold shr_fexp.
    pose proof (Z.div_mod m (2 ^ (fexp64 (Zdigits2 m + e) - e))
                  ltac:(apply Z.pow_nonzero; lia)) as Hd.
    rewrite Hmod, Z.add_0_r, Z.mul_comm in Hd.
    remember (fexp64 (Zdigits2 m + e) - e) as n eqn:En.
    rewrite Hd at 1.
    rewrite shr_exact by (try apply Z.div_pos; try pow2_pos; lia).
    reflexivity. }
  unfold binary_round_aux in *.
  destruct (shr_fexp 53 1024 m e l) as [mrs1 e1].
  cbn [fst snd] in Hfirst, Hshr, Hex.
  destruct Hfirst as (Hm0 & He1 & HeK & Hnorm). destruct Hshr as [Em0 Ee1].
  assert (Ee : fexp64 (Zdigits2 m + e) = e1) by lia.
  rewrite Ee in *. clear Ee.
  pose proof (round_finish_value (shr_m mrs1) e1 (loc_of_shr_record mrs1)
                Hm0 He1 Hnorm) as Hfin.
  cbv zeta in Hfin. destruct Hfin as [Hnn Hval].
  exists (round_nearest_even (shr_m mrs1) (loc_of_shr_record mrs1)).
  rewrite <- Em0.
  split; [|split; [|split; [|split; [|split]]]].
  - destruct (round_nearest_even_cases (shr_m mrs1) (loc_of_shr_record mrs1))
      as [-> | ->]; lia.
  - intros Hl Hmod. rewrite (Hex Hl Hmod). reflexivity.
  - exact Hnorm.
  - exact Hnn.
  - exact Hfb.
  - exact Hval.
Qed.

(** Rounding does not go below an integer that the value reaches. *)
Lemma binary_round_aux_ge c m e l K :
  0 <= m -> e <= fexp64 (Zdigits2 m + e) -> Zdigits2 m + e <= K ->
  0 <= K <= 1023 ->
  0 <= c < 2 ^ 53 -> (e <= 0 -> c * 2 ^ (- e) <= m) ->
  let r := binary_round_aux 53 1024 false m e l in
  PyFloat.nonneg r /\ PyFloat.finite_below (K + 1) r /\
  (inject_Z c <= PyFloat.F2Q r)%Q.
Proof.
  intros Hm H1 HK HKr Hc Hge r. subst r.
  destruct (binary_round_aux_stages m e l K Hm H1 HK HKr)
    as (m1 & Hm1 & _ & Hnorm & Hnn & Hfb & Hval).
  split; [exact Hnn|]. split; [exact Hfb|]. rewrite Hval.
  remember (fexp64 (Zdigits2 m + e)) as e1 eqn:Ee1.
  assert (Hp : 0 < 2 ^ (e1 - e)) by pow2_pos.
  destruct (Z_le_gt_dec e1 0) as [Hle | Hgt].
  - assert (HC : c * 2 ^ (- e1) <= m1).
    { apply Z.le_trans with (m / 2 ^ (e1 - e)); [|lia].
      apply Z.div_le_lower_bound; [exact Hp|].
      specialize (Hge ltac:(lia)).
      replace (- e) with (- e1 + (e1 - e)) in Hge by lia.
      rewrite Z.pow_add_r in Hge by lia. lia. }
    assert (Ec : (inject_Z c == inject_Z (c * 2 ^ (- e1)) * 2 ^ e1)%Q).
    { rewrite Q2pow_shift by lia. replace (e1 + - e1) with 0 by lia.
      change (2 ^ 0)%Q with 1%Q. ring. }
    rewrite Ec. apply Qmult_le_compat_r.
    + rewrite <- Zle_Qle. exact HC.
    + pose proof (Q2pow_pos e1). lra.
  - assert (H52 : 2 ^ 52 <= m1) by (specialize (Hnorm ltac:(lia)); lia).
    assert (Hq : (inject_Z (2 ^ 53) <= inject_Z m1 * 2 ^ e1)%Q).
    { assert (E53 : (inject_Z (2 ^ 53) == inject_Z (2 ^ 52) * 2 ^ 1)%Q)
        by reflexivity.
      rewrite E53.
      assert (Hm1q : (inject_Z (2 ^ 52) <= inject_Z m1)%Q)
        by (rewrite <- Zle_Qle; exact H52).
      assert (Hpe : (2 ^ 1 <= 2 ^ e1)%Q) by (apply Q2pow_le; lia).
      assert (H0 : (0 <= inject_Z (2 ^ 52))%Q)
        by (change 0%Q with (inject_Z 0); rewrite <- Zle_Qle; lia).
      assert (H2 : (0 <= 2 ^ 1)%Q) by (pose proof (Q2pow_pos 1); lra).
      apply Qmult_le_compat_nonneg; split; assumption. }
    assert (Hcq : (inject_Z c <= inject_Z (2 ^ 53))%Q)
      by (rewrite <- Zle_Qle; lia).
    lra.
Qed.

(** Rounding does not go above an integer that bounds the value. *)
Lemma binary_round_aux_le c m e l :
  0 <= m -> e <= fexp64 (Zdigits2 m + e) -> e <= 0 ->
  0 <= c < 2 ^ 53 -> m <= c * 2 ^ (- e) ->
  (l <> loc_Exact -> m < c * 2 ^ (- e)) ->
  let r := binary_round_aux 53 1024 false m e l in
  PyFloat.nonneg r /\ PyFloat.finite_below 54 r /\
  (PyFloat.F2Q r <= inject_Z c)%Q.
Proof.
  intros Hm H1 He Hc Hle Hlt r. subst r.
  assert (Hpe : 0 < 2 ^ (- e)) by pow2_pos.
  assert (Hd : Zdigits2 m + e <= 53).
  { assert (Zdigits2 m <= 53 - e); [|lia].
    apply Zdigits2_le; [lia | lia |].
    replace (53 - e) with (53 + - e) by lia. rewrite Z.pow_add_r by lia. nia. }
  destruct (binary_round_aux_stages m e l 53 Hm H1 Hd ltac:(lia))
    as (m1 & Hm1 & Hexact & _ & Hnn & Hfb & Hval).
  split; [exact Hnn|]. split; [exact Hfb|]. rewrite Hval.
  remember (fexp64 (Zdigits2 m + e)) as e1 eqn:Ee1.
  assert (He1 : e1 <= 0) by (rewrite Ee1, fexp64_eq; lia).
  assert (Hp : 0 < 2 ^ (e1 - e)) by pow2_pos.
  assert (EC : c * 2 ^ (- e) = c * 2 ^ (- e1) * 2 ^ (e1 - e)).
  { rewrite <- Z.mul_assoc, <- Z.pow_add_r by lia. do 2 f_equal. lia. }
  assert (HC : m1 <= c * 2 ^ (- e1)).
  { destruct (Z.eq_dec m (c * 2 ^ (- e))) as [Eq | Hne].
    - assert (El : l = loc_Exact).
      { destruct l as [| cmp]; [reflexivity|].
        exfalso. specialize (Hlt ltac:(discriminate)). lia. }
      assert (Hmod : m mod 2 ^ (e1 - e) = 0)
        by (rewrite Eq, EC; apply Z.mod_mul; lia).
      rewrite (Hexact El Hmod), Eq, EC, Z.div_mul by lia. lia.
    - assert (m / 2 ^ (e1 - e) < c * 2 ^ (- e1)); [|lia].
      apply Z.div_lt_upper_bound; [exact Hp|]. lia. }
  assert (Ec : (inject_Z c == inject_Z (c * 2 ^ (- e1)) * 2 ^ e1)%Q).
  { rewrite Q2pow_shift by lia. replace (e1 + - e1) with 0 by lia.
    change (2 ^ 0)%Q with 1%Q. ring. }
  rewrite Ec. apply Qmult_le_compat_r.
  - rewrite <- Zle_Qle. exact HC.
  - pose proof (Q2pow_pos e1). lra.
Qed.

(** ** Division *)

Lemma SFdiv_core_gen m1 e1 m2 e2 :
  0 < m1 -> 0 < m2 ->
  let e' := Z.min (fexp64 (Zdigits2 m1 + e1 - (Zdigits2 m2 + e2))) (e1 - e2) in
  let s := e1 - e2 - e' in
  SFdiv_core_binary 53 1024 m1 e1 m2 e2 =
  (m1 * 2 ^ s / m2, e', new_location m2 ((m1 * 2 ^ s) mod m2)).
Proof.
  intros H1 H2 e' s. unfold SFdiv_core_binary. fold e'. fold s.
  assert (Hs : 0 <= s) by (unfold s, e'; lia).
  assert (Em : match s with
               | Z0 => m1
               | Zpos _ => Z.shiftl m1 s
               | Zneg _ => 0
               end = m1 * 2 ^ s).
  { destruct s as [| t | t] eqn:Es; [simpl; lia | | lia].
    rewrite Z.shiftl_mul_pow2 by lia. reflexivity. }
  rewrite Em. unfold Z.div, Z.modulo.
  destruct (Z.div_eucl (m1 * 2 ^ s) m2) as [a b]. reflexivity.
Qed.

(** The truncated quotient satisfies the conditions of the rounding. *)
Lemma SFdiv_pre m1 e1 m2 e2 :
  0 < m1 -> 0 < m2 ->
  let D := Zdigits2 m1 + e1 - (Zdigits2 m2 + e2) in
  let e' := Z.min (fexp64 D) (e1 - e2) in
  let s := e1 - e2 - e' in
  let mz := m1 * 2 ^ s / m2 in
  0 <= s /\ 0 <= mz /\ e' <= fexp64 (Zdigits2 mz + e') /\
  Zdigits2 mz + e' <= Z.max (D + 1) 0.
Proof.
  intros H1 H2 D e' s mz.
  set (d1 := Zdigits2 m1) in *. set (d2 := Zdigits2 m2) in *.
  assert (Hs : 0 <= s) by (unfold s, e'; lia).
  assert (Hps : 0 < 2 ^ s) by pow2_pos.
  destruct (Zdigits2_spec m1 H1) as [H1lo H1hi].
  destruct (Zdigits2_spec m2 H2) as [H2lo H2hi].
  fold d1 in H1lo, H1hi. fold d2 in H2lo, H2hi.
  assert (Hd1 : 0 < d1) by (apply Zdigits2_pos; lia).
  assert (Hd2 : 0 < d2) by (apply Zdigits2_pos; lia).
  assert (Hmz : 0 <= mz) by (apply Z.div_pos; lia).
  assert (HDe : d1 + s - d2 = D - e') by (unfold D, s; lia).
  assert (Hup : Zdigits2 mz <= Z.max (d1 + s - d2 + 1) 0).
  { destruct (Z_le_gt_dec 0 (d1 + s - d2 + 1)) as [Hge | Hlt].
    - apply Zdigits2_le; [assumption | lia |].
      replace (Z.max (d1 + s - d2 + 1) 0) with (d1 + s - d2 + 1) by lia.
      apply Z.div_lt_upper_bound; [lia|].
      apply Z.lt_le_trans with (2 ^ d1 * 2 ^ s); [nia|].
      rewrite <- Z.pow_add_r by lia.
      apply Z.le_trans with (2 ^ (d2 - 1) * 2 ^ (d1 + s - d2 + 1)).
      + rewrite <- Z.pow_add_r by lia. apply Z.pow_le_mono_r; lia.
      + apply Z.mul_le_mono_nonneg_r; [apply Z.pow_nonneg; lia | lia].
    - assert (E0 : mz = 0).
      { apply Z.div_small. split; [lia|].
        apply Z.lt_le_trans with (2 ^ d1 * 2 ^ s); [nia|].
        rewrite <- Z.pow_add_r by lia.
        apply Z.le_trans with (2 ^ (d2 - 1)); [|lia].
        apply Z.pow_le_mono_r; lia. }
      rewrite E0. simpl. lia. }
  assert (Hlow : 1 <= d1 + s - d2 -> d1 + s - d2 <= Zdigits2 mz).
  { intros Hge. apply Zdigits2_ge; [|assumption].
    apply Z.div_le_lower_bound; [lia|].
    apply Z.le_trans with (2 ^ d2 * 2 ^ (d1 + s - d2 - 1)).
    - apply Z.mul_le_mono_nonneg_r; [apply Z.pow_nonneg; lia | lia].
    - rewrite <- Z.pow_add_r by lia.
      replace (d2 + (d1 + s - d2 - 1)) with ((d1 - 1) + s) by lia.
      rewrite Z.pow_add_r by lia.
      apply Z.mul_le_mono_nonneg_r; lia. }
  pose proof (Zdigits2_nonneg mz) as Hdz.
  split; [exact Hs|]. split; [exact Hmz|]. split.
  - rewrite fexp64_eq. unfold e' in *. rewrite fexp64_eq in *.
    destruct (Z_le_gt_dec (Z.min (Z.max (D - 53) (-1074)) (e1 - e2)) (-1074));
      lia.
  - unfold e' in *. rewrite fexp64_eq in *. lia.
Qed.

Lemma inject_Z_le_floor a z f :
  (inject_Z a <= f)%Q -> (f < inject_Z z + 1)%Q -> a <= z.
Proof.
  intros H1 H2. apply inject_Z_lt_succ. lra.
Qed.

(** [int(p / q)] lies between two integers that bound the quotient. *)
Lemma true_divide_between a b p q :
  0 < q -> 0 <= a -> b < 2 ^ 53 -> a * q <= p <= b * q ->
  exists f z,
    PyFloat.true_divide p q = Ok f /\ PyFloat.to_int f = Ok z /\ a <= z <= b.
Proof.
  intros Hq Ha Hb Hp. unfold PyFloat.true_divide.
  destruct q as [| q' | q']; try lia.
  destruct p as [| p' | p'].
  - exists (S754_zero false), 0. split; [reflexivity|].
    split; [reflexivity|]. nia.
  - cbn [Z.abs Z.to_pos Z.ltb Z.compare xorb SFdiv].
    rewrite (SFdiv_core_gen (Zpos p') 0 (Zpos q') 0) by lia.
    destruct (SFdiv_pre (Zpos p') 0 (Zpos q') 0 ltac:(lia) ltac:(lia))
      as (Hs & Hmz & Hpre & Hdig).
    cbv zeta in Hs, Hmz, Hpre, Hdig.
    remember (Z.min (fexp64 (Zdigits2 (Zpos p') + 0 - (Zdigits2 (Zpos q') + 0)))
                (0 - 0)) as e' eqn:Ee'.
    remember (0 - 0 - e') as s eqn:Es.
    assert (He' : e' = - s) by lia.
    assert (Hps : 0 < 2 ^ s) by pow2_pos.
    remember (Zpos p' * 2 ^ s / Zpos q') as mz eqn:Emz.
    remember ((Zpos p' * 2 ^ s) mod Zpos q') as r eqn:Er.
    pose proof (Z.div_mod (Zpos p' * 2 ^ s) (Zpos q') ltac:(lia)) as Hdm.
    pose proof (Z.mod_pos_bound (Zpos p' * 2 ^ s) (Zpos q') ltac:(lia)) as Hr.
    rewrite <- Emz, <- Er in Hdm. rewrite <- Er in Hr.
    assert (Hb0 : 0 <= b) by nia.
    assert (Hab : a <= b) by nia.
    assert (Hlo : a * 2 ^ s <= mz).
    { rewrite Emz. apply Z.div_le_lower_bound; [lia | nia]. }
    assert (Hhi : mz <= b * 2 ^ s).
    { assert (mz < b * 2 ^ s + 1); [|lia].
      rewrite Emz. apply Z.div_lt_upper_bound; [lia | nia]. }
    assert (Hin : new_location (Zpos q') r <> loc_Exact -> mz < b * 2 ^ s).
    { intros Hne.
      assert (Hr0 : r <> 0).
      { intros ->. apply Hne. unfold new_location, new_location_even,
          new_location_odd. destruct (Z.even (Zpos q')); reflexivity. }
      destruct (Z_lt_le_dec mz (b * 2 ^ s)) as [|Hge]; [assumption|].
      exfalso. nia. }
    rewrite He' in *. replace (- - s) with s in * by lia.
    destruct (binary_round_aux_le b mz (- s)
                (new_location (Zpos q') r) Hmz Hpre ltac:(lia) ltac:(lia))
      as (Hnn & Hfb & Hle).
    { replace (- - s) with s by lia. exact Hhi. }
    { replace (- - s) with s by lia. exact Hin. }
    assert (Hd53 : Zdigits2 mz + - s <= 53).
    { assert (Zdigits2 mz <= 53 + s); [|lia].
      apply Zdigits2_le; [lia | lia |].
      rewrite Z.pow_add_r by lia. nia. }
    assert (Hcond : - s <= 0 -> a * 2 ^ (- - s) <= mz).
    { intros _. replace (- - s) with s by lia. exact Hlo. }
    destruct (binary_round_aux_ge a mz (- s) (new_location (Zpos q') r) 53
                Hmz Hpre Hd53 ltac:(lia) ltac:(lia) Hcond) as (_ & _ & Hge).
    remember (binary_round_aux 53 1024 false mz (- s)
                (new_location (Zpos q') r)) as f eqn:Ef.
    rewrite (finite_below_not_infinite _ _ Hfb).
    destruct (to_int_floor f 54 Hnn Hfb) as (z & Ez & Hz0 & Hz1 & Hz2).
    exists f, z. split; [reflexivity|]. split; [exact Ez|]. split.
    + apply (inject_Z_le_floor a z (PyFloat.F2Q f)); assumption.
    + rewrite Zle_Qle. lra.
  - exfalso. assert (0 <= a * Zpos q') by nia. lia.
Qed.

(** * The centre of the region of interest *)

Lemma center_within_spec lo hi x y w h :
  center_within lo hi (x, y, w, h) = true ->
  fst lo <= x + w / 2 <= fst hi /\ snd lo <= y + h / 2 <= snd hi.
Proof.
  unfold center_within, box_center. intros H.
  apply andb_prop in H. destruct H as [H H4].
  apply andb_prop in H. destruct H as [H H3].
  apply andb_prop in H. destruct H as [H1 H2].
  apply Z.leb_le in H1, H2, H3, H4. lia.
Qed.

Lemma accumulate_between lo hi acc b :
  0 <= box_area b -> center_within lo hi b = true ->
  weighted_between lo hi acc -> weighted_between lo hi (accumulate acc b).
Proof.
  destruct acc as [[tw wx] wy], b as [[[x y] w] h].
  intros Ha Hc [Hx Hy]. apply center_within_spec in Hc.
  destruct Hc as [Cx Cy].
  cbn [box_area] in Ha. unfold accumulate, weighted_between.
  remember (w * h) as a. remember (x + w / 2) as cx.
  remember (y + h / 2) as cy.
  split; split; nia.
Qed.

Lemma fold_accumulate_between lo hi bs : forall acc,
  forallb (fun b => 0 <=? box_area b) bs = true ->
  forallb (center_within lo hi) bs = true ->
  weighted_between lo hi acc ->
  weighted_between lo hi (fold_left accumulate bs acc).
Proof.
  induction bs as [| b bs IH]; intros acc Ha Hc Hacc; cbn [fold_left];
    [exact Hacc|].
  cbn [forallb] in Ha, Hc.
  apply andb_prop in Ha. destruct Ha as [Hab Ha].
  apply andb_prop in Hc. destruct Hc as [Hcb Hc].
  apply Z.leb_le in Hab.
  apply IH; [exact Ha | exact Hc |]. apply accumulate_between; assumption.
Qed.

Lemma accumulate_weight acc b :
  fst (fst (accumulate acc b)) = fst (fst acc) + box_area b.
Proof. destruct acc as [[tw wx] wy], b as [[[x y] w] h]. reflexivity. Qed.

Lemma fold_accumulate_weight_mono bs : forall acc,
  forallb (fun b => 0 <=? box_area b) bs = true ->
  fst (fst acc) <= fst (fst (fold_left accumulate bs acc)).
Proof.
  induction bs as [| b bs IH]; intros acc Ha; cbn [fold_left]; [lia|].
  cbn [forallb] in Ha. apply andb_prop in Ha. destruct Ha as [Hab Ha].
  apply Z.leb_le in Hab.
  specialize (IH (accumulate acc b) Ha). rewrite accumulate_weight in IH. lia.
Qed.

Lemma fold_accumulate_weight_pos bs : forall acc,
  forallb (fun b => 0 <=? box_area b) bs = true ->
  existsb (fun b => 0 <? box_area b) bs = true ->
  fst (fst acc) < fst (fst (fold_left accumulate bs acc)).
Proof.
  induction bs as [| b bs IH]; intros acc Ha He; cbn [fold_left];
    [discriminate|].
  cbn [forallb] in Ha. apply andb_prop in Ha. destruct Ha as [Hab Ha].
  apply Z.leb_le in Hab. cbn [existsb] in He.
  destruct (0 <? box_area b) eqn:Eb.
  - apply Z.ltb_lt in Eb.
    pose proof (fold_accumulate_weight_mono bs (accumulate acc b) Ha) as H.
    rewrite accumulate_weight in H. lia.
  - cbn [orb] in He. specialize (IH (accumulate acc b) Ha He).
    rewrite accumulate_weight in IH. lia.
Qed.

(** X14: when some box has a positive area and the centres of all boxes
    lie in a rectangle of non-negative coordinates below [2^53], the
    centre of the region of interest lies in that rectangle too, and no
    exception is raised. *)
Theorem region_of_interest_within_centers motion_boxes frame_shape lo hi :
  forallb (fun b => 0 <=? box_area b) motion_boxes = true ->
  existsb (fun b => 0 <? box_area b) motion_boxes = true ->
  forallb (center_within lo hi) motion_boxes = true ->
  0 <= fst lo -> 0 <= snd lo -> fst hi < 2 ^ 53 -> snd hi < 2 ^ 53 ->
  exists roi_x roi_y roi_w roi_h,
    calculate_region_of_interest motion_boxes frame_shape
      = Ok (roi_x, roi_y, roi_w, roi_h) /\
    fst lo <= roi_x <= fst hi /\ snd lo <= roi_y <= snd hi.
Proof.
  intros Ha He Hc Hlx Hly Hhx Hhy. unfold calculate_region_of_interest.
  destruct motion_boxes as [| b0 bs]; [discriminate|].
  pose proof (fold_accumulate_weight_pos (b0 :: bs) (0, 0, 0) Ha He) as Hpos.
  assert (H0 : weighted_between lo hi (0, 0, 0))
    by (unfold weighted_between; lia).
  pose proof (fold_accumulate_between lo hi (b0 :: bs) (0, 0, 0) Ha Hc H0)
    as Hin.
  destruct (fold_left accumulate (b0 :: bs) (0, 0, 0)) as [[tw wx] wy].
  cbn [fst] in Hpos. destruct Hin as [Hx Hy].
  replace (0 <? tw) with true by (symmetry; apply Z.ltb_lt; exact Hpos).
  destruct (true_divide_between (fst lo) (fst hi) wx tw Hpos Hlx Hhx Hx)
    as (fx & ax & Efx & Eax & Bx).
  destruct (true_divide_between (snd lo) (snd hi) wy tw Hpos Hly Hhy Hy)
    as (fy & ay & Efy & Eay & By).
  rewrite Efx. cbn [bind]. rewrite Eax. cbn [bind].
  rewrite Efy. cbn [bind]. rewrite Eay. cbn [bind].
  destruct (largest_box b0 bs) as [[[lx ly] lw] lh].
  exists ax, ay, lw, lh. auto.
Qed.

Lemma region_of_interest_within_centers_witness :
  exists roi_x roi_y roi_w roi_h,
    calculate_region_of_interest
      [(10, 20, 2, 3); (40, 30, 6, 4); (60, 40, 4, 6); (5, 5, 0, 0)] frame_100
      = Ok (roi_x, roi_y, roi_w, roi_h) /\
    fst (5, 5) <= roi_x <= fst (62, 43) /\
    snd (5, 5) <= roi_y <= snd (62, 43).
Proof.
  apply region_of_interest_within_centers;
    try (vm_compute; reflexivity); cbn; lia.
Defined.

(** * The frame interval *)

(** A positive integer is below a finite double only if the double is
    positive. *)
Lemma int_ltb_float_pos z f :
  0 < z -> PyFloat.finite_below 1024 f ->
  FrameProcessor.int_ltb_float z f = true ->
  exists m e, f = S754_finite false m e /\
              (inject_Z z < inject_Z (Zpos m) * 2 ^ e)%Q.
Proof.
  intros Hz Hf H. unfold FrameProcessor.int_ltb_float in H.
  assert (Hz0 : (0 < inject_Z z)%Q)
    by (change 0%Q with (inject_Z 0); rewrite <- Zlt_Qlt; exact Hz).
  destruct f as [s | s | | s m e]; cbn in Hf; try contradiction.
  - apply negb_true_iff in H. exfalso.
    assert (Hle : Qle_bool (PyFloat.F2Q (S754_zero s)) (inject_Z z) = true)
      by (apply Qle_bool_iff; cbn [PyFloat.F2Q]; lra).
    congruence.
  - apply negb_true_iff in H.
    assert (Hlt : (inject_Z z < PyFloat.F2Q (S754_finite s m e))%Q).
    { apply Qnot_le_lt. intros Hle. apply Qle_bool_iff in Hle. congruence. }
    destruct s.
    + exfalso. cbn [PyFloat.F2Q cond_Zopp] in Hlt.
      pose proof (Q2pow_pos e) as Hp.
      assert (Hneg : (inject_Z (- Zpos m) * 2 ^ e <= 0)%Q).
      { setoid_replace (inject_Z (- Zpos m) * 2 ^ e)%Q
          with (- (inject_Z (Zpos m) * 2 ^ e))%Q
          by (rewrite inject_Z_opp; ring).
        assert (0 <= inject_Z (Zpos m) * 2 ^ e)%Q; [|lra].
        apply Qmult_le_0_compat; [|lra].
        change 0%Q with (inject_Z 0). rewrite <- Zle_Qle. lia. }
      lra.
    + exists m, e. split; [reflexivity | exact Hlt].
Qed.

(** A non-negative double whose value is a positive integer is a finite
    double of magnitude at least one. *)
Lemma positive_integer_float f t :
  0 < t -> PyFloat.nonneg f -> (PyFloat.F2Q f == inject_Z t)%Q ->
  exists m e, f = S754_finite false m e /\
              (inject_Z (Zpos m) * 2 ^ e == inject_Z t)%Q /\
              1 <= Zpos (digits2_pos m) + e.
Proof.
  intros Ht Hnn Hv.
  assert (Ht1 : (1 <= inject_Z t)%Q)
    by (change 1%Q with (inject_Z 1); rewrite <- Zle_Qle; lia).
  destruct f as [s | s | | [|] m e]; cbn in Hnn; try contradiction.
  - exfalso. cbn [PyFloat.F2Q] in Hv. lra.
  - exists m, e. split; [reflexivity|]. cbn [PyFloat.F2Q cond_Zopp] in Hv.
    split; [exact Hv|].
    destruct (Z_lt_le_dec 0 (Zpos (digits2_pos m) + e)) as [|Hle]; [lia|].
    exfalso.
    destruct (digits2_pos_spec m) as [_ Hhi].
    assert (Hq : (inject_Z (Zpos m) < 2 ^ Zpos (digits2_pos m))%Q).
    { rewrite <- Q2pow_inject by lia. rewrite <- Zlt_Qlt. exact Hhi. }
    pose proof (Q2pow_pos e) as Hpe.
    assert (Hlt : (inject_Z (Zpos m) * 2 ^ e
                   < 2 ^ Zpos (digits2_pos m) * 2 ^ e)%Q)
      by (apply Qmult_lt_compat_r; assumption).
    rewrite <- Q2pow_add in Hlt.
    assert (Hone : (2 ^ (Zpos (digits2_pos m) + e) <= 2 ^ 0)%Q)
      by (apply Q2pow_le; lia).
    change (2 ^ 0)%Q with 1%Q in Hone. lra.
Qed.

(** [x / y >= 1] for two positive doubles with [x > y]. *)
Lemma SFdiv_above_one m1 e1 m2 e2 :
  (inject_Z (Zpos m2) * 2 ^ e2 < inject_Z (Zpos m1) * 2 ^ e1)%Q ->
  Zpos (digits2_pos m1) + e1 <= 1022 -> 1 <= Zpos (digits2_pos m2) + e2 ->
  exists z,
    PyFloat.to_int
      (SFdiv 53 1024 (S754_finite false m1 e1) (S754_finite false m2 e2))
    = Ok z /\ 1 <= z.
Proof.
  intros Hlt Hx Hy. cbn [SFdiv xorb].
  rewrite (SFdiv_core_gen (Zpos m1) e1 (Zpos m2) e2) by lia.
  destruct (SFdiv_pre (Zpos m1) e1 (Zpos m2) e2 ltac:(lia) ltac:(lia))
    as (Hs & Hmz & Hpre & Hdig).
  cbv zeta in Hs, Hmz, Hpre, Hdig. cbn [Zdigits2] in *.
  remember (Z.min (fexp64 (Zpos (digits2_pos m1) + e1
                           - (Zpos (digits2_pos m2) + e2))) (e1 - e2))
    as e' eqn:Ee'.
  remember (e1 - e2 - e') as s eqn:Es.
  assert (Hps : 0 < 2 ^ s) by pow2_pos.
  remember (Zpos m1 * 2 ^ s / Zpos m2) as mz eqn:Emz.
  assert (Hcond : e' <= 0 -> 1 * 2 ^ (- e') <= mz).
  { intros He'. rewrite Z.mul_1_l, Emz.
    apply Z.div_le_lower_bound; [lia|].
    assert (Zpos m2 * 2 ^ (- e') < Zpos m1 * 2 ^ s); [|lia].
    rewrite Zlt_Qlt, !inject_Z_mult, !Q2pow_inject by lia.
    pose proof (Q2pow_pos (- e2 - e')) as Hp.
    assert (H := Qmult_lt_compat_r _ _ _ Hp Hlt).
    assert (E1 : (inject_Z (Zpos m2) * 2 ^ e2 * 2 ^ (- e2 - e')
                  == inject_Z (Zpos m2) * 2 ^ (- e'))%Q).
    { rewrite <- Qmult_assoc, <- Q2pow_add.
      replace (e2 + (- e2 - e')) with (- e') by lia. reflexivity. }
    assert (E2 : (inject_Z (Zpos m1) * 2 ^ e1 * 2 ^ (- e2 - e')
                  == inject_Z (Zpos m1) * 2 ^ s)%Q).
    { rewrite <- Qmult_assoc, <- Q2pow_add.
      replace (e1 + (- e2 - e')) with s by lia. reflexivity. }
    rewrite E1, E2 in H. exact H. }
  destruct (binary_round_aux_ge 1 mz e'
              (new_location (Zpos m2) ((Zpos m1 * 2 ^ s) mod Zpos m2)) 1022
              Hmz Hpre ltac:(lia) ltac:(lia) ltac:(lia) Hcond)
    as (Hnn & Hfb & Hge).
  destruct (to_int_floor _ _ Hnn Hfb) as (z & Ez & _ & Hz1 & Hz2).
  exists z. split; [exact Ez|].
  apply (inject_Z_le_floor 1 z _ Hge Hz2).
Qed.

(** X15: for a positive target rate below [2^53] and a finite frame rate
    of the capture, the frame interval is computed without an exception
    and is at least one, so that the reading loop never divides by zero. *)
Theorem frame_interval_at_least_one original_fps target_fps :
  PyFloat.finite_below 1022 original_fps -> 0 < target_fps < 2 ^ 53 ->
  exists k,
    FrameProcessor.frame_interval original_fps target_fps = Ok k /\ 1 <= k.
Proof.
  intros Hfps Ht. unfold FrameProcessor.frame_interval.
  destruct (FrameProcessor.int_ltb_float target_fps original_fps) eqn:E;
    [|exists 1; split; [reflexivity | lia]].
  destruct (int_ltb_float_pos target_fps original_fps ltac:(lia)
              (finite_below_mono 1022 1024 _ ltac:(lia) Hfps) E)
    as (m1 & e1 & -> & Hlt).
  destruct (of_int_exact target_fps ltac:(lia)) as (ft & Eft & Hnn & Hv).
  destruct (positive_integer_float ft target_fps ltac:(lia) Hnn Hv)
    as (m2 & e2 & -> & Hv2 & Hmag).
  rewrite Eft. cbn [bind FrameProcessor.float_divide].
  cbn [PyFloat.finite_below] in Hfps. destruct Hfps as [_ Hmag1].
  apply SFdiv_above_one; [|exact Hmag1 | exact Hmag].
  rewrite Hv2. exact Hlt.
Qed.

(** * The extreme smoothing factors *)

(** A non-zero integer below [2^53] converts to a normal double of the same
    value. *)
Lemma of_int_normal z :
  z <> 0 -> Z.abs z < 2 ^ 53 ->
  exists m e,
    PyFloat.of_int z = Ok (S754_finite (z <? 0) m e) /\
    2 ^ 52 <= Zpos m < 2 ^ 53 /\ -1074 <= e <= 0 /\
    Zpos m = Z.abs z * 2 ^ (- e).
Proof.
  intros Hz Hb. unfold PyFloat.of_int.
  assert (Hgen : forall s p, Zpos p < 2 ^ 53 ->
            exists m e,
              binary_round 53 1024 s p 0 = S754_finite s m e /\
              2 ^ 52 <= Zpos m < 2 ^ 53 /\ -1074 <= e <= 0 /\
              Zpos m = Zpos p * 2 ^ (- e)).
  { intros s p Hp. unfold binary_round.
    assert (Hdp : Zpos (digits2_pos p) <= 53).
    { change (Zpos (digits2_pos p)) with (Zdigits2 (Zpos p)).
      apply Zdigits2_le; lia. }
    pose proof (shl_align_value p 0 (fexp64 (Zpos (digits2_pos p) + 0))) as H.
    cbv zeta in H.
    destruct (shl_align p 0 (fexp64 (Zpos (digits2_pos p) + 0))) as [mz ez].
    cbn [fst snd] in H. destruct H as [Hez Hmz].
    rewrite fexp64_eq in Hez.
    assert (Ez : ez = Zpos (digits2_pos p) - 53) by lia.
    destruct (digits2_pos_spec p) as [Hlo Hhi].
    assert (Hk : 2 ^ 52 <= Zpos mz < 2 ^ 53).
    { rewrite Hmz.
      assert (0 < 2 ^ (0 - ez)) by pow2_pos.
      assert (E52 : 2 ^ 52 = 2 ^ (Zpos (digits2_pos p) - 1) * 2 ^ (0 - ez)).
      { rewrite <- Z.pow_add_r by lia. f_equal. lia. }
      assert (E53 : 2 ^ 53 = 2 ^ Zpos (digits2_pos p) * 2 ^ (0 - ez)).
      { rewrite <- Z.pow_add_r by lia. f_equal. lia. }
      rewrite E52, E53. split.
      - apply Z.mul_le_mono_nonneg_r; lia.
      - apply Z.mul_lt_mono_pos_r; lia. }
    pose proof (binary_round_aux_exact s (Zpos mz) 0 ez Hk ltac:(lia)
                  ltac:(lia)) as Hexact.
    change (2 ^ 0) with 1 in Hexact. rewrite Z.mul_1_r, Z.add_0_r in Hexact.
    rewrite Hexact. cbn [Z.to_pos].
    exists mz, ez. split; [reflexivity|]. split; [exact Hk|].
    split; [lia|]. rewrite Hmz. do 2 f_equal; lia. }
  destruct z as [| p | p]; [congruence | |]; cbn [binary_normalize Z.abs] in *.
  - destruct (Hgen false p Hb) as (m & e & -> & H).
    cbn [PyFloat.is_infinite]. exists m, e. split; [reflexivity | exact H].
  - destruct (Hgen true p Hb) as (m & e & -> & H).
    cbn [PyFloat.is_infinite]. exists m, e. split; [reflexivity | exact H].
Qed.

(** Multiplying a normal double by [1.0] is exact. *)
Lemma mul_one s m e :
  2 ^ 52 <= Zpos m < 2 ^ 53 -> -1074 <= e <= 971 ->
  PyFloat.mul (S754_finite s m e) PyFloat.one = S754_finite s m e.
Proof.
  intros Hm He. unfold PyFloat.mul, PyFloat.one. cbn [SFmul].
  rewrite Pos2Z.inj_mul. change (Zpos 4503599627370496) with (2 ^ 52).
  rewrite (binary_round_aux_exact (xorb s false) (Zpos m) 52 (e + -52))
    by lia.
  rewrite xorb_false_r. cbn [Z.to_pos]. f_equal. lia.
Qed.

Lemma to_int_normal s m e z :
  -1074 <= e <= 0 -> Zpos m = Z.abs z * 2 ^ (- e) -> (z <? 0) = s ->
  PyFloat.to_int (S754_finite s m e) = Ok z.
Proof.
  intros He Hm Hs. cbn [PyFloat.to_int]. f_equal.
  assert (Hv : Z.shiftl (Zpos m) e = Z.abs z).
  { destruct (Z.eq_dec e 0) as [-> | Hne].
    - cbn [Z.shiftl]. rewrite Hm. simpl. lia.
    - rewrite Z.shiftl_div_pow2 by lia. rewrite Hm.
      apply Z.div_mul. apply Z.pow_nonzero; lia. }
  rewrite Hv. subst s. destruct (z <? 0) eqn:E; cbn [cond_Zopp].
  - apply Z.ltb_lt in E. lia.
  - apply Z.ltb_ge in E. lia.
Qed.

(** The product of a converted integer and a zero is a zero. *)
Lemma mul_zero f K s :
  PyFloat.finite_below K f ->
  exists s', PyFloat.mul f (S754_zero s) = S754_zero s'.
Proof.
  destruct f as [sf | sf | | sf m e]; cbn; intros H; try contradiction; eauto.
Qed.

(** [1 - 1.0] and [1 - 0.0] *)
Lemma sub_one_one : PyFloat.sub PyFloat.one PyFloat.one = S754_zero false.
Proof. reflexivity. Qed.

Lemma sub_one_zero s : PyFloat.sub PyFloat.one (S754_zero s) = PyFloat.one.
Proof. reflexivity. Qed.

(** With the factor [1.0] the smoothed value is the new value. *)
Lemma smooth_one prev roi :
  Z.abs prev < 2 ^ 1023 -> Z.abs roi < 2 ^ 53 ->
  smooth PyFloat.one prev roi = Ok roi.
Proof.
  intros Hp Hr. unfold smooth. rewrite sub_one_one.
  destruct (of_int_ok prev 1023 Hp ltac:(lia)) as (fp & Ep & Bp).
  rewrite Ep. cbn [bind].
  destruct (mul_zero fp _ false Bp) as [s' ->].
  destruct (Z.eq_dec roi 0) as [-> | Hne].
  - cbn. destruct s'; reflexivity.
  - destruct (of_int_normal roi Hne Hr) as (m & e & -> & Hm & He & Hv).
    cbn [bind]. rewrite mul_one by lia.
    unfold PyFloat.add. cbn [SFadd].
    apply to_int_normal; auto.
Qed.

(** With the factor [0.0] the smoothed value is the previous value. *)
Lemma smooth_zero s prev roi :
  Z.abs prev < 2 ^ 53 -> Z.abs roi < 2 ^ 1023 ->
  smooth (S754_zero s) prev roi = Ok prev.
Proof.
  intros Hp Hr. unfold smooth. rewrite sub_one_zero.
  destruct (of_int_ok roi 1023 Hr ltac:(lia)) as (fr & Er & Br).
  rewrite Er.
  destruct (mul_zero fr _ s Br) as [s' Es'].
  destruct (Z.eq_dec prev 0) as [-> | Hne].
  - cbn [PyFloat.of_int binary_normalize PyFloat.is_infinite bind].
    rewrite Es'. cbn. destruct s'; reflexivity.
  - destruct (of_int_normal prev Hne Hp) as (m & e & -> & Hm & He & Hv).
    cbn [bind]. rewrite mul_one by lia. rewrite Es'.
    unfold PyFloat.add. cbn [SFadd].
    apply to_int_normal; auto.
Qed.

Lemma clamp_idempotent lo hi v :
  clamp lo hi (clamp lo hi v) = clamp lo hi v.
Proof. unfold clamp. lia. Qed.

Section ExtremeFactors.

Variable frame0 : Frame.
Variable frames : list Frame.
Variable motion_results : list (list Box).
Variables vp_width vp_height : Z.
Variable smoothing_factor : PyFloat.float.
Variable ps : list Position.

Hypothesis valid :
  well_formed (frame0 :: frames) motion_results (vp_width, vp_height)
    smoothing_factor = true.
Hypothesis tracked :
  track_viewport (frame0 :: frames) motion_results (vp_width, vp_height)
    smoothing_factor = Ok ps.

(** A position and the region of interest it was computed from, with the
    bounds that well-formed inputs give. *)
Lemma tracked_step i p :
  nth_error ps i = Some p ->
  exists frame roi_x roi_y roi_w roi_h smooth_x smooth_y,
    nth_error (frame0 :: frames) i = Some frame /\
    calculate_region_of_interest (nth i motion_results []) frame
      = Ok (roi_x, roi_y, roi_w, roi_h) /\
    Z.abs roi_x < 2 ^ 34 /\ Z.abs roi_y < 2 ^ 34 /\
    match i with
    | O => smooth_x = roi_x /\ smooth_y = roi_y
    | S i' =>
      exists prev,
        nth_error ps i' = Some prev /\
        Z.abs (fst prev) < 2 ^ 34 /\ Z.abs (snd prev) < 2 ^ 34 /\
        smooth smoothing_factor (fst prev) roi_x = Ok smooth_x /\
        smooth smoothing_factor (snd prev) roi_y = Ok smooth_y
    end /\
    p = (clamp (vp_width / 2) (width frame0 - vp_width / 2) smooth_x,
         clamp (vp_height / 2) (height frame0 - vp_height / 2) smooth_y).
Proof.
  intros Ep.
  pose proof valid as Hwf. unfold well_formed in Hwf.
  apply andb_prop in Hwf. destruct Hwf as [Hwf Ha].
  apply andb_prop in Hwf. destruct Hwf as [Hwf Hvp].
  apply andb_prop in Hwf. destruct Hwf as [Hfr Hmr].
  assert (Hf0 : valid_frame frame0 = true).
  { cbn [forallb] in Hfr. apply andb_prop in Hfr. tauto. }
  pose proof Hf0 as Hf0'. unfold valid_frame in Hf0'.
  apply andb_prop in Hf0'. destruct Hf0' as [Hh0 Hw0].
  destruct (clamp_bounds_abs (width frame0) (height frame0) vp_width
              vp_height Hw0 Hh0 Hvp) as (B1 & B2 & B3 & B4).
  destruct (track_viewport_nth _ _ _ _ _ _ _ _ _ tracked Ep)
    as (mb & Emb & Hstep).
  apply step_inv in Hstep.
  destruct Hstep as (frame & rx & ry & rw & rh & sx & sy & Ef & Eroi & Hs & Hp).
  assert (Hframe : valid_frame frame = true).
  { rewrite forallb_forall in Hfr. apply Hfr.
    eapply nth_error_In. exact Ef. }
  assert (Hmb : forallb valid_box mb = true).
  { rewrite forallb_forall in Hmr. apply Hmr.
    eapply nth_error_In. exact Emb. }
  destruct (calculate_region_of_interest_ok mb frame Hmb Hframe)
    as (rx' & ry' & rw' & rh' & Eroi' & Hrx & Hry).
  rewrite Eroi in Eroi'. injection Eroi' as <- <- <- <-.
  exists frame, rx, ry, rw, rh, sx, sy.
  rewrite (nth_error_nth _ _ _ Emb).
  split; [exact Ef|]. split; [exact Eroi|].
  split; [exact Hrx|]. split; [exact Hry|]. split; [|exact Hp].
  destruct i as [| i']; [exact Hs|].
  cbn [previous] in Hs.
  assert (Hlt : (i' < length ps)%nat).
  { assert (S i' < length ps)%nat by (apply nth_error_Some; congruence).
    lia. }
  destruct (nth_error ps i') as [prev|] eqn:Eprev;
    [|apply nth_error_None in Eprev; lia].
  rewrite (nth_error_nth _ _ _ Eprev) in Hs.
  exists prev. split; [reflexivity|].
  destruct (track_viewport_clamped _ _ _ _ _ _ _ _ tracked
              (nth_error_In _ _ Eprev)) as (px & py & ->).
  cbn [fst snd] in *.
  split; [apply clamp_abs; assumption|].
  split; [apply clamp_abs; assumption|]. exact Hs.
Qed.

End ExtremeFactors.

(** X16: with the smoothing factor [1.0] nothing is smoothed: on
    well-formed input every position is the clamped centre of the region
    of interest of its own frame. *)
Theorem factor_one_follows_region_of_interest frame0 frames motion_results
    vp_width vp_height ps i p :
  well_formed (frame0 :: frames) motion_results (vp_width, vp_height)
    PyFloat.one = true ->
  track_viewport (frame0 :: frames) motion_results (vp_width, vp_height)
    PyFloat.one = Ok ps ->
  nth_error ps i = Some p ->
  exists frame roi_x roi_y roi_w roi_h,
    nth_error (frame0 :: frames) i = Some frame /\
    calculate_region_of_interest (nth i motion_results []) frame
      = Ok (roi_x, roi_y, roi_w, roi_h) /\
    p = (clamp (vp_width / 2) (width frame0 - vp_width / 2) roi_x,
         clamp (vp_height / 2) (height frame0 - vp_height / 2) roi_y).
Proof.
  intros Hwf Htrack Ep.
  destruct (tracked_step _ _ _ _ _ _ _ Hwf Htrack i p Ep)
    as (frame & rx & ry & rw & rh & sx & sy & Ef & Eroi & Hrx & Hry & Hs & ->).
  exists frame, rx, ry, rw, rh. split; [exact Ef|]. split; [exact Eroi|].
  assert (E34 : 2 ^ 34 < 2 ^ 53) by (apply Z.pow_lt_mono_r; lia).
  assert (E53 : 2 ^ 53 < 2 ^ 1023) by (apply Z.pow_lt_mono_r; lia).
  destruct i as [| i'].
  - destruct Hs as [-> ->]. reflexivity.
  - destruct Hs as (prev & _ & Hpx & Hpy & Hsx & Hsy).
    rewrite smooth_one in Hsx, Hsy by lia.
    injection Hsx as <-. injection Hsy as <-. reflexivity.
Qed.

(** X17: with the smoothing factor [0.0] the viewport never moves: on
    well-formed input every position equals the first one, the clamped
    centre of the region of interest of the first frame. *)
Theorem factor_zero_keeps_first_position frame0 frames motion_results
    vp_width vp_height ps i p :
  well_formed (frame0 :: frames) motion_results (vp_width, vp_height)
    PyFloat.zero = true ->
  track_viewport (frame0 :: frames) motion_results (vp_width, vp_height)
    PyFloat.zero = Ok ps ->
  nth_error ps i = Some p ->
  nth_error ps 0 = Some p.
Proof.
  intros Hwf Htrack. revert p.
  assert (E34 : 2 ^ 34 < 2 ^ 53) by (apply Z.pow_lt_mono_r; lia).
  assert (E53 : 2 ^ 53 < 2 ^ 1023) by (apply Z.pow_lt_mono_r; lia).
  induction i as [| i' IH]; intros p Ep; [exact Ep|].
  destruct (tracked_step _ _ _ _ _ _ _ Hwf Htrack (S i') p Ep)
    as (frame & rx & ry & rw & rh & sx & sy & Ef & Eroi & Hrx & Hry & Hs & ->).
  destruct Hs as (prev & Eprev & Hpx & Hpy & Hsx & Hsy).
  unfold PyFloat.zero in Hsx, Hsy.
  rewrite smooth_zero in Hsx, Hsy by lia.
  injection Hsx as <-. injection Hsy as <-.
  rewrite (IH prev Eprev). f_equal.
  destruct (track_viewport_clamped _ _ _ _ _ _ _ _ Htrack
              (nth_error_In _ _ Eprev)) as (px & py & ->).
  cbn [fst snd]. rewrite !clamp_idempotent. reflexivity.
Qed.

(** * One smoothing step with any factor *)

(** The value of a smoothing factor: a double in [[0, 1]]. *)
Lemma valid_smoothing_value a :
  valid_smoothing a = true ->
  PyFloat.nonneg a /\ (0 <= PyFloat.F2Q a <= 1)%Q.
Proof.
  unfold valid_smoothing. intros H.
  apply andb_prop in H. destruct H as [H H1].
  apply andb_prop in H. destruct H as [Hv H0].
  unfold PyFloat.leb, PyFloat.zero, PyFloat.one, PyFloat.valid in *.
  destruct a as [s | s | | s m e]; cbn [PyFloat.nonneg PyFloat.F2Q].
  - split; [exact I | lra].
  - destruct s; discriminate.
  - discriminate.
  - destruct s; [discriminate|]. split; [exact I|].
    cbn [valid_binary] in Hv. apply bounded_inv in Hv.
    destruct Hv as (Hd & He & _).
    cbn [cond_Zopp]. pose proof (Q2pow_pos e) as Hpe. split.
    + apply Qmult_le_0_compat; [|lra].
      change 0%Q with (inject_Z 0). rewrite <- Zle_Qle. lia.
    + unfold SFleb, SFcompare in H1.
      destruct (digits2_pos_spec m) as [_ Hhi].
      destruct (Z.compare_spec e (-52)) as [E | E | E].
      * subst e. assert (Hle : Zpos m <= 4503599627370496).
        { apply compare_cont_le. intros C. rewrite C in H1. discriminate. }
        assert (E1 : (1 == inject_Z 4503599627370496 * 2 ^ (-52))%Q)
          by reflexivity.
        rewrite E1. apply Qmult_le_compat_r; [|lra].
        rewrite <- Zle_Qle. exact Hle.
      * assert (Hm : Zpos m <= 2 ^ 53).
        { assert (2 ^ Zpos (digits2_pos m) <= 2 ^ 53)
            by (apply Z.pow_le_mono_r; lia).
          lia. }
        assert (Hq : (inject_Z (Zpos m) * 2 ^ e
                      <= inject_Z (2 ^ 53) * 2 ^ e)%Q).
        { apply Qmult_le_compat_r; [|lra]. rewrite <- Zle_Qle. exact Hm. }
        assert (Hq2 : (inject_Z (2 ^ 53) * 2 ^ e
                       <= inject_Z (2 ^ 53) * 2 ^ (-53))%Q).
        { rewrite !(Qmult_comm (inject_Z (2 ^ 53))).
          apply Qmult_le_compat_r; [apply Q2pow_le; lia|].
          change 0%Q with (inject_Z 0). rewrite <- Zle_Qle. lia. }
        assert (E1 : (inject_Z (2 ^ 53) * 2 ^ (-53) == 1)%Q) by reflexivity.
        lra.
      * discriminate.
Qed.

(** [1 - a] for a smoothing factor [a], within half a unit in the last
    place of [1]. *)
Lemma sub_one_value a :
  valid_smoothing a = true ->
  let c := PyFloat.sub PyFloat.one a in
  PyFloat.nonneg c /\ PyFloat.finite_below 3 c /\
  (1 - PyFloat.F2Q a - 2 ^ (-53) <= PyFloat.F2Q c
   <= 1 - PyFloat.F2Q a + 2 ^ (-53))%Q.
Proof.
  intros Ha c. subst c.
  pose proof (valid_smoothing_bound a Ha) as Ba.
  destruct (valid_smoothing_value a Ha) as [Na Va].
  pose proof (SFsub_bound _ _ 1 one_finite_below Ba ltac:(lia)) as Bc.
  change (1 + 2) with 3 in Bc. unfold PyFloat.sub.
  assert (U : (2 ^ (-53) == 1 # 9007199254740992)%Q) by reflexivity.
  destruct a as [s | s | | [|] m e]; cbn [PyFloat.nonneg] in Na;
    try contradiction.
  - split; [exact I|]. split; [exact Bc|].
    cbn [SFsub PyFloat.one PyFloat.F2Q cond_Zopp].
    assert (E1 : (inject_Z 4503599627370496 * 2 ^ (-52) == 1)%Q)
      by reflexivity.
    rewrite E1, U. split; lra.
  - unfold PyFloat.one in *. cbn [SFsub] in *.
    set (ez := Z.min (-52) e) in *.
    destruct (shl_align_value 4503599627370496 (-52) ez) as [E11 E12].
    destruct (shl_align_value m e ez) as [Ea1 Ea2].
    replace (Z.min (-52) ez) with ez in E11 by (unfold ez; lia).
    replace (Z.min e ez) with ez in Ea1 by (unfold ez; lia).
    rewrite E11 in E12. rewrite Ea1 in Ea2.
    cbn [cond_Zopp] in *.
    remember (fst (shl_align 4503599627370496 (-52) ez)) as a1.
    remember (fst (shl_align m e ez)) as aa.
    assert (H1' : (inject_Z (Zpos a1) * 2 ^ ez == 1)%Q).
    { rewrite E12, Q2pow_shift by (unfold ez; lia).
      replace (ez + (-52 - ez)) with (-52) by lia. reflexivity. }
    assert (Ha' : (inject_Z (Zpos aa) * 2 ^ ez
                   == inject_Z (Zpos m) * 2 ^ e)%Q).
    { rewrite Ea2, Q2pow_shift by (unfold ez; lia).
      replace (ez + (e - ez)) with e by lia. reflexivity. }
    cbn [PyFloat.F2Q cond_Zopp] in Va |- *.
    pose proof (Q2pow_pos ez) as Hpz.
    assert (Hle : Zpos aa <= Zpos a1).
    { destruct (Z_le_gt_dec (Zpos aa) (Zpos a1)) as [|Hgt]; [assumption|].
      exfalso.
      assert (Hq : (inject_Z (Zpos a1) * 2 ^ ez
                    < inject_Z (Zpos aa) * 2 ^ ez)%Q).
      { apply Qmult_lt_compat_r; [assumption|].
        rewrite <- Zlt_Qlt. lia. }
      lra. }
    assert (Hv : (inject_Z (Zpos a1 - Zpos aa) * 2 ^ ez
                  == 1 - inject_Z (Zpos m) * 2 ^ e)%Q).
    { unfold Z.sub. rewrite inject_Z_plus, inject_Z_opp, <- H1', <- Ha'.
      ring. }
    assert (Ea1' : Zpos a1 = 2 ^ (- ez)).
    { rewrite E12. change 4503599627370496 with (2 ^ 52).
      rewrite <- Z.pow_add_r by (unfold ez; lia). f_equal. lia. }
    destruct (Zpos a1 - Zpos aa) as [| d | d] eqn:Ed; try lia;
      cbn [binary_normalize] in *.
    + split; [exact I|]. split; [exact Bc|].
      cbn [PyFloat.F2Q]. rewrite U.
      assert (E0 : (inject_Z 0 * 2 ^ ez == 0)%Q) by ring.
      rewrite E0 in Hv. split; lra.
    + assert (Hd : Zpos (digits2_pos d) + ez <= 0).
      { change (Zpos (digits2_pos d)) with (Zdigits2 (Zpos d)).
        assert (Zdigits2 (Zpos d) <= - ez); [|lia].
        apply Zdigits2_le; [lia | unfold ez; lia | lia]. }
      destruct (binary_round_value d ez 0 Hd ltac:(lia)) as [Hn Hr].
      split; [exact Hn|]. split; [exact Bc|].
      change (2 ^ (0 - 53))%Q with (2 ^ (-53))%Q in Hr.
      rewrite Hv in Hr. exact Hr.
Qed.

(** One smoothing step with any factor in [[0, 1]] on non-negative
    coordinates raises no exception and lands between the previous position
    and the new one, or one pixel below the smaller of the two. *)
Lemma smooth_between smoothing_factor prev roi :
  valid_smoothing smoothing_factor = true ->
  0 <= prev < 2 ^ 34 -> 0 <= roi < 2 ^ 34 ->
  exists v,
    smooth smoothing_factor prev roi = Ok v /\
    Z.min prev roi - 1 <= v <= Z.max prev roi.
Proof.
  intros Ha Hp HB. unfold smooth.
  assert (E34 : 2 ^ 34 < 2 ^ 53) by (apply Z.pow_lt_mono_r; lia).
  destruct (sub_one_value smoothing_factor Ha) as (Nc & Bc & Vc).
  destruct (valid_smoothing_value smoothing_factor Ha) as [Na Va].
  pose proof (valid_smoothing_bound smoothing_factor Ha) as Ba.
  remember (PyFloat.sub PyFloat.one smoothing_factor) as c eqn:Ec.
  destruct (of_int_exact prev ltac:(lia)) as (fp & Ep & Np & Vp).
  destruct (of_int_exact roi ltac:(lia)) as (fB & EB & NB & VB).
  destruct (of_int_ok prev 34 ltac:(lia) ltac:(lia)) as (fp' & Ep' & Bp).
  destruct (of_int_ok roi 34 ltac:(lia) ltac:(lia)) as (fB' & EB' & BB).
  rewrite Ep in Ep'. injection Ep' as <-.
  rewrite EB in EB'. injection EB' as <-.
  rewrite Ep, EB. cbn [bind]. unfold PyFloat.add, PyFloat.mul.
  destruct (SFmul_value fp c _ _ Np Nc Bp Bc ltac:(lia)) as [N1 V1].
  destruct (SFmul_value fB smoothing_factor _ _ NB Na BB Ba ltac:(lia))
    as [N2 V2].
  pose proof (SFmul_bound _ _ _ _ Bp Bc ltac:(lia)) as B1.
  pose proof (SFmul_bound _ _ _ _ BB Ba ltac:(lia)) as B2.
  apply finite_below_mono with (K' := 39) in B1; [|lia].
  apply finite_below_mono with (K' := 39) in B2; [|lia].
  destruct (SFadd_value _ _ _ N1 N2 B1 B2 ltac:(lia)) as [N V].
  pose proof (SFadd_bound _ _ _ B1 B2 ltac:(lia)) as Bv.
  destruct (to_int_floor _ _ N Bv) as (z & Ez & Hz0 & Hz).
  exists z. split; [exact Ez|].
  (* the numeric facts, over the rationals *)
  assert (U0 : (2 ^ (-53) == 1 # 9007199254740992)%Q) by reflexivity.
  assert (U1 : (2 ^ (34 + 1 + 3 - 53) == 1 # 32768)%Q) by reflexivity.
  assert (U2 : (2 ^ (34 + 1 + 1 - 53) == 1 # 131072)%Q) by reflexivity.
  assert (U3 : (2 ^ (39 + 1 - 53) == 1 # 8192)%Q) by reflexivity.
  rewrite U0 in Vc. rewrite Vp, U1 in V1. rewrite VB, U2 in V2.
  rewrite U3 in V.
  remember (PyFloat.F2Q (SFmul 53 1024 fp c)) as x1.
  remember (PyFloat.F2Q (SFmul 53 1024 fB smoothing_factor)) as x2.
  remember (PyFloat.F2Q
              (SFadd 53 1024 (SFmul 53 1024 fp c)
                 (SFmul 53 1024 fB smoothing_factor))) as xv.
  remember (PyFloat.F2Q c) as cq. remember (PyFloat.F2Q smoothing_factor) as aq.
  remember (inject_Z prev) as P. remember (inject_Z roi) as R.
  assert (Pq : (0 <= P <= 17179869184)%Q).
  { subst P. change 0%Q with (inject_Z 0).
    change 17179869184%Q with (inject_Z (2 ^ 34)).
    rewrite <- !Zle_Qle. lia. }
  assert (Rq : (0 <= R <= 17179869184)%Q).
  { subst R. change 0%Q with (inject_Z 0).
    change 17179869184%Q with (inject_Z (2 ^ 34)).
    rewrite <- !Zle_Qle. lia. }
  (* the products that the linear reasoning needs *)
  assert (M1 : (0 <= P * (cq - (1 - aq) + (1 # 9007199254740992)))%Q)
    by (apply Qmult_le_0_compat; lra).
  assert (M2 : (0 <= P * ((1 - aq) + (1 # 9007199254740992) - cq))%Q)
    by (apply Qmult_le_0_compat; lra).
  destruct (Z_lt_le_dec prev roi) as [Hlt | Hge].
  - rewrite Z.min_l, Z.max_r by lia.
    assert (HPR : (P <= R)%Q) by (subst P R; rewrite <- Zle_Qle; lia).
    assert (M6 : (0 <= (R - P) * aq)%Q) by (apply Qmult_le_0_compat; lra).
    assert (M7 : (0 <= (R - P) * (1 - aq))%Q)
      by (apply Qmult_le_0_compat; lra).
    split.
    + assert (prev - 1 < z + 1); [|lia].
      rewrite Zlt_Qlt. unfold Z.sub.
      rewrite !inject_Z_plus, inject_Z_opp. rewrite <- HeqP.
      change (inject_Z 1) with 1%Q. lra.
    + apply inject_Z_lt_succ. rewrite <- HeqR. lra.
  - rewrite Z.min_r, Z.max_l by lia.
    assert (HPR : (R <= P)%Q) by (subst P R; rewrite <- Zle_Qle; lia).
    assert (M6 : (0 <= (P - R) * aq)%Q) by (apply Qmult_le_0_compat; lra).
    assert (M7 : (0 <= (P - R) * (1 - aq))%Q)
      by (apply Qmult_le_0_compat; lra).
    split.
    + assert (roi - 1 < z + 1); [|lia].
      rewrite Zlt_Qlt. unfold Z.sub.
      rewrite !inject_Z_plus, inject_Z_opp. rewrite <- HeqR.
      change (inject_Z 1) with 1%Q. lra.
    + apply inject_Z_lt_succ. rewrite <- HeqP. lra.
Qed.

(** * The region of interest and the frame *)

(** The centre lies in a rectangle that holds the centres of the boxes and
    the centre of the frame. *)
Lemma region_of_interest_within motion_boxes frame_shape lo hi :
  forallb (fun b => 0 <=? box_area b) motion_boxes = true ->
  forallb (center_within lo hi) motion_boxes = true ->
  0 <= fst lo -> 0 <= snd lo -> fst hi < 2 ^ 53 -> snd hi < 2 ^ 53 ->
  fst lo <= width frame_shape / 2 <= fst hi ->
  snd lo <= height frame_shape / 2 <= snd hi ->
  exists roi_x roi_y roi_w roi_h,
    calculate_region_of_interest motion_boxes frame_shape
      = Ok (roi_x, roi_y, roi_w, roi_h) /\
    fst lo <= roi_x <= fst hi /\ snd lo <= roi_y <= snd hi.
Proof.
  intros Ha Hc Hlx Hly Hhx Hhy Hcx Hcy.
  assert (Hcenter : exists roi_x roi_y roi_w roi_h,
    Ok (frame_center frame_shape) = Ok (roi_x, roi_y, roi_w, roi_h) /\
    fst lo <= roi_x <= fst hi /\ snd lo <= roi_y <= snd hi).
  { unfold frame_center. do 4 eexists. split; [reflexivity|]. auto. }
  unfold calculate_region_of_interest.
  destruct motion_boxes as [| b0 bs]; [exact Hcenter|].
  assert (H0 : weighted_between lo hi (0, 0, 0))
    by (unfold weighted_between; lia).
  pose proof (fold_accumulate_between lo hi (b0 :: bs) (0, 0, 0) Ha Hc H0)
    as Hin.
  destruct (fold_left accumulate (b0 :: bs) (0, 0, 0)) as [[tw wx] wy].
  destruct Hin as [Hx Hy].
  destruct (0 <? tw) eqn:Epos; [|exact Hcenter].
  apply Z.ltb_lt in Epos.
  destruct (true_divide_between (fst lo) (fst hi) wx tw Epos Hlx Hhx Hx)
    as (fx & ax & Efx & Eax & Bx).
  destruct (true_divide_between (snd lo) (snd hi) wy tw Epos Hly Hhy Hy)
    as (fy & ay & Efy & Eay & By).
  rewrite Efx. cbn [bind]. rewrite Eax. cbn [bind].
  rewrite Efy. cbn [bind]. rewrite Eay. cbn [bind].
  destruct (largest_box b0 bs) as [[[lx ly] lw] lh].
  exists ax, ay, lw, lh. auto.
Qed.

Lemma box_inside_spec shape x y w h :
  box_inside shape (x, y, w, h) = true ->
  0 <= x /\ 0 <= y /\ 0 <= w /\ 0 <= h /\
  x + w <= width shape /\ y + h <= height shape.
Proof.
  unfold box_inside. intros H.
  apply andb_prop in H. destruct H as [H H6].
  apply andb_prop in H. destruct H as [H H5].
  apply andb_prop in H. destruct H as [H H4].
  apply andb_prop in H. destruct H as [H H3].
  apply andb_prop in H. destruct H as [H1 H2].
  apply Z.leb_le in H1, H2, H3, H4, H5, H6. auto 6.
Qed.

(** X18: when every box lies inside the frame, the centre of the region
    of interest lies inside the frame too, and no exception is raised. *)
Theorem region_of_interest_inside_frame motion_boxes frame_shape :
  valid_frame frame_shape = true ->
  forallb (box_inside frame_shape) motion_boxes = true ->
  exists roi_x roi_y roi_w roi_h,
    calculate_region_of_interest motion_boxes frame_shape
      = Ok (roi_x, roi_y, roi_w, roi_h) /\
    0 <= roi_x <= width frame_shape /\ 0 <= roi_y <= height frame_shape.
Proof.
  intros Hf Hin. apply valid_frame_spec in Hf. destruct Hf as [Hh Hw].
  assert (E31 : 2 ^ 31 < 2 ^ 53) by (apply Z.pow_lt_mono_r; lia).
  pose proof (half_bounds (width frame_shape) ltac:(lia)) as Hcw.
  pose proof (half_bounds (height frame_shape) ltac:(lia)) as Hch.
  apply (region_of_interest_within motion_boxes frame_shape (0, 0)
           (width frame_shape, height frame_shape)); cbn [fst snd];
    try lia.
  - apply forallb_forall. intros [[[x y] w] h] Hb.
    rewrite forallb_forall in Hin. specialize (Hin _ Hb).
    apply box_inside_spec in Hin. apply Z.leb_le. cbn [box_area]. nia.
  - apply forallb_forall. intros [[[x y] w] h] Hb.
    rewrite forallb_forall in Hin. specialize (Hin _ Hb).
    apply box_inside_spec in Hin.
    destruct Hin as (Hx & Hy & Hw' & Hh' & Hxw & Hyh).
    pose proof (half_bounds w Hw'). pose proof (half_bounds h Hh').
    unfold center_within, box_center. cbn [fst snd].
    repeat (apply andb_true_intro; split); apply Z.leb_le; lia.
Qed.

Lemma region_of_interest_inside_frame_witness :
  exists roi_x roi_y roi_w roi_h,
    calculate_region_of_interest
      [(10, 20, 2, 3); (40, 30, 6, 4); (90, 90, 10, 10)] frame_100
      = Ok (roi_x, roi_y, roi_w, roi_h) /\
    0 <= roi_x <= width frame_100 /\ 0 <= roi_y <= height frame_100.
Proof.
  apply region_of_interest_inside_frame; vm_compute; reflexivity.
Defined.

(** The centre is non-negative when the corners of the boxes are. *)
Lemma region_of_interest_nonneg motion_boxes frame_shape
    roi_x roi_y roi_w roi_h :
  valid_frame frame_shape = true ->
  forallb valid_box motion_boxes = true ->
  forallb nonneg_corner motion_boxes = true ->
  calculate_region_of_interest motion_boxes frame_shape
    = Ok (roi_x, roi_y, roi_w, roi_h) ->
  0 <= roi_x /\ 0 <= roi_y.
Proof.
  intros Hf Hv Hn Eroi. apply valid_frame_spec in Hf. destruct Hf as [Hh Hw].
  assert (E32 : 2 ^ 32 < 2 ^ 53) by (apply Z.pow_lt_mono_r; lia).
  assert (E31 : 2 ^ 32 = 2 * 2 ^ 31) by reflexivity.
  pose proof (half_bounds (width frame_shape) ltac:(lia)) as Hcw.
  pose proof (half_bounds (height frame_shape) ltac:(lia)) as Hch.
  destruct (region_of_interest_within motion_boxes frame_shape (0, 0)
              (2 ^ 32, 2 ^ 32)) as (rx & ry & rw & rh & E & Bx & By);
    cbn [fst snd]; try lia.
  - apply forallb_forall. intros [[[x y] w] h] Hb.
    rewrite forallb_forall in Hv. specialize (Hv _ Hb).
    apply valid_box_spec in Hv. apply Z.leb_le. cbn [box_area]. nia.
  - apply forallb_forall. intros [[[x y] w] h] Hb.
    rewrite forallb_forall in Hv, Hn.
    specialize (Hv _ Hb). specialize (Hn _ Hb).
    apply valid_box_spec in Hv. destruct Hv as (Hx & Hy & Hw' & Hh').
    unfold nonneg_corner in Hn. apply andb_prop in Hn.
    destruct Hn as [Hx0 Hy0]. apply Z.leb_le in Hx0, Hy0.
    pose proof (half_bounds w ltac:(lia)). pose proof (half_bounds h ltac:(lia)).
    unfold center_within, box_center. cbn [fst snd].
    repeat (apply andb_true_intro; split); apply Z.leb_le; lia.
  - rewrite Eroi in E. injection E as <- <- <- <-.
    cbn [fst snd] in Bx, By. lia.
Qed.

(** * A position, its predecessor and its target *)

Lemma clamp_lower lo hi v : 0 <= lo -> 0 <= clamp lo hi v.
Proof. unfold clamp. lia. Qed.

Lemma abs_bound v b : 0 <= v -> Z.abs v < b -> 0 <= v < b.
Proof. lia. Qed.

(** Clamping keeps a value between two others, one of them clamped
    already. *)
Lemma clamp_between lo hi prev roi v :
  Z.min (clamp lo hi prev) roi - 1 <= v <= Z.max (clamp lo hi prev) roi ->
  Z.min (clamp lo hi prev) (clamp lo hi roi) - 1 <= clamp lo hi v
  <= Z.max (clamp lo hi prev) (clamp lo hi roi).
Proof. unfold clamp. lia. Qed.

(** X19: on well-formed input whose boxes have non-negative corners, for
    any smoothing factor in [[0, 1]], every position after the first lies,
    on each axis, between the previous position and the target (the
    clamped centre of the region of interest of its frame), or one pixel
    below the smaller of the two. *)
Theorem position_between_previous_and_target frame0 frames motion_results
    vp_width vp_height smoothing_factor ps i prev p :
  well_formed (frame0 :: frames) motion_results (vp_width, vp_height)
    smoothing_factor = true ->
  forallb (forallb nonneg_corner) motion_results = true ->
  track_viewport (frame0 :: frames) motion_results (vp_width, vp_height)
    smoothing_factor = Ok ps ->
  nth_error ps i = Some prev -> nth_error ps (S i) = Some p ->
  exists frame roi_x roi_y roi_w roi_h,
    nth_error (frame0 :: frames) (S i) = Some frame /\
    calculate_region_of_interest (nth (S i) motion_results []) frame
      = Ok (roi_x, roi_y, roi_w, roi_h) /\
    let target_x :=
      clamp (vp_width / 2) (width frame0 - vp_width / 2) roi_x in
    let target_y :=
      clamp (vp_height / 2) (height frame0 - vp_height / 2) roi_y in
    Z.min (fst prev) target_x - 1 <= fst p <= Z.max (fst prev) target_x /\
    Z.min (snd prev) target_y - 1 <= snd p <= Z.max (snd prev) target_y.
Proof.
  intros Hwf Hnn Htrack Eprev Ep.
  destruct (tracked_step _ _ _ _ _ _ _ Hwf Htrack (S i) p Ep)
    as (frame & rx & ry & rw & rh & sx & sy & Ef & Eroi & Hrx & Hry & Hs & ->).
  destruct Hs as (prev' & Eprev' & Hpx & Hpy & Hsx & Hsy).
  rewrite Eprev in Eprev'. injection Eprev' as <-.
  exists frame, rx, ry, rw, rh. split; [exact Ef|]. split; [exact Eroi|].
  pose proof Hwf as Hwf'. unfold well_formed in Hwf'.
  apply andb_prop in Hwf'. destruct Hwf' as [Hwf' Ha].
  apply andb_prop in Hwf'. destruct Hwf' as [Hwf' Hvp].
  apply andb_prop in Hwf'. destruct Hwf' as [Hfr Hmr].
  (* the boxes of this frame *)
  assert (Hlen : length ps = length motion_results).
  { unfold track_viewport in Htrack. eapply loop_length. exact Htrack. }
  assert (Hlt : (S i < length motion_results)%nat).
  { rewrite <- Hlen. apply nth_error_Some. congruence. }
  pose proof (nth_In motion_results [] Hlt) as Hmb.
  assert (Hvalid : forallb valid_box (nth (S i) motion_results []) = true)
    by (rewrite forallb_forall in Hmr; apply Hmr; exact Hmb).
  assert (Hcorner : forallb nonneg_corner (nth (S i) motion_results []) = true)
    by (rewrite forallb_forall in Hnn; apply Hnn; exact Hmb).
  assert (Hframe : valid_frame frame = true).
  { rewrite forallb_forall in Hfr. apply Hfr.
    eapply nth_error_In. exact Ef. }
  destruct (region_of_interest_nonneg _ _ _ _ _ _ Hframe Hvalid Hcorner Eroi)
    as [Hrx0 Hry0].
  (* the previous position is a clamped value, hence non-negative *)
  unfold valid_viewport in Hvp. cbn [fst snd] in Hvp.
  apply andb_prop in Hvp. destruct Hvp as [Hvw Hvh].
  apply pixel_size_spec in Hvw, Hvh.
  pose proof (half_bounds vp_width (proj1 Hvw)) as Hhw.
  pose proof (half_bounds vp_height (proj1 Hvh)) as Hhh.
  destruct (track_viewport_clamped _ _ _ _ _ _ _ _ Htrack
              (nth_error_In _ _ Eprev)) as (px & py & ->).
  cbn [fst snd] in *.
  destruct (smooth_between smoothing_factor _ rx Ha
              (abs_bound _ _ (clamp_lower _ _ px (proj1 Hhw)) Hpx)
              (abs_bound _ _ Hrx0 Hrx)) as (vx & Evx & Bx).
  destruct (smooth_between smoothing_factor _ ry Ha
              (abs_bound _ _ (clamp_lower _ _ py (proj1 Hhh)) Hpy)
              (abs_bound _ _ Hry0 Hry)) as (vy & Evy & By).
  rewrite Hsx in Evx. injection Evx as <-.
  rewrite Hsy in Evy. injection Evy as <-.
  cbv zeta. split; apply clamp_between; assumption.
Qed.

Lemma position_between_previous_and_target_witness :
  exists frame roi_x roi_y roi_w roi_h,
    nth_error pair_frames 1 = Some frame /\
    calculate_region_of_interest (nth 1 pair_motion []) frame
      = Ok (roi_x, roi_y, roi_w, roi_h) /\
    let target_x := clamp (20 / 2) (width frame_100 - 20 / 2) roi_x in
    let target_y := clamp (20 / 2) (height frame_100 - 20 / 2) roi_y in
    Z.min (fst (50, 50)) target_x - 1 <= fst (50, 50)
      <= Z.max (fst (50, 50)) target_x /\
    Z.min (snd (50, 50)) target_y - 1 <= snd (50, 50)
      <= Z.max (snd (50, 50)) target_y.
Proof.
  apply (position_between_previous_and_target frame_100 [frame_100]
           pair_motion 20 20 PyFloat.lit_0_3 [(50, 50); (50, 50)] 0
           (50, 50) (50, 50));
    vm_compute; reflexivity.
Defined.

(** * The order of the boxes *)

Lemma accumulate_comm acc b1 b2 :
  accumulate (accumulate acc b1) b2 = accumulate (accumulate acc b2) b1.
Proof.
  destruct acc as [[tw wx] wy], b1 as [[[x1 y1] w1] h1],
    b2 as [[[x2 y2] w2] h2].
  cbn [accumulate]. f_equal; [f_equal|]; lia.
Qed.

Lemma fold_accumulate_permutation bs bs' :
  Permutation bs bs' ->
  forall acc, fold_left accumulate bs acc = fold_left accumulate bs' acc.
Proof.
  induction 1 as [| b l l' _ IH | b1 b2 l | l l' l'' _ IH1 _ IH2];
    intros acc; cbn [fold_left].
  - reflexivity.
  - apply IH.
  - rewrite accumulate_comm. reflexivity.
  - rewrite IH1. apply IH2.
Qed.

(** X20: the centre of the region of interest does not depend on the order
    of the boxes (its reference size can, when several boxes have the
    maximal area). *)
Theorem region_of_interest_center_permutation motion_boxes motion_boxes'
    frame_shape roi_x roi_y roi_w roi_h :
  Permutation motion_boxes motion_boxes' ->
  calculate_region_of_interest motion_boxes frame_shape
    = Ok (roi_x, roi_y, roi_w, roi_h) ->
  exists roi_w' roi_h',
    calculate_region_of_interest motion_boxes' frame_shape
      = Ok (roi_x, roi_y, roi_w', roi_h').
Proof.
  intros Hperm. unfold calculate_region_of_interest.
  pose proof (fold_accumulate_permutation _ _ Hperm (0, 0, 0)) as Hfold.
  destruct motion_boxes as [| b0 bs].
  { apply Permutation_nil in Hperm. subst motion_boxes'.
    intros H. injection H as <- <- <- <-. do 2 eexists. reflexivity. }
  destruct motion_boxes' as [| b0' bs'].
  { apply Permutation_sym, Permutation_nil in Hperm. discriminate. }
  rewrite <- Hfold.
  destruct (fold_left accumulate (b0 :: bs) (0, 0, 0)) as [[tw wx] wy].
  destruct (0 <? tw).
  2:{ intros H. injection H as <- <- <- <-. do 2 eexists. reflexivity. }
  destruct (PyFloat.true_divide wx tw) as [fx|]; [|discriminate]. cbn [bind].
  destruct (PyFloat.to_int fx) as [ax|]; [|discriminate]. cbn [bind].
  destruct (PyFloat.true_divide wy tw) as [fy|]; [|discriminate]. cbn [bind].
  destruct (PyFloat.to_int fy) as [ay|]; [|discriminate]. cbn [bind].
  destruct (largest_box b0 bs) as [[[lx ly] lw] lh].
  destruct (largest_box b0' bs') as [[[lx' ly'] lw'] lh'].
  intros H. injection H as <- <- <- <-. do 2 eexists. reflexivity.
Qed.

Lemma region_of_interest_center_permutation_witness :
  calculate_region_of_interest
    [(10, 20, 2, 3); (40, 30, 6, 4); (60, 40, 4, 6)] frame_100
  = Ok (47, 35, 6, 4) /\
  exists roi_w' roi_h',
    calculate_region_of_interest
      [(60, 40, 4, 6); (40, 30, 6, 4); (10, 20, 2, 3)] frame_100
    = Ok (47, 35, roi_w', roi_h').
Proof.
  assert (H : calculate_region_of_interest
                [(10, 20, 2, 3); (40, 30, 6, 4); (60, 40, 4, 6)] frame_100
              = Ok (47, 35, 6, 4)) by (vm_compute; reflexivity).
  split; [exact H|].
  apply (region_of_interest_center_permutation _ _ _ _ _ _ _
           (Permutation_rev _) H).
Defined.

(** * Every frame is kept *)

(** X21: when the target rate is not below the frame rate that the capture
    reports (also when it reports [0.0] or a NaN), no frame is dropped:
    the result has one resized frame per frame of the video, in order. *)
Theorem process_video_keeps_all_frames (image : Type)
    (resize : image -> Z * Z -> result image)
    (cap : FrameProcessor.VideoCapture image) target_fps resize_dim frames :
  FrameProcessor.int_ltb_float target_fps
    (FrameProcessor.CAP_PROP_FPS image cap) = false ->
  FrameProcessor.isOpened image cap = true ->
  FrameProcessor.process_video image resize cap target_fps resize_dim
    = Ok frames ->
  length frames = length (FrameProcessor.read image cap) /\
  forall j frame,
    nth_error frames j = Some frame ->
    exists original,
      nth_error (FrameProcessor.read image cap) j = Some original /\
      resize original resize_dim = Ok frame.
Proof.
  intros Hfps Hopen. unfold FrameProcessor.process_video.
  rewrite Hopen. cbn [negb].
  destruct (PyFloat.to_int (FrameProcessor.CAP_PROP_FRAME_COUNT image cap))
    as [total | e]; [|discriminate].
  cbn [bind]. unfold FrameProcessor.frame_interval. rewrite Hfps.
  cbn [bind]. intros Hout.
  destruct (extract_spec image resize 1 resize_dim ltac:(lia) _ 0 [] frames
              0 0 ltac:(lia) ltac:(lia) Hout) as (new & -> & Hlen & Hnth).
  cbn [app]. split.
  - rewrite Z.div_1_r in Hlen. lia.
  - intros j frame Hj. destruct (Hnth j frame Hj) as (o & Ho & Hr).
    exists o. split; [|exact Hr].
    replace (Z.to_nat 0 + j * Z.to_nat 1)%nat with j in Ho by lia.
    exact Ho.
Qed.

(** * From the capture to the frames *)

Lemma ceil_div_bounds n k :
  0 <= n -> 1 <= k -> (n + k - 1) / k <= n /\ (1 <= n -> 1 <= (n + k - 1) / k).
Proof.
  intros Hn Hk. split.
  - destruct (Z.eq_dec n 0) as [-> | Hne].
    + rewrite Z.div_small; lia.
    + apply Z.div_le_upper_bound; [lia | nia].
  - intros H1. apply Z.div_le_lower_bound; lia.
Qed.

(** X22: for an opened capture with a finite frame rate and a finite frame
    count, a target rate in [[1, 2^53)] and frames that [cv2.resize]
    accepts, [process_video] raises no exception; it returns at most one
    frame per frame of the video, and at least one when the video has a
    frame. *)
Theorem process_video_returns (image : Type)
    (resize : image -> Z * Z -> result image)
    (cap : FrameProcessor.VideoCapture image) target_fps resize_dim :
  FrameProcessor.isOpened image cap = true ->
  PyFloat.finite_below 1022 (FrameProcessor.CAP_PROP_FPS image cap) ->
  PyFloat.finite_below 1024 (FrameProcessor.CAP_PROP_FRAME_COUNT image cap) ->
  0 < target_fps < 2 ^ 53 ->
  (forall frame, In frame (FrameProcessor.read image cap) ->
                 exists r, resize frame resize_dim = Ok r) ->
  exists frames,
    FrameProcessor.process_video image resize cap target_fps resize_dim
      = Ok frames /\
    (length frames <= length (FrameProcessor.read image cap))%nat /\
    (FrameProcessor.read image cap <> [] -> frames <> []).
Proof.
  intros Hopen Hfps Hcount Ht Hres. unfold FrameProcessor.process_video.
  rewrite Hopen. cbn [negb].
  destruct (to_int_ok _ 1024 Hcount ltac:(lia)) as (total & -> & _).
  cbn [bind].
  assert (Hk : exists k,
             FrameProcessor.frame_interval
               (FrameProcessor.CAP_PROP_FPS image cap) target_fps = Ok k
             /\ 1 <= k).
  { unfold FrameProcessor.frame_interval.
    destruct (FrameProcessor.int_ltb_float target_fps
                (FrameProcessor.CAP_PROP_FPS image cap)) eqn:E;
      [|exists 1; split; [reflexivity | lia]].
    destruct (int_ltb_float_pos target_fps _ ltac:(lia)
                (finite_below_mono 1022 1024 _ ltac:(lia) Hfps) E)
      as (m1 & e1 & Efps & Hlt).
    rewrite Efps in *.
    destruct (of_int_exact target_fps ltac:(lia)) as (ft & Eft & Hnn & Hv).
    destruct (positive_integer_float ft target_fps ltac:(lia) Hnn Hv)
      as (m2 & e2 & -> & Hv2 & Hmag).
    rewrite Eft. cbn [bind FrameProcessor.float_divide].
    cbn [PyFloat.finite_below] in Hfps. destruct Hfps as [_ Hmag1].
    apply SFdiv_above_one; [|exact Hmag1 | exact Hmag].
    rewrite Hv2. exact Hlt. }
  destruct Hk as (k & -> & Hk). cbn [bind].
  destruct (extract_ok image resize k resize_dim Hk
              (FrameProcessor.read image cap) 0 [] Hres) as (frames & Hout).
  exists frames. split; [exact Hout|].
  destruct (extract_spec image resize k resize_dim Hk _ 0 [] frames 0 0
              ltac:(lia) ltac:(lia) Hout) as (new & -> & Hlen & _).
  cbn [app].
  replace (Z.of_nat (length (FrameProcessor.read image cap)) + k - 1 - 0)
    with (Z.of_nat (length (FrameProcessor.read image cap)) + k - 1)
    in Hlen by lia.
  destruct (ceil_div_bounds
              (Z.of_nat (length (FrameProcessor.read image cap))) k
              ltac:(lia) Hk) as [Hle Hge].
  split; [lia|].
  intros Hne Hnil. subst new. cbn [length] in Hlen.
  destruct (FrameProcessor.read image cap) as [| f rest]; [congruence|].
  cbn [length] in Hlen, Hge. lia.
Qed.

(** * Concrete runs of the additional properties *)

Lemma process_video_sampling_witness :
  (Z.of_nat (length [(0, (640, 360)); (6, (640, 360))])
   = (Z.of_nat (length (FrameProcessor.read _ ToyVideo.cap)) + 6 - 1) / 6 /\
   forall j frame,
     nth_error [(0, (640, 360)); (6, (640, 360))] j = Some frame ->
     exists original,
       nth_error (FrameProcessor.read _ ToyVideo.cap) (j * Z.to_nat 6)
         = Some original /\
       ToyVideo.resize original (640, 360) = Ok frame) /\
  exists frames, ToyVideo.process_video ToyVideo.cap 5 (640, 360) = Ok frames.
Proof.
  destruct (process_video_sampling ToyVideo.image ToyVideo.resize ToyVideo.cap
              5 (640, 360) 6 eq_refl ltac:(vm_compute; reflexivity)
              ltac:(lia)) as [H1 H2].
  split.
  - apply H1. vm_compute. reflexivity.
  - apply H2.
    + eexists. vm_compute. reflexivity.
    + intros frame _. eexists. reflexivity.
Defined.

Lemma process_video_zero_target_fps_witness :
  ToyVideo.process_video ToyVideo.cap 0 (640, 360) = Raise ZeroDivisionError.
Proof.
  apply (process_video_zero_target_fps ToyVideo.image ToyVideo.resize
           ToyVideo.cap (640, 360) 7); vm_compute; reflexivity.
Defined.

Lemma frame_interval_at_least_one_witness :
  exists k, FrameProcessor.frame_interval ToyVideo.fps_30 5 = Ok k /\ 1 <= k.
Proof.
  apply frame_interval_at_least_one.
  - split; [reflexivity | cbn; lia].
  - lia.
Defined.

Lemma process_video_keeps_all_frames_witness :
  length (map (fun i => (i, (640, 360))) [0; 1; 2; 3; 4; 5; 6])
  = length (FrameProcessor.read _ ToyVideo.cap) /\
  forall j frame,
    nth_error (map (fun i => (i, (640, 360))) [0; 1; 2; 3; 4; 5; 6]) j
      = Some frame ->
    exists original,
      nth_error (FrameProcessor.read _ ToyVideo.cap) j = Some original /\
      ToyVideo.resize original (640, 360) = Ok frame.
Proof.
  apply (process_video_keeps_all_frames ToyVideo.image ToyVideo.resize
           ToyVideo.cap 30 (640, 360)); vm_compute; reflexivity.
Defined.

Lemma factor_one_follows_region_of_interest_witness :
  exists frame roi_x roi_y roi_w roi_h,
    nth_error pair_frames 1 = Some frame /\
    calculate_region_of_interest (nth 1 pair_motion []) frame
      = Ok (roi_x, roi_y, roi_w, roi_h) /\
    (52, 50) = (clamp (20 / 2) (width frame_100 - 20 / 2) roi_x,
                clamp (20 / 2) (height frame_100 - 20 / 2) roi_y).
Proof.
  apply (factor_one_follows_region_of_interest frame_100 [frame_100]
           pair_motion 20 20 [(50, 50); (52, 50)] 1 (52, 50));
    vm_compute; reflexivity.
Defined.

Lemma factor_zero_keeps_first_position_witness :
  track_viewport pair_frames pair_motion (20, 20) PyFloat.zero
  = Ok [(50, 50); (50, 50)] /\
  nth_error [(50, 50); (50, 50)] 0 = Some (50, 50).
Proof.
  assert (H : track_viewport pair_frames pair_motion (20, 20) PyFloat.zero
              = Ok [(50, 50); (50, 50)]) by (vm_compute; reflexivity).
  split; [exact H|].
  apply (factor_zero_keeps_first_position frame_100 [frame_100] pair_motion
           20 20 [(50, 50); (50, 50)] 1 (50, 50));
    [vm_compute; reflexivity | exact H | reflexivity].
Defined.

Lemma process_video_returns_witness :
  exists frames,
    ToyVideo.process_video ToyVideo.cap 5 (640, 360) = Ok frames /\
    (length frames <= length (FrameProcessor.read _ ToyVideo.cap))%nat /\
    (FrameProcessor.read _ ToyVideo.cap <> [] -> frames <> []).
Proof.
  apply (process_video_returns ToyVideo.image ToyVideo.resize ToyVideo.cap
           5 (640, 360)).
  - reflexivity.
  - split; [reflexivity | cbn; lia].
  - split; [reflexivity | cbn; lia].
  - lia.
  - intros frame _. eexists. reflexivity.
Defined.

(** * The smoothing recurrence *)

(** ** Signed values *)

(** The sign does not take part in the rounding. *)
Lemma binary_round_aux_sign s m e l :
  binary_round_aux 53 1024 s m e l
  = match binary_round_aux 53 1024 false m e l with
    | S754_zero _ => S754_zero s
    | S754_infinity _ => S754_infinity s
    | S754_nan => S754_nan
    | S754_finite _ m' e' => S754_finite s m' e'
    end.
Proof.
  unfold binary_round_aux.
  destruct (shr_fexp 53 1024 m e l) as [mrs1 e1].
  destruct (shr_fexp 53 1024 _ e1 loc_Exact) as [mrs2 e2].
  destruct (shr_m mrs2); [reflexivity | | reflexivity].
  destruct (e2 <=? 1024 - 53); reflexivity.
Qed.

Lemma inject_Z_cond_Zopp s z :
  (inject_Z (cond_Zopp s z) == (if s then - inject_Z z else inject_Z z))%Q.
Proof. destruct s; cbn [cond_Zopp]; [rewrite inject_Z_opp|]; reflexivity. Qed.

Lemma binary_round_aux_value_signed s m e K :
  0 < m -> e <= fexp64 (Zdigits2 m + e) -> Zdigits2 m + e <= K ->
  0 <= K <= 1023 ->
  let r := binary_round_aux 53 1024 s m e loc_Exact in
  (inject_Z (cond_Zopp s m) * 2 ^ e - 2 ^ (K - 53) <= PyFloat.F2Q r
   <= inject_Z (cond_Zopp s m) * 2 ^ e + 2 ^ (K - 53))%Q.
Proof.
  intros Hm H1 HK HKr r. subst r.
  destruct (binary_round_aux_value m e K Hm H1 HK HKr) as [Hn Hv].
  rewrite binary_round_aux_sign.
  rewrite inject_Z_cond_Zopp.
  destruct (binary_round_aux 53 1024 false m e loc_Exact)
    as [s0 | s0 | | [|] m0 e0]; cbn [PyFloat.nonneg] in Hn; try contradiction;
    cbn [PyFloat.F2Q cond_Zopp] in Hv |- *.
  - destruct s; split; lra.
  - rewrite inject_Z_cond_Zopp. destruct s; split; lra.
Qed.

Lemma binary_round_value_signed s p e K :
  Zpos (digits2_pos p) + e <= K -> 0 <= K <= 1023 ->
  let r := binary_round 53 1024 s p e in
  (inject_Z (cond_Zopp s (Zpos p)) * 2 ^ e - 2 ^ (K - 53) <= PyFloat.F2Q r
   <= inject_Z (cond_Zopp s (Zpos p)) * 2 ^ e + 2 ^ (K - 53))%Q.
Proof.
  intros HK HKr r. subst r. unfold binary_round.
  pose proof (shl_align_value p e (fexp64 (Zpos (digits2_pos p) + e))) as H.
  cbv zeta in H.
  destruct (shl_align p e (fexp64 (Zpos (digits2_pos p) + e))) as [mz ez].
  cbn [fst snd] in H. destruct H as [Hez Hmz].
  assert (Hd : Zdigits2 (Zpos mz) + ez = Zpos (digits2_pos p) + e).
  { rewrite Hmz, Zdigits2_mul_pow2 by lia. cbn [Zdigits2]. lia. }
  assert (Hv : (inject_Z (Zpos mz) * 2 ^ ez == inject_Z (Zpos p) * 2 ^ e)%Q).
  { rewrite Hmz, Q2pow_shift by lia.
    replace (ez + (e - ez)) with e by lia. reflexivity. }
  pose proof (binary_round_aux_value_signed s (Zpos mz) ez K ltac:(lia)
                ltac:(rewrite Hd; lia) ltac:(lia) HKr) as Hr.
  cbv zeta in Hr. rewrite inject_Z_cond_Zopp in Hr |- *.
  destruct s; split; lra.
Qed.

(** The value of a finite double with its sign. *)
Lemma F2Q_finite s m e :
  (PyFloat.F2Q (S754_finite s m e)
   == (if s then - (inject_Z (Zpos m) * 2 ^ e) else inject_Z (Zpos m) * 2 ^ e))%Q.
Proof.
  cbn [PyFloat.F2Q]. rewrite inject_Z_cond_Zopp. destruct s; ring.
Qed.

(** The product of two doubles, within one unit in the last place. *)
Lemma SFmul_value_signed x y K1 K2 :
  PyFloat.finite_below K1 x -> PyFloat.finite_below K2 y ->
  0 <= K1 + K2 <= 1023 ->
  (PyFloat.F2Q x * PyFloat.F2Q y - 2 ^ (K1 + K2 - 53)
   <= PyFloat.F2Q (SFmul 53 1024 x y)
   <= PyFloat.F2Q x * PyFloat.F2Q y + 2 ^ (K1 + K2 - 53))%Q.
Proof.
  intros Hx Hy HK.
  pose proof (Q2pow_pos (K1 + K2 - 53)) as Hu.
  destruct x as [sx | sx | | sx mx ex]; destruct y as [sy | sy | | sy my ey];
    cbn [PyFloat.finite_below] in Hx, Hy; try contradiction; cbn [SFmul].
  1-3: cbn [PyFloat.F2Q]; split; lra.
  destruct Hx as [Bx Kx], Hy as [By Ky].
  apply bounded_inv in Bx, By.
  pose proof (Zdigits2_mul (Zpos mx) (Zpos my) ltac:(lia) ltac:(lia)) as Hd.
  cbn [Zdigits2] in Hd. rewrite <- Pos2Z.inj_mul in Hd.
  change (Zpos (digits2_pos (mx * my))) with (Zdigits2 (Zpos (mx * my))) in Hd.
  pose proof (binary_round_aux_value_signed (xorb sx sy) (Zpos (mx * my))
                (ex + ey) (K1 + K2) ltac:(lia)
                ltac:(rewrite fexp64_eq; lia) ltac:(lia) HK) as Hr.
  cbv zeta in Hr.
  assert (Hv : (PyFloat.F2Q (S754_finite sx mx ex)
                * PyFloat.F2Q (S754_finite sy my ey)
                == inject_Z (cond_Zopp (xorb sx sy) (Zpos (mx * my)))
                   * 2 ^ (ex + ey))%Q).
  { rewrite !F2Q_finite, inject_Z_cond_Zopp.
    rewrite Pos2Z.inj_mul, inject_Z_mult, Q2pow_add.
    destruct sx, sy; cbn [xorb]; ring. }
  rewrite Hv. exact Hr.
Qed.

(** The sum of two doubles, within one unit in the last place. *)
Lemma SFadd_value_signed x y K :
  PyFloat.finite_below K x -> PyFloat.finite_below K y ->
  0 <= K + 1 <= 1023 ->
  (PyFloat.F2Q x + PyFloat.F2Q y - 2 ^ (K + 1 - 53)
   <= PyFloat.F2Q (SFadd 53 1024 x y)
   <= PyFloat.F2Q x + PyFloat.F2Q y + 2 ^ (K + 1 - 53))%Q.
Proof.
  intros Hx Hy HK.
  pose proof (Q2pow_pos (K + 1 - 53)) as Hu.
  destruct x as [sx | sx | | sx mx ex]; destruct y as [sy | sy | | sy my ey];
    cbn [PyFloat.finite_below] in Hx, Hy; try contradiction; cbn [SFadd].
  - destruct sx, sy; cbn [PyFloat.F2Q]; split; lra.
  - cbn [PyFloat.F2Q]. split; lra.
  - cbn [PyFloat.F2Q]. split; lra.
  - destruct Hx as [Bx Kx], Hy as [By Ky].
    set (ez := Z.min ex ey).
    pose proof (shl_align_lt mx ex ez K Kx ltac:(unfold ez; lia)) as Hax.
    pose proof (shl_align_lt my ey ez K Ky ltac:(unfold ez; lia)) as Hay.
    destruct (shl_align_value mx ex ez) as [Ex1 Ex2].
    destruct (shl_align_value my ey ez) as [Ey1 Ey2].
    replace (Z.min ex ez) with ez in Ex1 by (unfold ez; lia).
    replace (Z.min ey ez) with ez in Ey1 by (unfold ez; lia).
    rewrite Ex1 in Ex2. rewrite Ey1 in Ey2.
    remember (fst (shl_align mx ex ez)) as ax.
    remember (fst (shl_align my ey ez)) as ay.
    pose proof (sum_digits (Zpos ax) (Zpos ay) ez K sx sy Hax Hay
                  ltac:(cbn in Kx; unfold ez; lia)) as Hd.
    assert (Hx' : (inject_Z (Zpos ax) * 2 ^ ez
                   == inject_Z (Zpos mx) * 2 ^ ex)%Q).
    { rewrite Ex2, Q2pow_shift by (unfold ez; lia).
      replace (ez + (ex - ez)) with ex by lia. reflexivity. }
    assert (Hy' : (inject_Z (Zpos ay) * 2 ^ ez
                   == inject_Z (Zpos my) * 2 ^ ey)%Q).
    { rewrite Ey2, Q2pow_shift by (unfold ez; lia).
      replace (ez + (ey - ez)) with ey by lia. reflexivity. }
    assert (Hv : (PyFloat.F2Q (S754_finite sx mx ex)
                  + PyFloat.F2Q (S754_finite sy my ey)
                  == inject_Z (cond_Zopp sx (Zpos ax) + cond_Zopp sy (Zpos ay))
                     * 2 ^ ez)%Q).
    { rewrite !F2Q_finite, inject_Z_plus, !inject_Z_cond_Zopp.
      destruct sx, sy; lra. }
    rewrite Hv.
    destruct (cond_Zopp sx (Zpos ax) + cond_Zopp sy (Zpos ay))
      as [| d | d] eqn:Ed; cbn [binary_normalize].
    + cbn [PyFloat.F2Q]. change (inject_Z 0) with 0%Q. split; lra.
    + apply (binary_round_value_signed false d ez (K + 1)); [exact Hd | lia].
    + apply (binary_round_value_signed true d ez (K + 1)); [exact Hd | lia].
Qed.

(** Integers below [2^53] in magnitude convert exactly. *)
Lemma of_int_value z K :
  Z.abs z < 2 ^ K -> 0 <= K <= 53 ->
  exists f, PyFloat.of_int z = Ok f /\ PyFloat.finite_below (K + 1) f /\
            (PyFloat.F2Q f == inject_Z z)%Q.
Proof.
  intros Hz HK.
  assert (H53 : 2 ^ K <= 2 ^ 53) by (apply Z.pow_le_mono_r; lia).
  destruct (of_int_ok z K Hz ltac:(lia)) as (f & Ef & Bf).
  exists f. split; [exact Ef|]. split; [exact Bf|].
  destruct (Z.eq_dec z 0) as [-> | Hne].
  - cbn in Ef. injection Ef as <-. reflexivity.
  - destruct (of_int_normal z Hne ltac:(lia)) as (m & e & Ef' & Hm & He & Hv).
    rewrite Ef in Ef'. injection Ef' as ->.
    rewrite F2Q_finite.
    assert (E : (inject_Z (Zpos m) * 2 ^ e == inject_Z (Z.abs z))%Q).
    { rewrite Hv, Q2pow_shift by lia. replace (e + - e) with 0 by lia.
      change (2 ^ 0)%Q with 1%Q. ring. }
    destruct (z <? 0) eqn:Es; rewrite E.
    + apply Z.ltb_lt in Es. rewrite <- inject_Z_opp.
      rewrite Z.abs_neq by lia. rewrite Z.opp_involutive. reflexivity.
    + apply Z.ltb_ge in Es. rewrite Z.abs_eq by lia. reflexivity.
Qed.

Lemma Qfloor_unique q z :
  (inject_Z z <= q < inject_Z z + 1)%Q -> Qfloor q = z.
Proof.
  intros [Hlo Hhi].
  pose proof (Qfloor_le q) as H1. pose proof (Qlt_floor q) as H2.
  assert (A : (inject_Z (Qfloor q) < inject_Z (z + 1))%Q)
    by (rewrite inject_Z_plus; change (inject_Z 1) with 1%Q; lra).
  assert (B : (inject_Z z < inject_Z (Qfloor q + 1))%Q) by lra.
  rewrite <- Zlt_Qlt in A, B. lia.
Qed.

(** [int] truncates toward zero. *)
Lemma to_int_truncate f K :
  PyFloat.finite_below K f -> PyFloat.to_int f = Ok (truncate (PyFloat.F2Q f)).
Proof.
  intros Hf. destruct f as [s | s | | s m e]; cbn [PyFloat.finite_below] in Hf;
    try contradiction.
  - reflexivity.
  - destruct (to_int_floor (S754_finite false m e) K I Hf)
      as (z & Ez & Hz0 & Hz).
    cbn [PyFloat.to_int cond_Zopp] in Ez. injection Ez as Ez.
    cbn [PyFloat.to_int]. f_equal. rewrite Ez.
    rewrite F2Q_finite in Hz. cbn [PyFloat.F2Q cond_Zopp] in Hz.
    pose proof (Q2pow_pos e) as Hpe.
    assert (Hpos : (0 < inject_Z (Zpos m) * 2 ^ e)%Q).
    { apply Qmult_lt_0_compat; [|exact Hpe].
      change 0%Q with (inject_Z 0). rewrite <- Zlt_Qlt. lia. }
    unfold truncate. destruct s; cbn [cond_Zopp].
    + assert (En : Qle_bool 0 (PyFloat.F2Q (S754_finite true m e)) = false).
      { destruct (Qle_bool 0 (PyFloat.F2Q (S754_finite true m e))) eqn:E;
          [|reflexivity].
        apply Qle_bool_iff in E. rewrite F2Q_finite in E. lra. }
      rewrite En. unfold Qceiling. f_equal. symmetry. apply Qfloor_unique.
      rewrite F2Q_finite.
      setoid_replace (- - (inject_Z (Zpos m) * 2 ^ e))%Q
        with (inject_Z (Zpos m) * 2 ^ e)%Q by ring.
      exact Hz.
    + assert (En : Qle_bool 0 (PyFloat.F2Q (S754_finite false m e)) = true).
      { apply Qle_bool_iff. cbn [PyFloat.F2Q cond_Zopp]. lra. }
      rewrite En. symmetry. apply Qfloor_unique.
      cbn [PyFloat.F2Q cond_Zopp]. exact Hz.
Qed.

(** ** One smoothing step *)

Lemma smooth_smooth_value a prev roi :
  smooth a prev roi = (f <- smooth_value a prev roi ;; PyFloat.to_int f).
Proof.
  unfold smooth, smooth_value.
  destruct (PyFloat.of_int prev); [|reflexivity].
  destruct (PyFloat.of_int roi); reflexivity.
Qed.

Lemma inject_Z_abs_bound z K :
  Z.abs z < 2 ^ K -> 0 <= K ->
  (- inject_Z (2 ^ K) <= inject_Z z <= inject_Z (2 ^ K))%Q.
Proof.
  intros Hz HK. rewrite <- inject_Z_opp, <- !Zle_Qle. lia.
Qed.

(** [smooth] truncates a double that is within [2^-12] of the exact
    convex combination. *)
Lemma smooth_truncates a prev roi :
  valid_smoothing a = true ->
  Z.abs prev < 2 ^ 34 -> Z.abs roi < 2 ^ 34 ->
  exists v,
    smooth a prev roi = Ok v /\ truncated_smoothing a prev roi v = true.
Proof.
  intros Ha Hp Hr.
  destruct (sub_one_value a Ha) as (Nc & Bc & Vc).
  destruct (valid_smoothing_value a Ha) as [Na Va].
  pose proof (valid_smoothing_bound a Ha) as Ba.
  destruct (of_int_value prev 34 Hp ltac:(lia)) as (fp & Ep & Bp & Vp).
  destruct (of_int_value roi 34 Hr ltac:(lia)) as (fr & Er & Br & Vr).
  remember (PyFloat.sub PyFloat.one a) as c eqn:Ec.
  pose proof (SFmul_value_signed fp c _ _ Bp Bc ltac:(lia)) as V1.
  pose proof (SFmul_value_signed fr a _ _ Br Ba ltac:(lia)) as V2.
  pose proof (SFmul_bound _ _ _ _ Bp Bc ltac:(lia)) as B1.
  pose proof (SFmul_bound _ _ _ _ Br Ba ltac:(lia)) as B2.
  apply finite_below_mono with (K' := 39) in B1; [|lia].
  apply finite_below_mono with (K' := 39) in B2; [|lia].
  pose proof (SFadd_value_signed _ _ _ B1 B2 ltac:(lia)) as V.
  pose proof (SFadd_bound _ _ _ B1 B2 ltac:(lia)) as Bv.
  assert (Ef : smooth_value a prev roi
               = Ok (PyFloat.add (PyFloat.mul fp c) (PyFloat.mul fr a))).
  { unfold smooth_value. rewrite <- Ec, Ep, Er. reflexivity. }
  exists (truncate (PyFloat.F2Q (PyFloat.add (PyFloat.mul fp c)
                                   (PyFloat.mul fr a)))).
  split.
  { rewrite smooth_smooth_value, Ef. cbn [bind].
    apply (to_int_truncate _ _ Bv). }
  unfold truncated_smoothing. rewrite Ef, Z.eqb_refl. cbn [andb].
  apply Qle_bool_iff.
  unfold PyFloat.add, PyFloat.mul, exact_smooth.
  (* the numeric facts, over the rationals *)
  assert (U0 : (2 ^ (-53) == 1 # 9007199254740992)%Q) by reflexivity.
  assert (U1 : (2 ^ (34 + 1 + 3 - 53) == 1 # 32768)%Q) by reflexivity.
  assert (U2 : (2 ^ (34 + 1 + 1 - 53) == 1 # 131072)%Q) by reflexivity.
  assert (U3 : (2 ^ (39 + 1 - 53) == 1 # 8192)%Q) by reflexivity.
  rewrite U0 in Vc. rewrite Vp, U1 in V1. rewrite Vr, U2 in V2.
  rewrite U3 in V.
  pose proof (inject_Z_abs_bound prev 34 Hp ltac:(lia)) as Pq.
  change (inject_Z (2 ^ 34)) with 17179869184%Q in Pq.
  remember (PyFloat.F2Q (SFmul 53 1024 fp c)) as x1.
  remember (PyFloat.F2Q (SFmul 53 1024 fr a)) as x2.
  remember (PyFloat.F2Q
              (SFadd 53 1024 (SFmul 53 1024 fp c) (SFmul 53 1024 fr a)))
    as xv.
  remember (PyFloat.F2Q c) as cq. remember (PyFloat.F2Q a) as aq.
  remember (inject_Z prev) as P. remember (inject_Z roi) as R.
  assert (M1 : (0 <= (17179869184 - P)
                     * ((1 # 9007199254740992) - (cq - (1 - aq))))%Q)
    by (apply Qmult_le_0_compat; lra).
  assert (M2 : (0 <= (17179869184 + P)
                     * ((1 # 9007199254740992) - (cq - (1 - aq))))%Q)
    by (apply Qmult_le_0_compat; lra).
  assert (M3 : (0 <= (17179869184 - P)
                     * ((1 # 9007199254740992) + (cq - (1 - aq))))%Q)
    by (apply Qmult_le_0_compat; lra).
  assert (M4 : (0 <= (17179869184 + P)
                     * ((1 # 9007199254740992) + (cq - (1 - aq))))%Q)
    by (apply Qmult_le_0_compat; lra).
  apply Qabs_Qle_condition. split; lra.
Qed.

(** ** The recurrence *)

Lemma well_formed_smoothing frames motion_results viewport_size
    smoothing_factor :
  well_formed frames motion_results viewport_size smoothing_factor = true ->
  valid_smoothing smoothing_factor = true.
Proof.
  unfold well_formed. intros H. apply andb_prop in H. tauto.
Qed.

(** C1 (amended): for [i > 0] the position is
    [clamp(int(position[i-1] * (1 - a) + raw[i] * a))] on each axis, computed
    from the previous stored (clamped) position and the centre of the region
    of interest of [motion_results[i]], and clamped to the range of
    [frames[0]]; on well-formed input the integer is the truncation toward
    zero of a double within [2^-12] of the exact value of the expression. *)
Theorem smoothing_recurrence frames motion_results vp_width vp_height
    smoothing_factor ps i :
  track_viewport frames motion_results (vp_width, vp_height) smoothing_factor
    = Ok ps ->
  (0 < i < length ps)%nat ->
  exists frame0 frame roi_x roi_y roi_w roi_h smooth_x smooth_y,
    nth_error frames 0 = Some frame0 /\
    nth_error frames i = Some frame /\
    calculate_region_of_interest (nth i motion_results []) frame
      = Ok (roi_x, roi_y, roi_w, roi_h) /\
    smooth smoothing_factor (fst (nth (i - 1) ps (0, 0))) roi_x = Ok smooth_x /\
    smooth smoothing_factor (snd (nth (i - 1) ps (0, 0))) roi_y = Ok smooth_y /\
    nth i ps (0, 0)
    = (clamp (vp_width / 2) (width frame0 - vp_width / 2) smooth_x,
       clamp (vp_height / 2) (height frame0 - vp_height / 2) smooth_y) /\
    (well_formed frames motion_results (vp_width, vp_height) smoothing_factor
       = true ->
     truncated_smoothing smoothing_factor (fst (nth (i - 1) ps (0, 0)))
       roi_x smooth_x = true /\
     truncated_smoothing smoothing_factor (snd (nth (i - 1) ps (0, 0)))
       roi_y smooth_y = true).
Proof.
  intros Htrack Hi.
  destruct frames as [| frame0 frames].
  { cbn in Htrack. injection Htrack as <-. cbn in Hi. lia. }
  destruct (nth_error ps i) as [p|] eqn:Ep;
    [|apply nth_error_None in Ep; lia].
  destruct (track_viewport_nth _ _ _ _ _ _ _ _ _ Htrack Ep)
    as (mb & Emb & Hstep).
  apply step_inv in Hstep.
  destruct Hstep as (frame & rx & ry & rw & rh & sx & sy & Ef & Eroi & Hs & Hp).
  destruct i as [| i']; [lia|]. cbn [previous] in Hs. destruct Hs as [Hsx Hsy].
  exists frame0, frame, rx, ry, rw, rh, sx, sy.
  replace (S i' - 1)%nat with i' by lia.
  rewrite (nth_error_nth _ _ _ Emb), (nth_error_nth _ _ _ Ep).
  do 6 (split; [auto|]).
  intros Hwf.
  destruct (tracked_step _ _ _ _ _ _ _ Hwf Htrack (S i') p Ep)
    as (frame' & rx' & ry' & rw' & rh' & sx' & sy' & Ef' & Eroi' & Hrx & Hry
        & (prev & Eprev & Hpx & Hpy & _) & _).
  rewrite Ef in Ef'. injection Ef' as <-.
  rewrite (nth_error_nth _ _ _ Emb) in Eroi'.
  rewrite Eroi in Eroi'. injection Eroi' as <- <- <- <-.
  rewrite (nth_error_nth _ _ _ Eprev) in *.
  pose proof (well_formed_smoothing _ _ _ _ Hwf) as Ha.
  destruct (smooth_truncates smoothing_factor (fst prev) rx Ha Hpx Hrx)
    as (vx & Evx & Tx).
  destruct (smooth_truncates smoothing_factor (snd prev) ry Ha Hpy Hry)
    as (vy & Evy & Ty).
  rewrite Hsx in Evx. injection Evx as <-.
  rewrite Hsy in Evy. injection Evy as <-.
  split; assumption.
Qed.

Lemma smoothing_recurrence_witness :
  exists frame0 frame roi_x roi_y roi_w roi_h smooth_x smooth_y,
    nth_error pair_frames 0 = Some frame0 /\
    nth_error pair_frames 1 = Some frame /\
    calculate_region_of_interest (nth 1 pair_motion []) frame
      = Ok (roi_x, roi_y, roi_w, roi_h) /\
    smooth PyFloat.lit_0_3 (fst (nth (1 - 1) [(50, 50); (50, 50)] (0, 0))) roi_x
      = Ok smooth_x /\
    smooth PyFloat.lit_0_3 (snd (nth (1 - 1) [(50, 50); (50, 50)] (0, 0))) roi_y
      = Ok smooth_y /\
    nth 1 [(50, 50); (50, 50)] (0, 0)
    = (clamp (10 / 2) (width frame0 - 10 / 2) smooth_x,
       clamp (10 / 2) (height frame0 - 10 / 2) smooth_y) /\
    truncated_smoothing PyFloat.lit_0_3
      (fst (nth (1 - 1) [(50, 50); (50, 50)] (0, 0))) roi_x smooth_x = true /\
    truncated_smoothing PyFloat.lit_0_3
      (snd (nth (1 - 1) [(50, 50); (50, 50)] (0, 0))) roi_y smooth_y = true.
Proof.
  destruct (smoothing_recurrence pair_frames pair_motion 10 10 PyFloat.lit_0_3
              [(50, 50); (50, 50)] 1%nat)
    as (frame0 & frame & roi_x & roi_y & roi_w & roi_h & smooth_x & smooth_y
        & H1 & H2 & H3 & H4 & H5 & H6 & H7);
    [vm_compute; reflexivity | cbn; lia |].
  exists frame0, frame, roi_x, roi_y, roi_w, roi_h, smooth_x, smooth_y.
  do 6 (split; [assumption|]).
  apply H7. vm_compute. reflexivity.
Defined.

(** C1 (as stated) fails: [50 * 0.7 + 52 * 0.3] is [50.6], which [round]
    takes to 51 while the code stores 50. *)
Lemma smoothing_round_counterexample :
  track_viewport pair_frames pair_motion (10, 10) PyFloat.lit_0_3
    = Ok [(50, 50); (50, 50)] /\
  calculate_region_of_interest [(51, 49, 2, 2)] frame_100 = Ok (52, 50, 2, 2) /\
  spec_smooth PyFloat.lit_0_3 50 52 = Ok 51 /\
  clamp (10 / 2) (100 - 10 / 2) 51 <> 50.
Proof. vm_compute. repeat split; discriminate. Qed.

(** [int] and [round] differ on the smoothed value, also below zero:
    [5 * 0.7 - 52 * 0.3] is [-12.1], which [int] takes to [-12]. *)
Example smooth_truncates_toward_zero :
  smooth PyFloat.lit_0_3 50 52 = Ok 50 /\
  truncated_smoothing PyFloat.lit_0_3 50 52 51 = false /\
  smooth PyFloat.lit_0_3 5 (-52) = Ok (-12) /\
  truncated_smoothing PyFloat.lit_0_3 5 (-52) (-13) = false.
Proof. vm_compute. repeat split. Qed.
